(** * TFG_ui: the evaluation orchestrator, the LLM service glue and the
    web application

    A shallow embedding of [TalkingGaussian/scripts/eval_all.py], of
    [backend/llm_service.py] and of [app.py].

    - Text scanned by [re.search] is a list of Unicode code points.
    - Paths, option values and dictionary keys are byte strings.
    - The operating system (files, directories, subprocesses) is an
      interface, [World]; [main] is written against it the way the script is
      written against [os], [shutil] and [subprocess]. Where a relative
      path leads, from the working directory of the script or of a
      subprocess, is the interface [Places].
    - Python exceptions are an error monad over the world state.
    - Console output ([print]) is not modelled. *)

From Stdlib Require Import ZArith NArith List String Ascii Bool Lia.
From Stdlib Require DecimalString.
From stdpp Require Import base option list strings gmap fin_maps.

Import ListNotations.
Local Open Scope Z_scope.

(** ** Text *)

(** A Python [str] of subprocess output: a list of code points. *)
Definition char : Type := N.
Definition text : Type := list char.

Definition code (a : ascii) : char := N_of_ascii a.

(** The text of an ASCII literal. *)
Definition T (s : string) : text := List.map code (list_ascii_of_string s).

Definition in_range (lo hi : N) (c : char) : bool :=
  ((lo <=? c) && (c <=? hi))%N.

(** ** Regular expressions, as [re] runs them

    Only the constructs of the seven patterns of the script: single
    characters, sets of characters, greedy [*] and [+] and lazy [*?] over a
    set of characters, and one capturing group. [re] is a backtracking
    matcher: [search] tries every start position from the left, a greedy
    repetition tries the longest run first, a lazy one the shortest. *)

Module Re.

Inductive item : Type :=
| Chr (c : char)                (* a literal character *)
| Star (cs : char -> bool)      (* [cs*], greedy *)
| Plus (cs : char -> bool)      (* [cs+], greedy *)
| Lazy (cs : char -> bool)      (* [cs*?] *)
| Open                          (* [(] of group 1 *)
| Close.                        (* [)] of group 1 *)

Definition pattern : Type := list item.

(** [\s] on a [str] pattern: the characters of [str.isspace]. *)
Definition space (c : char) : bool :=
  (in_range 9 13 c || in_range 28 32 c || (c =? 133) || (c =? 160)
   || (c =? 5760) || in_range 8192 8202 c || (c =? 8232) || (c =? 8233)
   || (c =? 8239) || (c =? 8287) || (c =? 12288))%N.

(** [.] without [re.DOTALL]: anything but a line feed. *)
Definition dot (c : char) : bool := negb (c =? 10)%N.

(** The set [[0-9.+-eE]]. Between [+] and [e] the hyphen builds a range, so
    the members are [0-9], [.], everything from [+] (43) to [e] (101), and
    [E]. *)
Definition numclass (c : char) : bool :=
  (in_range 48 57 c || (c =? 46) || in_range 43 101 c || (c =? 69))%N.

(** The members of a set of a pattern, as [re] reads them from the text
    that follows the opening bracket: single characters [(c, c)] and
    ranges [(lo, hi)], a hyphen between two characters building a range,
    up to the closing bracket; with them, the pattern that is left. A
    closing bracket that comes first is a member. [None] for a text that
    [re] rejects, and for an escape, which is not read here. *)
Fixpoint bracket (acc : list (char * char)) (s : text)
  : option (list (char * char) * text) :=
  match s with
  | [] => None
  | c :: s1 =>
      if (c =? 93)%N && match acc with [] => false | _ => true end
      then Some (acc, s1)
      else if (c =? 92)%N then None
      else
        match s1 with
        | h :: s2 =>
            if (h =? 45)%N then
              match s2 with
              | [] => None
              | d :: s3 =>
                  if (d =? 93)%N then Some (acc ++ [(c, c); (45, 45)]%N, s3)
                  else if (d =? 92)%N then None
                  else if (d <? c)%N then None
                  else bracket (acc ++ [(c, d)]) s3
              end
            else bracket (acc ++ [(c, c)]) s1
        | [] => None
        end
  end.

(** A set that is not negated. *)
Definition set_of (s : text) : option (list (char * char) * text) :=
  match s with
  | c :: _ => if (c =? 94)%N then None else bracket [] s
  | [] => None
  end.

Definition member (ranges : list (char * char)) (c : char) : bool :=
  existsb (fun r => in_range (fst r) (snd r) c) ranges.

(** Greedy run of [cs], then [k]; on failure of [k], one character less. *)
Fixpoint greedy {A} (cs : char -> bool) (k : text -> option A) (s : text)
  : option A :=
  match s with
  | c :: s' =>
      if cs c then
        match greedy cs k s' with
        | Some r => Some r
        | None => k s
        end
      else k s
  | [] => k s
  end.

(** [k] first; on failure one more character of [cs]. *)
Fixpoint lazy {A} (cs : char -> bool) (k : text -> option A) (s : text)
  : option A :=
  match k s with
  | Some r => Some r
  | None =>
      match s with
      | c :: s' => if cs c then lazy cs k s' else None
      | [] => None
      end
  end.

(** The state of group 1 while matching: the input left at [(] and at [)]. *)
Record marks : Type := { at_open : option text; at_close : option text }.

Definition no_marks : marks := {| at_open := None; at_close := None |}.

(** [m.group(1)]: the text between the two marks. *)
Definition group1 (m : marks) : option text :=
  match at_open m, at_close m with
  | Some o, Some c => Some (take (length o - length c)%nat o)
  | _, _ => None
  end.

(** Match [p] at the head of [s]. *)
Fixpoint run (p : pattern) (m : marks) (s : text) : option marks :=
  match p with
  | [] => Some m
  | Chr c :: p' =>
      match s with
      | d :: s' => if (c =? d)%N then run p' m s' else None
      | [] => None
      end
  | Star cs :: p' => greedy cs (run p' m) s
  | Plus cs :: p' =>
      match s with
      | d :: s' => if cs d then greedy cs (run p' m) s' else None
      | [] => None
      end
  | Lazy cs :: p' => lazy cs (run p' m) s
  | Open :: p' => run p' {| at_open := Some s; at_close := at_close m |} s
  | Close :: p' => run p' {| at_open := at_open m; at_close := Some s |} s
  end.

(** [re.search(p, s)]: the leftmost match, as the text of its group 1. *)
Fixpoint search (p : pattern) (s : text) : option text :=
  match run p no_marks s with
  | Some m => group1 m
  | None =>
      match s with
      | _ :: s' => search p s'
      | [] => None
      end
  end.

(** What is left of [s] after its longest head of characters of [cs]. *)
Fixpoint skip (cs : char -> bool) (s : text) : text :=
  match s with
  | c :: s' => if cs c then skip cs s' else s
  | [] => []
  end.

(** [s] is empty or begins with a character outside [cs]. *)
Definition stops (cs : char -> bool) (s : text) : Prop :=
  match s with
  | c :: _ => cs c = false
  | [] => True
  end.

(** [l] occurs in [s]. *)
Definition contains (l s : text) : Prop :=
  exists pre post, s = pre ++ l ++ post.

(** [s1] is what is left of [s] after some characters. *)
Definition suffix_of (s1 s : text) : Prop := exists pre, s = pre ++ s1.

(** No group mark among the items. *)
Definition unmarked (i : item) : bool :=
  match i with Open | Close => false | _ => true end.

Definition lit (s : string) : pattern := List.map Chr (T s).

(** A pattern made of a literal, items without marks, and the group
    [([0-9.+-eE]+)] at the end. *)
Definition shaped (l : text) (p : pattern) : Prop :=
  exists q,
    forallb unmarked q = true
    /\ p = List.map Chr l ++ q ++ [Open; Plus numclass; Close].

(** [([0-9.+-eE]+)] *)
Definition number : pattern := [Open; Plus numclass; Close].

(** [PSNR\s*=\s*([0-9.+-eE]+)] *)
Definition psnr : pattern :=
  lit "PSNR" ++ [Star space; Chr (code "=")] ++ [Star space] ++ number.
(** [SSIM\s*=\s*([0-9.+-eE]+)] *)
Definition ssim : pattern :=
  lit "SSIM" ++ [Star space; Chr (code "=")] ++ [Star space] ++ number.
(** [LPIPS.*?=\s*([0-9.+-eE]+)] *)
Definition lpips : pattern :=
  lit "LPIPS" ++ [Lazy dot; Chr (code "=")] ++ [Star space] ++ number.
(** [NIQE\s*\(pyiqa\)\s*=\s*([0-9.+-eE]+)] *)
Definition niqe : pattern :=
  lit "NIQE" ++ [Star space] ++ lit "(pyiqa)"
    ++ [Star space; Chr (code "=")] ++ [Star space] ++ number.
(** [FID.*?=\s*([0-9.+-eE]+)] *)
Definition fid : pattern :=
  lit "FID" ++ [Lazy dot; Chr (code "=")] ++ [Star space] ++ number.
(** [LSE-C.*?=\s*([0-9.+-eE]+)] *)
Definition lse_c : pattern :=
  lit "LSE-C" ++ [Lazy dot; Chr (code "=")] ++ [Star space] ++ number.
(** [LSE-D.*?=\s*([0-9.+-eE]+)] *)
Definition lse_d : pattern :=
  lit "LSE-D" ++ [Lazy dot; Chr (code "=")] ++ [Star space] ++ number.

End Re.

(** ** Floating-point numbers and [float(str)]

    A Python [float] is an IEEE 754 binary64 number. [float(s)] reads a
    decimal literal and rounds its exact value to the nearest binary64
    number, ties to even; the rounding is carried out here on integers. *)

Module Float.

(** [Finite neg m e] is [(-1)^neg * m * 2^e], with [0 <= m < 2^53] and
    [-1074 <= e <= 971]; [m < 2^52] only when [e = -1074]. *)
Inductive pyfloat : Type :=
| Finite (neg : bool) (m : Z) (e : Z)
| Inf (neg : bool)
| NaN.

Definition is_finite (f : pyfloat) : bool :=
  match f with Finite _ _ _ => true | _ => false end.

Definition round_half_even (q r d : Z) : Z :=
  match Z.compare (2 * r) d with
  | Lt => q
  | Gt => q + 1
  | Eq => if Z.even q then q else q + 1
  end.

(** The binary64 number nearest to [num / den], for [0 < num], [0 < den]. *)
Definition round_ratio (neg : bool) (num den : Z) : pyfloat :=
  let lg := Z.log2 num - Z.log2 den in
  let fl :=
    if den * 2 ^ Z.max 0 lg <=? num * 2 ^ Z.max 0 (- lg) then lg else lg - 1 in
  let e := Z.max (fl - 52) (-1074) in
  let n := num * 2 ^ Z.max 0 (- e) in
  let d := den * 2 ^ Z.max 0 e in
  let m := round_half_even (n / d) (n mod d) d in
  let '(m, e) := if m =? 2 ^ 53 then (2 ^ 52, e + 1) else (m, e) in
  if 971 <? e then Inf neg else Finite neg m e.

(** The binary64 number nearest to [m * 10^e], for [0 <= m]. *)
Definition round_decimal (neg : bool) (m e : Z) : pyfloat :=
  if m =? 0 then Finite neg 0 (-1074)
  else if 0 <=? e then round_ratio neg (m * 10 ^ e) 1
  else round_ratio neg m (10 ^ (- e)).

Definition is_digit (c : char) : bool := in_range 48 57 c.

Definition is_underscore (c : char) : bool := (c =? 95)%N.

(** An underscore is accepted only between two digits, and is dropped. *)
Fixpoint drop_underscores (prev : option char) (s : text) : option text :=
  match s with
  | [] =>
      match prev with
      | Some p => if is_underscore p then None else Some []
      | None => Some []
      end
  | c :: s' =>
      if is_underscore c then
        match prev with
        | Some p => if is_digit p then drop_underscores (Some c) s' else None
        | None => None
        end
      else
        match prev with
        | Some p =>
            if is_underscore p && negb (is_digit c) then None
            else cons c <$> drop_underscores (Some c) s'
        | None => cons c <$> drop_underscores (Some c) s'
        end
  end.

(** The characters [float] strips from both ends of an ASCII string. *)
Definition ascii_space (c : char) : bool := in_range 9 13 c || (c =? 32)%N.

Fixpoint lstrip (s : text) : text :=
  match s with
  | c :: s' => if ascii_space c then lstrip s' else s
  | [] => []
  end.

Definition strip (s : text) : text := rev (lstrip (rev (lstrip s))).

(** An optional sign: whether it is [-], and the rest. *)
Definition sign (s : text) : bool * text :=
  match s with
  | c :: s' =>
      if (c =? 45)%N then (true, s')
      else if (c =? 43)%N then (false, s')
      else (false, s)
  | [] => (false, s)
  end.

Fixpoint span (f : char -> bool) (s : text) : text * text :=
  match s with
  | c :: s' =>
      if f c then let '(a, b) := span f s' in (c :: a, b) else ([], s)
  | [] => ([], [])
  end.

Definition digits_value (ds : text) : Z :=
  fold_left (fun acc c => 10 * acc + (Z.of_N c - 48)) ds 0.

Definition lower (c : char) : char :=
  if in_range 65 90 c then (c + 32)%N else c.

Definition text_eqb (a b : text) : bool := bool_decide (a = b).

(** [[eE] [+-]? digit+] or nothing: the exponent. *)
Definition exponent (s : text) : option Z :=
  match s with
  | [] => Some 0
  | c :: s' =>
      if (c =? 101)%N || (c =? 69)%N then
        let '(neg, ds) := sign s' in
        match span is_digit ds with
        | ((_ :: _) as es, []) =>
            Some (if neg then - digits_value es else digits_value es)
        | _ => None
        end
      else None
  end.

(** [digit* [. digit*]] with a digit somewhere, then the exponent. *)
Definition number (neg : bool) (s : text) : option pyfloat :=
  let '(ip, r1) := span is_digit s in
  let '(fp, r2) :=
    match r1 with
    | c :: r => if (c =? 46)%N then span is_digit r else ([], r1)
    | [] => ([], r1)
    end in
  match ip ++ fp with
  | [] => None
  | ds =>
      e ← exponent r2;
      Some (round_decimal neg (digits_value ds) (e - Z.of_nat (length fp)))
  end.

(** [float(s)] for an ASCII [s]; [None] stands for [ValueError]. Digits of
    other scripts, which [float] also reads, are outside this model: the
    scanned groups never contain one. *)
Definition py_float (s : text) : option pyfloat :=
  s0 ← drop_underscores None (strip s);
  let '(neg, s1) := sign s0 in
  let l := List.map lower s1 in
  if text_eqb l (T "inf") || text_eqb l (T "infinity") then Some (Inf neg)
  else if text_eqb l (T "nan") then Some NaN
  else number neg s1.

(** *** [str(x)] of a float

    [repr] gives the shortest decimal string that [float] reads back as
    [x], the nearest to [x] among the shortest, in plain notation when
    the decimal point falls within the digits or at most three zeros
    before them or sixteen places from the first, with an exponent
    otherwise. *)

(** [m * 2^e] as a fraction. *)
Definition ratio (m e : Z) : Z * Z :=
  if 0 <=? e then (m * 2 ^ e, 1) else (m, 2 ^ (- e)).

(** Whether [10^p <= num / den]. *)
Definition le_pow10 (num den p : Z) : bool :=
  if 0 <=? p then 10 ^ p * den <=? num else den <=? num * 10 ^ (- p).

(** The exponent of the first digit of [num / den]. *)
Definition floor_log10 (num den : Z) : Z :=
  let est := (Z.log2 num - Z.log2 den) * 30103 / 100000 in
  fold_left (fun best p => if le_pow10 num den p then p else best)
    [est - 2; est - 1; est; est + 1; est + 2] (est - 3).

(** [num / den / 10^scale], rounded down. *)
Definition floor_scaled (num den scale : Z) : Z :=
  if 0 <=? scale then num / (den * 10 ^ scale)
  else (num * 10 ^ (- scale)) / den.

(** How [num / den] lies between [q * 10^scale] and [(q + 1) * 10^scale]:
    [Lt] when nearer to the first. *)
Definition side (num den q scale : Z) : comparison :=
  if 0 <=? scale
  then Z.compare (2 * num) ((2 * q + 1) * 10 ^ scale * den)
  else Z.compare (2 * num * 10 ^ (- scale)) ((2 * q + 1) * den).

Definition same (x y : pyfloat) : bool :=
  match x, y with
  | Finite n1 m1 e1, Finite n2 m2 e2 =>
      Bool.eqb n1 n2 && (m1 =? m2) && (e1 =? e2)
  | _, _ => false
  end.

(** The decimal with [n] digits that reads back as [m * 2^e], if there
    is one: its digits as a number, and the exponent of the last. *)
Definition with_digits (m e k n : Z) : option (Z * Z) :=
  let '(num, den) := ratio m e in
  let scale := k - n + 1 in
  let q := floor_scaled num den scale in
  let back d := same (round_decimal false d scale) (Finite false m e) in
  match back q, back (q + 1) with
  | true, true =>
      match side num den q scale with
      | Lt => Some (q, scale)
      | Gt => Some (q + 1, scale)
      | Eq => Some (if Z.even q then q else q + 1, scale)
      end
  | true, false => Some (q, scale)
  | false, true => Some (q + 1, scale)
  | false, false => None
  end.

Fixpoint shortest_from (fuel : nat) (m e k n : Z) : Z * Z :=
  match fuel with
  | O => (m, 0)
  | S fuel' =>
      match with_digits m e k n with
      | Some r => r
      | None => shortest_from fuel' m e k (n + 1)
      end
  end.

Fixpoint strip_zeros (fuel : nat) (q scale : Z) : Z * Z :=
  match fuel with
  | O => (q, scale)
  | S fuel' =>
      if (q mod 10 =? 0) && negb (q =? 0)
      then strip_zeros fuel' (q / 10) (scale + 1)
      else (q, scale)
  end.

Definition digits_of (n : Z) : string :=
  DecimalString.NilZero.string_of_uint (N.to_uint (Z.to_N n)).

Fixpoint zeros (n : nat) : string :=
  match n with
  | O => EmptyString
  | S n' => String "0" (zeros n')
  end.

(** The digits of a positive [m * 2^e], and the place of the decimal
    point counted from the first digit. *)
Definition shortest (m e : Z) : string * Z :=
  let '(num, den) := ratio m e in
  let k := floor_log10 num den in
  let '(q, scale) := shortest_from 17 m e k 1 in
  let '(q, scale) := strip_zeros 400 q scale in
  let ds := digits_of q in
  (ds, Z.of_nat (String.length ds) + scale).

Definition two_digits (n : Z) : string :=
  if n <? 10 then String "0" (digits_of n) else digits_of n.

Definition repr_positive (m e : Z) : string :=
  let '(ds, decpt) := shortest m e in
  let nd := Z.of_nat (String.length ds) in
  if (decpt <=? -4) || (16 <? decpt) then
    let mantissa :=
      match ds with
      | String d EmptyString => String d EmptyString
      | String d rest => String d (String "." rest)
      | EmptyString => EmptyString
      end in
    let x := decpt - 1 in
    let sgn := if x <? 0 then "-" else "+" in
    (mantissa ++ "e" ++ sgn ++ two_digits (Z.abs x))%string
  else if decpt <=? 0 then
    ("0." ++ zeros (Z.to_nat (- decpt)) ++ ds)%string
  else if nd <=? decpt then
    (ds ++ zeros (Z.to_nat (decpt - nd)) ++ ".0")%string
  else
    (String.substring 0 (Z.to_nat decpt) ds ++ "."
       ++ String.substring (Z.to_nat decpt) (Z.to_nat (nd - decpt)) ds)%string.

(** [repr(x)], which is [str(x)]. *)
Definition repr (x : pyfloat) : string :=
  match x with
  | NaN => "nan"
  | Inf neg => if neg then "-inf" else "inf"
  | Finite neg m e =>
      let body := if m =? 0 then "0.0" else repr_positive m e in
      if neg then String "-" body else body
  end.

(** The characters of the ASCII strings that [float] accepts: digits,
    white space, the signs, the point, the underscore, [e], and the
    letters of [inf], [infinity] and [nan], in either case. *)
Definition literal_char (c : char) : bool :=
  is_digit c || ascii_space c
  || existsb (N.eqb (lower c)) (T "+-._einftya").

End Float.

(** ** Paths ([posixpath]) *)

Module Path.

Definition sep : ascii := ascii_of_nat 47.

Definition starts_with_sep (s : string) : bool :=
  match s with
  | String c _ => Ascii.eqb c sep
  | EmptyString => false
  end.

Fixpoint ends_with_sep (s : string) : bool :=
  match s with
  | EmptyString => false
  | String c EmptyString => Ascii.eqb c sep
  | String _ s' => ends_with_sep s'
  end.

Definition is_empty (s : string) : bool :=
  match s with EmptyString => true | _ => false end.

(** [os.path.join(a, b)] *)
Definition join (a b : string) : string :=
  if starts_with_sep b then b
  else if is_empty a || ends_with_sep a then (a ++ b)%string
  else (a ++ String sep b)%string.

Definition join3 (a b c : string) : string := join (join a b) c.

Fixpoint rstrip_sep (r : list ascii) : list ascii :=
  match r with
  | c :: r' => if Ascii.eqb c sep then rstrip_sep r' else r
  | [] => []
  end.

Fixpoint drop_name (r : list ascii) : list ascii :=
  match r with
  | c :: r' => if Ascii.eqb c sep then r else drop_name r'
  | [] => []
  end.

(** [os.path.dirname(p)]: everything up to the last separator, without
    trailing separators unless there is nothing else. Works on the
    reversed path. *)
Definition dirname (p : string) : string :=
  let head := drop_name (rev (list_ascii_of_string p)) in
  match rstrip_sep head with
  | [] => string_of_list_ascii (rev head)
  | h => string_of_list_ascii (rev h)
  end.

End Path.

(** ** The summary record: Python values *)

#[local] Set Warnings "-register-all".

Inductive pyval : Type :=
| VNone
| VBool (b : bool)
| VStr (s : string)
| VFloat (f : Float.pyfloat)
| VDict (d : list (string * pyval)).

(** A [dict] keeps its keys in insertion order. *)
Definition pydict : Type := list (string * pyval).

Definition keys (d : pydict) : list string := List.map fst d.

Fixpoint dict_get (k : string) (d : pydict) : option pyval :=
  match d with
  | (k', v) :: d' => if String.eqb k k' then Some v else dict_get k d'
  | [] => None
  end.

(** [d[k] = v]: an old key keeps its place, a new one goes last. *)
Fixpoint dict_set (k : string) (v : pyval) (d : pydict) : pydict :=
  match d with
  | (k', v') :: d' =>
      if String.eqb k k' then (k, v) :: d' else (k', v') :: dict_set k v d'
  | [] => [(k, v)]
  end.

(** [d[k] = v] if [b]. *)
Definition upd (b : bool) (k : string) (v : pyval) (d : pydict) : pydict :=
  if b then dict_set k v d else d.

Definition of_float (o : option Float.pyfloat) : pyval :=
  match o with Some f => VFloat f | None => VNone end.

Definition of_str (o : option string) : pyval :=
  match o with Some s => VStr s | None => VNone end.

(** [json.dump] is called with [allow_nan] left at its default: a float that
    is not finite is written as [NaN], [Infinity] or [-Infinity], none of
    which is a JSON token. [None], booleans, strings, finite floats and
    dictionaries with string keys are written as JSON. So the text written
    for [v] is JSON exactly when every float in [v] is finite. *)
Fixpoint json_valid (v : pyval) : bool :=
  match v with
  | VFloat f => Float.is_finite f
  | VDict d => forallb (fun kv => json_valid (snd kv)) d
  | _ => true
  end.

(** ** Exceptions *)

(** The argument of [SystemExit]: a return code or a message. *)
Inductive exit_arg : Type :=
| Code (n : Z)
| Msg (s : string).

Inductive exn : Type :=
| SystemExit (a : exit_arg)
| ValueError (s : text)      (* [float] of a string that is no literal *)
| OSError (what : string).   (* an operation of the operating system failed *)

Inductive res (A : Type) : Type :=
| Ret (a : A)
| Raise (e : exn).
Arguments Ret {A} a.
Arguments Raise {A} e.

(** The exit status of the interpreter when [e] reaches the top level: an
    integer passed to [SystemExit] modulo 256, and 1 for a message and for
    any other exception. *)
Definition exit_status (e : exn) : Z :=
  match e with
  | SystemExit (Code n) => n mod 256
  | _ => 1
  end.

(** The names of the selected metric families, in the order in which the
    script runs them. *)
Definition families (run : bool * bool * bool * bool) : list string :=
  let '(run_frame, run_niqe, run_fid, run_lse) := run in
  (if run_frame then ["frame"] else [])
    ++ (if run_niqe then ["niqe"] else [])
    ++ (if run_fid then ["fid"] else [])
    ++ (if run_lse then ["lse"] else []).

(** [None], a boolean, a string or a float. *)
Definition scalar (v : pyval) : bool :=
  match v with VDict _ => false | _ => true end.

(** A dictionary of scalars. *)
Definition flat (v : pyval) : bool :=
  match v with
  | VDict d => forallb (fun kv => scalar (snd kv)) d
  | _ => false
  end.

(** ** The operating system *)

(** What an operation of the operating system gives: a value, or a failure
    that Python raises as [OSError] or one of its kin. *)
Inductive os_res (A : Type) : Type :=
| Done (a : A)
| Failed (what : string).
Arguments Done {A} a.
Arguments Failed {A} what.

(** [cmd] of [subprocess]: a shell line or an argument vector. *)
Inductive command : Type :=
| Shell (line : string)
| Argv (args : list string).

Class World (W : Type) : Type := {
  (** [sys.executable] *)
  executable : string;
  (** [_project_root()]: the parent of the directory of the script *)
  _project_root : string;
  (** [str(x)] of a float *)
  str_float : Float.pyfloat -> string;
  (** [os.path.abspath], which depends on the working directory *)
  abspath : string -> string;
  (** [os.path.exists] *)
  path_exists : string -> W -> bool;
  (** [os.path.isdir] *)
  is_dir : string -> W -> bool;
  (** the value whose [json.dump] text the file at this path holds *)
  json_at : string -> W -> option pyval;
  (** [shutil.rmtree] *)
  rmtree : string -> W -> os_res unit * W;
  (** [os.makedirs(path, exist_ok=True)] *)
  makedirs : string -> W -> os_res unit * W;
  (** [open(path, "r", encoding="utf-8").read()] *)
  read_text : string -> W -> os_res text * W;
  (** [open(path, "w", encoding="utf-8")] followed by
      [json.dump(v, f, indent=2, ensure_ascii=False)] *)
  write_json : string -> pyval -> W -> os_res unit * W;
  (** [subprocess.call] and [subprocess.run]: run a command in a directory
      until it ends; the return code and what it wrote to standard output.
      Fails when the process cannot be started. *)
  spawn : command -> option string -> W -> os_res (Z * text) * W;
}.

(** [p] names something below the directory [d]. *)
Definition inside (d p : string) : Prop :=
  exists rel, rel <> EmptyString /\ Path.starts_with_sep rel = false
              /\ p = Path.join d rel.

(** What the proofs use of the operating system, on POSIX. *)
Class WorldLaws (W : Type) `{World W} : Prop := {
  (** a return code fits the exit status of a process, or is minus a signal
      number *)
  spawn_code : forall c d w rc out w',
    spawn c d w = (Done (rc, out), w') -> -256 < rc < 256;
  (** after [rmtree] neither the directory nor anything below it exists *)
  rmtree_gone : forall d w w',
    rmtree d w = (Done tt, w') ->
    path_exists d w' = false /\ forall p, inside d p -> path_exists p w' = false;
  (** after [makedirs] the directory exists *)
  makedirs_dir : forall d w w',
    makedirs d w = (Done tt, w') -> is_dir d w' = true;
  (** after writing, the file holds what was written, and directories stay *)
  write_json_at : forall p v w w',
    write_json p v w = (Done tt, w') ->
    json_at p w' = Some v /\ forall d, is_dir d w = true -> is_dir d w' = true;
}.

(** ** Where a relative path leads

    The script never changes its working directory. A path it passes to
    [os] or [shutil] is resolved there; a path it passes on a command line
    is resolved by the subprocess, in the directory the subprocess was
    started in. *)

(** The place a process whose working directory is [cwd] reaches by the
    path [p], as [os.path.join(cwd, p)]: [p] itself when it is absolute. *)
Definition resolved (cwd p : string) : string := Path.join cwd p.

Class Places (W : Type) `{World W} : Type := {
  (** [os.getcwd()] of the script *)
  getcwd : string;
  (** whether something is at this place *)
  entry : string -> W -> bool;
}.

(** How the operations on paths use the working directory. *)
Class PlacesLaws (W : Type) `{Places W} : Prop := {
  (** [os.path.exists] looks in the working directory of the script *)
  exists_resolved : forall p w,
    p <> EmptyString -> path_exists p w = entry (resolved getcwd p) w;
  (** [shutil.rmtree] removes what the path names from there, and all that
      is below it *)
  rmtree_resolved : forall d w w',
    rmtree d w = (Done tt, w') ->
    entry (resolved getcwd d) w' = false
    /\ forall q, inside (resolved getcwd d) q -> entry q w' = false;
}.

(** ** The command line *)

Inductive lpips_backbone : Type := Alex | Vgg | Squeeze.
Inductive fid_backend_name : Type := CleanFid | TorchFidelity.
Inductive lse_preset_name : Type := Wav2lipReal | Wav2lipLrs.

Definition lpips_backbone_str (n : lpips_backbone) : string :=
  match n with Alex => "alex" | Vgg => "vgg" | Squeeze => "squeeze" end.

Definition fid_backend_str (b : fid_backend_name) : string :=
  match b with CleanFid => "clean-fid" | TorchFidelity => "torch-fidelity" end.

Definition lse_preset_str (p : lse_preset_name) : string :=
  match p with Wav2lipReal => "wav2lip-real" | Wav2lipLrs => "wav2lip-lrs" end.

(** [args] as [parser.parse_args()] returns it. An option that was not passed
    and has no default is [None]. *)
Record Args : Type := {
  pred_video : option string;
  gt_video : option string;
  gen_videos_dir : option string;
  frame : bool;
  niqe : bool;
  fid : bool;
  lse : bool;
  all : bool;
  lpips : bool;
  lpips_net : lpips_backbone;
  fps : option Float.pyfloat;
  fid_backend : fid_backend_name;
  lse_preset : lse_preset_name;
  syncnet_dir : string;
  tmp_dir : string;
  setup_lse : bool;
  work_dir : string;
  json_out : option string;
}.

(** Truth value of an optional string: [None] and the empty string are
    false. *)
Definition truthy (o : option string) : bool :=
  match o with
  | Some s => negb (Path.is_empty s)
  | None => false
  end.

Definition given (o : option string) : bool :=
  match o with Some _ => true | None => false end.

(** Lines 146 to 157: what to run, as [(run_frame, run_niqe, run_fid,
    run_lse)]. *)
Definition resolve (a : Args) : bool * bool * bool * bool :=
  let run_frame := frame a in
  let run_niqe := niqe a in
  let run_fid := fid a in
  let run_lse := lse a in
  if all a || negb (run_frame || run_niqe || run_fid || run_lse) then
    (given (pred_video a) && given (gt_video a),
     given (pred_video a),
     given (pred_video a) && given (gt_video a),
     given (gen_videos_dir a))
  else (run_frame, run_niqe, run_fid, run_lse).

(** ** The script *)

Section Orchestrator.

Context {W : Type} `{World W}.

(** The state of a run: the world, and the subprocesses started so far,
    oldest first, each with its working directory. *)
Record state : Type := {
  world : W;
  trace : list (command * option string);
}.

(** A computation that may raise; the state survives the exception. *)
Definition M (A : Type) : Type := state -> res A * state.

Definition ret {A} (a : A) : M A := fun s => (Ret a, s).

Definition raise {A} (e : exn) : M A := fun s => (Raise e, s).

Definition bind {A B} (c : M A) (k : A -> M B) : M B :=
  fun s =>
    match c s with
    | (Ret a, s') => k a s'
    | (Raise e, s') => (Raise e, s')
    end.

Notation "x <- c ;; k" := (bind c (fun x => k))
  (at level 100, c at next level, right associativity).
Notation "c ;; k" := (bind c (fun _ => k))
  (at level 100, right associativity).

(** A failure of the operating system is raised as [OSError]. *)
Definition raised {A} (r : os_res A) : res A :=
  match r with
  | Done a => Ret a
  | Failed what => Raise (OSError what)
  end.

(** An operation of the operating system, on the world of the state. *)
Definition os {A} (f : W -> os_res A * W) : M A :=
  fun s =>
    let '(r, w) := f (world s) in
    (raised r, {| world := w; trace := trace s |}).

Definition exists_ (p : string) : M bool :=
  fun s => (Ret (path_exists p (world s)), s).

(** Start a subprocess, wait for it, and record it in the trace. *)
Definition subprocess (cmd : command) (cwd : option string) : M (Z * text) :=
  fun s =>
    let '(r, w) := spawn cmd cwd (world s) in
    (raised r, {| world := w; trace := trace s ++ [(cmd, cwd)] |}).

(** [_run(cmd, cwd, allow_fail)] *)
Definition _run (cmd : command) (cwd : option string) (allow_fail : bool)
  : M Z :=
  p <- subprocess cmd cwd ;;
  let ret_ := fst p in
  if negb (ret_ =? 0) && negb allow_fail then raise (SystemExit (Code ret_))
  else ret ret_.

(** [_run_with_output(cmd, cwd=None, allow_fail)] *)
Definition _run_with_output (cmd : command) (allow_fail : bool)
  : M (Z * text) :=
  p <- subprocess cmd None ;;
  let '(returncode, stdout) := p in
  if negb (returncode =? 0) && negb allow_fail
  then raise (SystemExit (Code returncode))
  else ret (returncode, stdout).

(** [_ensure_dir(path)] *)
Definition _ensure_dir (path : string) : M unit := os (makedirs path).

(** The command of [_extract_frames]. *)
Definition extract_command (py video out_dir : string)
  (fps : option Float.pyfloat) : command :=
  let cmd := [py; Path.join "evaluation" "extract_frames.py"; video; out_dir] in
  Argv (match fps with
        | Some x => cmd ++ ["--fps"; str_float x]
        | None => cmd
        end).

(** [_extract_frames(py, video, out_dir, fps)] *)
Definition _extract_frames (py video out_dir : string)
  (fps : option Float.pyfloat) : M unit :=
  _run (extract_command py video out_dir fps) (Some _project_root) false ;;
  ret tt.

(** [m = re.search(p, s)] and, if [m], [float(m.group(1))]: the new value
    of the variable that held [old]. *)
Definition scan (p : Re.pattern) (s : text) (old : option Float.pyfloat)
  : M (option Float.pyfloat) :=
  match Re.search p s with
  | Some g =>
      match Float.py_float g with
      | Some x => ret (Some x)
      | None => raise (ValueError g)
      end
  | None => ret old
  end.

Definition nonempty (s : text) : bool :=
  match s with [] => false | _ => true end.

(** [val = None], then under [if out:] the search and the conversion: lines
    218 to 222 with the NIQE pattern, 250 to 254 with the FID pattern. *)
Definition metric_of (p : Re.pattern) (out : text)
  : M (option Float.pyfloat) :=
  if nonempty out then scan p out None else ret None.

Definition is_none {A} (o : option A) : bool :=
  match o with None => true | Some _ => false end.

Definition dq : string := String (ascii_of_nat 34) EmptyString.

(** Lines 207 to 210 and 236 to 239: remove the directory if it is there,
    then extract the frames of [video] into it. *)
Definition fresh_frames (a : Args) (video dir : string) : M unit :=
  e <- exists_ dir ;;
  (if e then os (rmtree dir) else ret tt) ;;
  _extract_frames executable video dir (fps a).

(** The dictionaries stored in [results]. *)
Definition frame_record (a : Args)
  (psnr_val ssim_val lpips_val : option Float.pyfloat) : pyval :=
  VDict [("lpips", VBool (lpips a));
         ("lpips_net", VStr (lpips_backbone_str (lpips_net a)));
         ("PSNR", of_float psnr_val);
         ("SSIM", of_float ssim_val);
         ("LPIPS", of_float lpips_val)].

Definition niqe_record (pred_frames_dir : option string) (ret_ : Z)
  (niqe_val : option Float.pyfloat) : pyval :=
  VDict [("frames_dir", of_str pred_frames_dir);
         ("ok", VBool (ret_ =? 0));
         ("NIQE", of_float niqe_val)].

Definition fid_record (a : Args) (pred_frames_dir : option string)
  (gt_frames_dir : string) (fid_val : option Float.pyfloat) : pyval :=
  VDict [("backend", VStr (fid_backend_str (fid_backend a)));
         ("gen_frames", of_str pred_frames_dir);
         ("gt_frames", VStr gt_frames_dir);
         ("FID", of_float fid_val)].

Definition lse_record (a : Args) (lse_c lse_d : option Float.pyfloat)
  : pyval :=
  VDict [("preset", VStr (lse_preset_str (lse_preset a)));
         ("gen_videos_dir", of_str (gen_videos_dir a));
         ("syncnet_dir", VStr (syncnet_dir a));
         ("LSE-C", of_float lse_c);
         ("LSE-D", of_float lse_d)].

Definition frame_command (a : Args) : command :=
  let cmd :=
    [executable;
     Path.join3 _project_root "evaluation" "eval_frame_metrics.py";
     default EmptyString (pred_video a);
     default EmptyString (gt_video a)] in
  Argv (if lpips a
        then cmd ++ ["--lpips"; "--lpips-net"; lpips_backbone_str (lpips_net a)]
        else cmd).

(** 1) Frame metrics *)
Definition frame_step (a : Args) (run_frame : bool) (results : pydict)
  : M pydict :=
  if run_frame then
    if negb (truthy (pred_video a)) || negb (truthy (gt_video a)) then
      raise (SystemExit (Msg "--frame requires --pred-video and --gt-video"))
    else
      p <- _run_with_output (frame_command a) false ;;
      let out := snd p in
      vals <-
        (if nonempty out then
           psnr_val <- scan Re.psnr out None ;;
           ssim_val <- scan Re.ssim out None ;;
           lpips_val <-
             (if lpips a then scan Re.lpips out None else ret None) ;;
           ret (psnr_val, ssim_val, lpips_val)
         else ret (None, None, None)) ;;
      let '(psnr_val, ssim_val, lpips_val) := vals in
      ret (dict_set "frame" (frame_record a psnr_val ssim_val lpips_val)
             results)
  else ret results.

(** Frames of the predicted video, for NIQE and FID: the value of
    [pred_frames_dir]. *)
Definition pred_frames_step (a : Args) (run_niqe run_fid : bool)
  : M (option string) :=
  if run_niqe || run_fid then
    if negb (truthy (pred_video a)) then
      raise (SystemExit (Msg "--niqe/--fid require --pred-video"))
    else
      let pred_frames_dir := Path.join (work_dir a) "pred_frames" in
      fresh_frames a (default EmptyString (pred_video a)) pred_frames_dir ;;
      ret (Some pred_frames_dir)
  else ret None.

(** An optional string inside an f-string. *)
Definition fmt (o : option string) : string := default "None" o.

Definition niqe_command (pred_frames_dir : option string) : command :=
  let niqe_script := Path.join3 _project_root "evaluation" "eval_niqe.py" in
  Shell ("conda run -n tg_niqe --no-capture-output python " ++ dq
           ++ niqe_script ++ dq ++ " " ++ dq ++ fmt pred_frames_dir ++ dq)%string.

(** 2) NIQE *)
Definition niqe_step (a : Args) (run_niqe : bool)
  (pred_frames_dir : option string) (results : pydict) : M pydict :=
  if run_niqe then
    p <- _run_with_output (niqe_command pred_frames_dir) true ;;
    let '(ret_, out) := p in
    niqe_val <- metric_of Re.niqe out ;;
    ret (dict_set "niqe" (niqe_record pred_frames_dir ret_ niqe_val) results)
  else ret results.

Definition fid_command (a : Args) (pred_frames_dir : option string)
  (gt_frames_dir : string) : command :=
  let fid_script := Path.join3 _project_root "evaluation" "eval_fid.py" in
  Shell ("conda run -n tg_eval --no-capture-output python "
           ++ dq ++ fid_script ++ dq ++ " " ++ dq ++ fmt pred_frames_dir ++ dq
           ++ " " ++ dq ++ gt_frames_dir ++ dq ++ " "
           ++ "--backend " ++ fid_backend_str (fid_backend a))%string.

(** 3) FID *)
Definition fid_step (a : Args) (run_fid : bool)
  (pred_frames_dir : option string) (results : pydict) : M pydict :=
  if run_fid then
    if negb (truthy (gt_video a)) then
      raise (SystemExit (Msg "--fid requires --gt-video"))
    else
      let gt_frames_dir := Path.join (work_dir a) "gt_frames" in
      fresh_frames a (default EmptyString (gt_video a)) gt_frames_dir ;;
      p <- _run_with_output (fid_command a pred_frames_dir gt_frames_dir) false ;;
      let out := snd p in
      fid_val <- metric_of Re.fid out ;;
      ret (dict_set "fid"
             (fid_record a pred_frames_dir gt_frames_dir fid_val) results)
  else ret results.

Definition lse_command (a : Args) : command :=
  Argv [executable;
        Path.join3 _project_root "evaluation" "eval_lse.py";
        default EmptyString (gen_videos_dir a);
        "--preset"; lse_preset_str (lse_preset a);
        "--syncnet-dir"; syncnet_dir a;
        "--tmp-dir"; tmp_dir a].

(** Lines 267 and 268: the optional setup. *)
Definition lse_setup (a : Args) : M unit :=
  if setup_lse a then
    _run (Argv ["bash"; Path.join3 _project_root "evaluation" "setup_lse.sh"])
      (Some _project_root) false ;;
    ret tt
  else ret tt.

(** Lines 270 to 315: the LSE script, its output, the file of scores. *)
Definition lse_scores (a : Args) (results : pydict) : M pydict :=
  p <- _run_with_output (lse_command a) true ;;
  let out := snd p in
  from_out <-
    (if nonempty out then
       c <- scan Re.lse_c out None ;;
       d <- scan Re.lse_d out None ;;
       ret (c, d)
     else ret (None, None)) ;;
  let '(lse_c, lse_d) := from_out in
  let scores_path := Path.join (syncnet_dir a) "all_scores.txt" in
  e <- (if is_none lse_c || is_none lse_d then exists_ scores_path
        else ret false) ;;
  vals <-
    (if e then
       txt <- os (read_text scores_path) ;;
       c <- (if is_none lse_c then scan Re.lse_c txt lse_c else ret lse_c) ;;
       d <- (if is_none lse_d then scan Re.lse_d txt lse_d else ret lse_d) ;;
       ret (c, d)
     else ret (lse_c, lse_d)) ;;
  let '(lse_c, lse_d) := vals in
  ret (dict_set "lse" (lse_record a lse_c lse_d) results).

(** 4) LSE *)
Definition lse_step (a : Args) (run_lse : bool) (results : pydict)
  : M pydict :=
  if run_lse then
    if negb (truthy (gen_videos_dir a)) then
      raise (SystemExit (Msg "--lse requires --gen-videos-dir"))
    else
      lse_setup a ;;
      lse_scores a results
  else ret results.

(** [os.path.dirname(os.path.abspath(path)) or "."] *)
Definition json_parent (path : string) : string :=
  let parent := Path.dirname (abspath path) in
  if Path.is_empty parent then "." else parent.

(** Lines 317 to 321 *)
Definition json_step (a : Args) (results : pydict) : M unit :=
  if truthy (json_out a) then
    let path := default EmptyString (json_out a) in
    _ensure_dir (json_parent path) ;;
    os (write_json path (VDict results))
  else ret tt.

(** [main()], after [parse_args]; the value is [results] at the end. *)
Definition main (a : Args) : M pydict :=
  let '(run_frame, run_niqe, run_fid, run_lse) := resolve a in
  let results := [] in
  _ensure_dir (work_dir a) ;;
  results <- frame_step a run_frame results ;;
  pred_frames_dir <- pred_frames_step a run_niqe run_fid ;;
  results <- niqe_step a run_niqe pred_frames_dir results ;;
  results <- fid_step a run_fid pred_frames_dir results ;;
  results <- lse_step a run_lse results ;;
  json_step a results ;;
  ret results.

(** Whatever [c] raises ends the process with a status other than 0. *)
Definition loud {A} (c : M A) : Prop :=
  forall s e s', c s = (Raise e, s') -> exit_status e <> 0.

(** A run from a world in which no subprocess was started yet. *)
Definition start (w : W) : state := {| world := w; trace := [] |}.

(** The state after a subprocess that was started in [s] and left the
    world [w']. *)
Definition after (s : state) (cmd : command) (cwd : option string) (w' : W)
  : state :=
  {| world := w'; trace := trace s ++ [(cmd, cwd)] |}.

End Orchestrator.

Arguments M W A : clear implicits.
Arguments state W : clear implicits.
Arguments loud W {A} c.

(** ** A small world, to run the script in

    Files are kept by the exact string of their place. The script runs in
    [/home/user]; a relative path leads from there, and from the working
    directory of a subprocess for the files the subprocess leaves. A
    subprocess does what the next scripted reply says: its return code, its
    output, the files it leaves. *)

Module Sim.

Inductive node : Type :=
| Dir
| JsonFile (v : pyval)
| TextFile (t : text)
| Image.

Record reply : Type := {
  rc : Z;
  out : text;
  creates : list (string * node);
}.

Record sim : Type := {
  files : gmap string node;
  replies : list reply;
}.

(** [p] is the directory [d] or lies below it. *)
Definition under (d p : string) : bool :=
  String.eqb p d || String.prefix (Path.join d EmptyString) p.

(** The working directory of the script. *)
Definition home : string := "/home/user".

(** What the script finds at the path [p]; the empty path names nothing. *)
Definition at_path (p : string) (w : sim) : option node :=
  if Path.is_empty p then None else files w !! resolved home p.

Definition sim_entry (q : string) (w : sim) : bool :=
  match files w !! q with Some _ => true | None => false end.

Definition sim_exists (p : string) (w : sim) : bool :=
  match at_path p w with Some _ => true | None => false end.

Definition sim_is_dir (p : string) (w : sim) : bool :=
  match at_path p w with Some Dir => true | _ => false end.

Definition sim_json_at (p : string) (w : sim) : option pyval :=
  match at_path p w with Some (JsonFile v) => Some v | _ => None end.

Definition sim_rmtree (d : string) (w : sim) : os_res unit * sim :=
  match at_path d w with
  | Some Dir =>
      (Done tt,
       {| files := filter (fun kv => under (resolved home d) kv.1 = false)
                     (files w);
          replies := replies w |})
  | Some _ => (Failed "NotADirectoryError", w)
  | None => (Failed "FileNotFoundError", w)
  end.

Definition sim_makedirs (d : string) (w : sim) : os_res unit * sim :=
  match at_path d w with
  | Some Dir => (Done tt, w)
  | Some _ => (Failed "FileExistsError", w)
  | None =>
      if Path.is_empty d then (Failed "FileNotFoundError", w)
      else (Done tt, {| files := <[resolved home d := Dir]> (files w);
                        replies := replies w |})
  end.

Definition sim_read_text (p : string) (w : sim) : os_res text * sim :=
  match at_path p w with
  | Some (TextFile t) => (Done t, w)
  | Some (JsonFile _) | Some Image => (Failed "UnicodeDecodeError", w)
  | Some Dir => (Failed "IsADirectoryError", w)
  | None => (Failed "FileNotFoundError", w)
  end.

Definition sim_write_json (p : string) (v : pyval) (w : sim)
  : os_res unit * sim :=
  match at_path p w with
  | Some Dir => (Failed "IsADirectoryError", w)
  | _ =>
      if Path.is_empty p then (Failed "FileNotFoundError", w)
      else (Done tt, {| files := <[resolved home p := JsonFile v]> (files w);
                        replies := replies w |})
  end.

(** The working directory of a subprocess started with [cwd]. *)
Definition child_cwd (cwd : option string) : string :=
  match cwd with
  | Some d => resolved home d
  | None => home
  end.

Definition sim_spawn (c : command) (cwd : option string) (w : sim)
  : os_res (Z * text) * sim :=
  match replies w with
  | r :: rs =>
      if (-256 <? rc r) && (rc r <? 256) then
        (Done (rc r, out r),
         {| files := foldr (fun kn m =>
                              <[resolved (child_cwd cwd) kn.1 := kn.2]> m)
                       (files w) (creates r);
            replies := rs |})
      else (Failed "OSError", {| files := files w; replies := rs |})
  | [] => (Failed "FileNotFoundError", w)
  end.

#[global] Instance sim_world : World sim := {|
  executable := "/usr/bin/python3";
  _project_root := "/repo/TalkingGaussian";
  str_float := Float.repr;
  abspath := fun p => Path.join "/home/user" p;
  path_exists := sim_exists;
  is_dir := sim_is_dir;
  json_at := sim_json_at;
  rmtree := sim_rmtree;
  makedirs := sim_makedirs;
  read_text := sim_read_text;
  write_json := sim_write_json;
  spawn := sim_spawn;
|}.

#[global] Instance sim_places : Places sim := {|
  getcwd := home;
  entry := sim_entry;
|}.

(** A subprocess that succeeds, printing [s]. *)
Definition prints (s : text) : reply := {| rc := 0; out := s; creates := [] |}.

(** A subprocess that ends with return code [n], printing [s]. *)
Definition ends (n : Z) (s : text) : reply :=
  {| rc := n; out := s; creates := [] |}.

(** A frame extraction that leaves the given files. *)
Definition extracts (fs : list (string * node)) : reply :=
  {| rc := 0; out := []; creates := fs |}.

Definition empty_world (rs : list reply) : sim :=
  {| files := ∅; replies := rs |}.

End Sim.

(** Command lines to try the script with. *)
Definition no_args : Args := {|
  pred_video := None;
  gt_video := None;
  gen_videos_dir := None;
  frame := false;
  niqe := false;
  fid := false;
  lse := false;
  all := false;
  lpips := false;
  lpips_net := Alex;
  fps := None;
  fid_backend := CleanFid;
  lse_preset := Wav2lipReal;
  syncnet_dir := "/repo/TalkingGaussian/third_party/syncnet_python";
  tmp_dir := "tmp_dir/";
  setup_lse := false;
  work_dir := "/repo/TalkingGaussian/evaluation/_work";
  json_out := None;
|}.

Definition with_videos (pred gt : option string) (a : Args) : Args := {|
  pred_video := pred;
  gt_video := gt;
  gen_videos_dir := gen_videos_dir a;
  frame := frame a;
  niqe := niqe a;
  fid := fid a;
  lse := lse a;
  all := all a;
  lpips := lpips a;
  lpips_net := lpips_net a;
  fps := fps a;
  fid_backend := fid_backend a;
  lse_preset := lse_preset a;
  syncnet_dir := syncnet_dir a;
  tmp_dir := tmp_dir a;
  setup_lse := setup_lse a;
  work_dir := work_dir a;
  json_out := json_out a;
|}.

Definition with_flags (frame_ niqe_ fid_ lse_ all_ : bool) (a : Args) : Args := {|
  pred_video := pred_video a;
  gt_video := gt_video a;
  gen_videos_dir := gen_videos_dir a;
  frame := frame_;
  niqe := niqe_;
  fid := fid_;
  lse := lse_;
  all := all_;
  lpips := lpips a;
  lpips_net := lpips_net a;
  fps := fps a;
  fid_backend := fid_backend a;
  lse_preset := lse_preset a;
  syncnet_dir := syncnet_dir a;
  tmp_dir := tmp_dir a;
  setup_lse := setup_lse a;
  work_dir := work_dir a;
  json_out := json_out a;
|}.

Definition with_json_out (p : option string) (a : Args) : Args := {|
  pred_video := pred_video a;
  gt_video := gt_video a;
  gen_videos_dir := gen_videos_dir a;
  frame := frame a;
  niqe := niqe a;
  fid := fid a;
  lse := lse a;
  all := all a;
  lpips := lpips a;
  lpips_net := lpips_net a;
  fps := fps a;
  fid_backend := fid_backend a;
  lse_preset := lse_preset a;
  syncnet_dir := syncnet_dir a;
  tmp_dir := tmp_dir a;
  setup_lse := setup_lse a;
  work_dir := work_dir a;
  json_out := p;
|}.

Definition with_gen_videos_dir (d : option string) (a : Args) : Args := {|
  pred_video := pred_video a;
  gt_video := gt_video a;
  gen_videos_dir := d;
  frame := frame a;
  niqe := niqe a;
  fid := fid a;
  lse := lse a;
  all := all a;
  lpips := lpips a;
  lpips_net := lpips_net a;
  fps := fps a;
  fid_backend := fid_backend a;
  lse_preset := lse_preset a;
  syncnet_dir := syncnet_dir a;
  tmp_dir := tmp_dir a;
  setup_lse := setup_lse a;
  work_dir := work_dir a;
  json_out := json_out a;
|}.

Definition with_work_dir (d : string) (a : Args) : Args := {|
  pred_video := pred_video a;
  gt_video := gt_video a;
  gen_videos_dir := gen_videos_dir a;
  frame := frame a;
  niqe := niqe a;
  fid := fid a;
  lse := lse a;
  all := all a;
  lpips := lpips a;
  lpips_net := lpips_net a;
  fps := fps a;
  fid_backend := fid_backend a;
  lse_preset := lse_preset a;
  syncnet_dir := syncnet_dir a;
  tmp_dir := tmp_dir a;
  setup_lse := setup_lse a;
  work_dir := d;
  json_out := json_out a;
|}.

(** ** The LLM service ([backend/llm_service.py]) *)

Module Llm.

Record config : Type := {
  api_key : string;
  base_url : string;
  model : string;
}.

(** One message of a chat. *)
Record message : Type := { role : string; content : string }.

(** What [client.chat.completions.create] is called with. *)
Record request : Type := {
  req_model : string;
  messages : list message;
  temperature : option Float.pyfloat;
  max_tokens : Z;
}.

(** What the OpenAI SDK does with a request: a response, as the
    [message.content] of each of its [choices] ([None] when a choice has no
    text), or an exception. The SDK raises subclasses of [Exception]. *)
Inductive sdk_result : Type :=
| Response (choices : list (option string))
| SdkRaises (what : string).

Inductive py_exception : Type :=
| KeyError (key : string)
| IndexError
| SdkError (what : string).

Inductive outcome (A : Type) : Type :=
| Returns (a : A)
| Raises (e : py_exception).
Arguments Returns {A} a.
Arguments Raises {A} e.

Section Service.

(** [os.getenv(name, default)] at import time. The defaults written in
    the source are credentials and are left as parameters. *)
Variable getenv : string -> option string.
Variables default_openai_key default_zhipu_key default_deepseek_key : string.

(** [OpenAI(api_key, base_url).chat.completions.create(...)] *)
Variable create : string -> string -> request -> sdk_result.

Definition zhipu : config :=
  {| api_key := default default_zhipu_key (getenv "ZHIPU_API_KEY");
     base_url := "https://open.bigmodel.cn/api/paas/v4/";
     model := "glm-4" |}.

Definition API_CONFIG : gmap string config :=
  <["OpenAI API" :=
      {| api_key := default default_openai_key (getenv "OPENAI_API_KEY");
         base_url := "https://api.openai.com/v1";
         model := "gpt-3.5-turbo" |}]>
  (<["Zhipu AI" := zhipu]>
  (<["DeepSeek" :=
      {| api_key := default default_deepseek_key (getenv "DEEPSEEK_API_KEY");
         base_url := "https://api.deepseek.com";
         model := "deepseek-chat" |}]> ∅)).

Definition system_prompt : string :=
  "你是一个数字人助手，请用简短、口语化的中文回答用户，字数控制在50字以内。".

Definition fallback_reply : string :=
  "抱歉，我现在连接大脑有点问题，请稍后再试。".

(** [API_CONFIG.get(api_choice)], and [API_CONFIG["Zhipu AI"]] when that
    is [None]. *)
Definition select (api_choice : string) : outcome config :=
  match API_CONFIG !! api_choice with
  | Some c => Returns c
  | None =>
      match API_CONFIG !! "Zhipu AI" with
      | Some c => Returns c
      | None => Raises (KeyError "Zhipu AI")
      end
  end.

(** The arguments of [create]. *)
Definition request_of (c : config) (text : string) : request :=
  {| req_model := model c;
     messages := [ {| role := "system"; content := system_prompt |};
                   {| role := "user"; content := text |} ];
     temperature := Float.py_float (T "0.7");
     max_tokens := 150 |}.

(** The body of the [try]: the request, then
    [response.choices[0].message.content]. *)
Definition ask (c : config) (text : string) : outcome (option string) :=
  match create (api_key c) (base_url c) (request_of c text) with
  | SdkRaises what => Raises (SdkError what)
  | Response [] => Raises IndexError
  | Response (reply :: _) => Returns reply
  end.

(** [query_llm(text, api_choice)]; [except Exception] catches whatever
    the body raises. *)
Definition query_llm (text api_choice : string) : outcome (option string) :=
  match select api_choice with
  | Raises e => Raises e
  | Returns c =>
      match ask c text with
      | Returns reply => Returns reply
      | Raises _ => Returns (Some fallback_reply)
      end
  end.

End Service.

End Llm.

(** ** The plan of a run *)

Section Plan.

Context {W : Type} {HW : World W}.

(** The command of line 268. *)
Definition setup_command : command :=
  Argv ["bash"; Path.join3 _project_root "evaluation" "setup_lse.sh"].

(** The two directories of frames, lines 207 and 236. *)
Definition pred_frames (a : Args) : string :=
  Path.join (work_dir a) "pred_frames".

Definition gt_frames (a : Args) : string :=
  Path.join (work_dir a) "gt_frames".

(** The subprocesses of a run in which nothing fails, in the order of the
    script, each with its working directory. *)
Definition planned (a : Args) : list (command * option string) :=
  let '(run_frame, run_niqe, run_fid, run_lse) := resolve a in
  (if run_frame then [(frame_command a, None)] else [])
    ++ (if run_niqe || run_fid
        then [(extract_command executable
                 (default EmptyString (pred_video a)) (pred_frames a) (fps a),
               Some _project_root)]
        else [])
    ++ (if run_niqe then [(niqe_command (Some (pred_frames a)), None)] else [])
    ++ (if run_fid
        then [(extract_command executable
                 (default EmptyString (gt_video a)) (gt_frames a) (fps a),
               Some _project_root);
              (fid_command a (Some (pred_frames a)) (gt_frames a), None)]
        else [])
    ++ (if run_lse
        then (if setup_lse a then [(setup_command, Some _project_root)] else [])
               ++ [(lse_command a, None)]
        else []).

(** [c] starts the subprocesses [cmds], in this order, and its value
    satisfies [Q]; when it raises it has started some of the first of
    them. *)
Definition emits {A} (cmds : list (command * option string))
  (Q : A -> Prop) (c : M W A) : Prop :=
  forall s r s',
    c s = (r, s') ->
    exists l,
      trace s' = trace s ++ l
      /\ match r with
         | Ret v => l = cmds /\ Q v
         | Raise _ => l `prefix_of` cmds
         end.

(** When [c] raises [SystemExit] with a code, the code is not 0 and is the
    return code of the subprocess started last, which left the world as it
    is. *)
Definition coded {A} (c : M W A) : Prop :=
  forall s n s',
    c s = (Raise (SystemExit (Code n)), s') ->
    n <> 0
    /\ exists cmd cwd w0 out,
         spawn cmd cwd w0 = (Done (n, out), world s')
         /\ last (trace s') = Some (cmd, cwd).

(** [c] raises no [SystemExit]. *)
Definition stays {A} (c : M W A) : Prop :=
  forall s a s', c s <> (Raise (SystemExit a), s').

(** [c] raises no [SystemExit] with a message. *)
Definition mute {A} (c : M W A) : Prop :=
  forall s m s', c s <> (Raise (SystemExit (Msg m)), s').

(** The file of scores of SyncNet, line 296. *)
Definition scores_path (a : Args) : string :=
  Path.join (syncnet_dir a) "all_scores.txt".

(** The file of scores has no score to give: it does not exist, or it is
    read and neither pattern matches its text. *)
Definition no_score_in_file (a : Args) (w : W) : Prop :=
  path_exists (scores_path a) w = false
  \/ exists txt w',
       read_text (scores_path a) w = (Done txt, w')
       /\ Re.search Re.lse_c txt = None /\ Re.search Re.lse_d txt = None.

End Plan.

(** A selected family lacks an input it needs: the tests of lines 167, 205,
    234 and 265, on the families of lines 147 to 157. *)
Definition lacks_input (a : Args) : bool :=
  let '(run_frame, run_niqe, run_fid, run_lse) := resolve a in
  (run_frame && negb (truthy (pred_video a) && truthy (gt_video a)))
  || ((run_niqe || run_fid) && negb (truthy (pred_video a)))
  || (run_fid && negb (truthy (gt_video a)))
  || (run_lse && negb (truthy (gen_videos_dir a))).

(** What a scan that returns has found in the text [t]: no match and
    [None], or a match and its float. *)
Definition found (p : Re.pattern) (t : text) (v : option Float.pyfloat)
  : Prop :=
  (Re.search p t = None /\ v = None)
  \/ exists g x,
       Re.search p t = Some g /\ Float.py_float g = Some x /\ v = Some x.

(** ** The web application ([app.py])

    Strings are byte strings in UTF-8, in which the point, the slash and the
    backslash are the bytes of their ASCII codes. Paths are those of
    [posixpath]. *)

Module App.

Definition dot : ascii := ascii_of_nat 46.
Definition backslash : ascii := ascii_of_nat 92.

Fixpoint span_ascii (f : ascii -> bool) (s : list ascii)
  : list ascii * list ascii :=
  match s with
  | c :: s' =>
      if f c then let '(a, b) := span_ascii f s' in (c :: a, b) else ([], s)
  | [] => ([], [])
  end.

Definition is_dot (c : ascii) : bool := Ascii.eqb c dot.
Definition is_sep (c : ascii) : bool := Ascii.eqb c Path.sep.

(** [os.path.splitext(p)[1]]: from the last point of the last component
    of the path, unless only points come before it in that component.
    Works on the reversed path. *)
Definition splitext_ext (p : string) : string :=
  let r := rev (list_ascii_of_string p) in
  let '(tail, rest) := span_ascii (fun c => negb (is_dot c || is_sep c)) r in
  match rest with
  | c :: before =>
      if is_dot c then
        let '(stem, _) := span_ascii (fun c => negb (is_sep c)) before in
        if forallb is_dot stem then EmptyString
        else string_of_list_ascii (rev (tail ++ [c]))
      else EmptyString
  | [] => EmptyString
  end.

(** [s.replace("\\", "/")] *)
Fixpoint slashes (s : string) : string :=
  match s with
  | EmptyString => EmptyString
  | String c s' =>
      String (if Ascii.eqb c backslash then Path.sep else c) (slashes s')
  end.

(** [s.endswith(suffix)] *)
Definition endswith (s suffix : string) : bool :=
  String.prefix (string_of_list_ascii (rev (list_ascii_of_string suffix)))
    (string_of_list_ascii (rev (list_ascii_of_string s))).

(** [str(n)] of an integer *)
Definition str_int (n : Z) : string :=
  DecimalString.NilZero.string_of_int (Z.to_int n).

(** An uploaded file: [werkzeug]'s [FileStorage]. *)
Record file_storage : Type := { filename : string; body : string }.

(** [flask.request], as far as the handlers read it. *)
Record request : Type := {
  method : string;
  form : gmap string string;
  files : gmap string file_storage;
}.

(** The dictionary passed to a function of the back end: the fields of the
    form, [None] for one that is missing. *)
Definition form_data : Type := list (string * option string).

Inductive response : Type :=
| Template (name : string)              (* [render_template(name)] *)
| Json (fields : list (string * string)). (* [jsonify({...})] *)

(** What a handler or one of its calls gives: a value, or an exception,
    which Flask answers with status 500. *)
Inductive handled (A : Type) : Type :=
| Sent (a : A)
| Failed500 (what : string).
Arguments Sent {A} a.
Arguments Failed500 {A} what.

(** What the handlers use and the source does not hold: the back end, the
    file system, the clock, and [str.lower]. *)
Class Site (W : Type) : Type := {
  generate_video : form_data -> W -> handled string * W;
  train_model : form_data -> W -> handled string * W;
  chat_response : form_data -> W -> handled string * W;
  (** [os.makedirs(path, exist_ok=True)] *)
  site_makedirs : string -> W -> handled unit * W;
  (** [audio_file.save(path)] *)
  save : file_storage -> string -> W -> handled unit * W;
  (** [int(time.time())] *)
  clock : W -> Z;
  (** [s.lower()] *)
  lower : string -> string;
}.

Section Handlers.

Context {W : Type} {HS : Site W}.

Definition Handler (A : Type) : Type := W -> handled A * W.

Definition send {A} (a : A) : Handler A := fun w => (Sent a, w).

Definition and_then {A B} (c : Handler A) (k : A -> Handler B) : Handler B :=
  fun w =>
    match c w with
    | (Sent a, w') => k a w'
    | (Failed500 what, w') => (Failed500 what, w')
    end.

(** [request.form.get(key)] for each of the keys. *)
Definition fields_of (req : request) (ks : list string) : form_data :=
  List.map (fun k => (k, form req !! k)) ks.

Definition is_post (req : request) : bool := String.eqb (method req) "POST".

(** ["/" + video_path.replace("\\", "/")] *)
Definition as_url (video_path : string) : string :=
  String Path.sep (slashes video_path).

Definition success (video_path : string) : response :=
  Json [("status", "success"); ("video_path", video_path)].

Definition video_generation (req : request) : Handler response :=
  if is_post req then
    let data := fields_of req ["model_name"; "model_param"; "ref_audio";
                               "gpu_choice"; "target_text"] in
    and_then (generate_video data)
      (fun video_path => send (success video_path))
  else send (Template "video_generation.html").

Definition model_training (req : request) : Handler response :=
  if is_post req then
    let data := fields_of req ["model_choice"; "ref_video"; "gpu_choice";
                               "epoch"; "custom_params"] in
    and_then (train_model data)
      (fun video_path => send (success (as_url video_path)))
  else send (Template "model_training.html").

Definition chat_system (req : request) : Handler response :=
  if is_post req then
    let data := fields_of req ["model_name"; "model_param";
                               "voice_clone_type"; "preset_voice_name";
                               "custom_voice_file"; "voice_clone";
                               "api_choice"] in
    and_then (chat_response data)
      (fun video_path => send (success (as_url video_path)))
  else send (Template "chat_system.html").

Definition error (message : string) : response :=
  Json [("status", "error"); ("message", message)].

Definition no_audio : string := "没有音频文件".
Definition no_file_chosen : string := "没有选择文件".
Definition bad_format : string :=
  "不支持的音频格式，请上传 .wav, .mp3, .m4a 或 .flac 文件".

Definition save_audio (req : request) : Handler response :=
  match files req !! "audio" with
  | None => send (error no_audio)
  | Some audio_file =>
      if Path.is_empty (filename audio_file) then send (error no_file_chosen)
      else
        and_then (site_makedirs "./static/audios")
          (fun _ =>
             and_then (save audio_file "./static/audios/input.wav")
               (fun _ =>
                  send (Json [("status", "success");
                              ("message", "音频保存成功")])))
  end.

Definition audio_suffixes : list string := [".wav"; ".mp3"; ".m4a"; ".flac"].

Definition custom_voice_dir : string := "./static/audios/custom_voice".

(** [f"custom_voice_{timestamp}{file_ext}"] *)
Definition custom_voice_name (timestamp : Z) (name : string) : string :=
  ("custom_voice_" ++ str_int timestamp ++ splitext_ext name)%string.

Definition upload_voice_clone (req : request) : Handler response :=
  match files req !! "audio" with
  | None => send (error no_audio)
  | Some audio_file =>
      if Path.is_empty (filename audio_file) then send (error no_file_chosen)
      else if negb (existsb (endswith (lower (filename audio_file)))
                      audio_suffixes)
      then send (error bad_format)
      else
        and_then (site_makedirs custom_voice_dir)
          (fun _ w =>
             let timestamp := clock w in
             let filename_ :=
               custom_voice_name timestamp (filename audio_file) in
             let filepath := Path.join custom_voice_dir filename_ in
             and_then (save audio_file filepath)
               (fun _ =>
                  send (Json [("status", "success");
                              ("message", "音频上传成功");
                              ("filename", filename_);
                              ("filepath", slashes filepath)]))
               w)
  end.

End Handlers.

End App.

(** A site to run the handlers on: a clock, the directories made and the
    files saved so far, and a back end that answers with one path. *)
Module AppSim.

Record site : Type := {
  now : Z;
  made : list string;
  saved : list (string * string);
  video : string;
}.

(** [str.lower] on ASCII letters. *)
Definition ascii_lower (c : ascii) : ascii :=
  let n := nat_of_ascii c in
  if (65 <=? n)%nat && (n <=? 90)%nat then ascii_of_nat (n + 32) else c.

Fixpoint lower_ascii (s : string) : string :=
  match s with
  | EmptyString => EmptyString
  | String c s' => String (ascii_lower c) (lower_ascii s')
  end.

Definition answer (w : site) : App.handled string * site :=
  (App.Sent (video w), w).

#[global] Instance sim_site : App.Site site := {
  App.generate_video := fun _ => answer;
  App.train_model := fun _ => answer;
  App.chat_response := fun _ => answer;
  App.site_makedirs := fun path w =>
    (App.Sent tt,
     {| now := now w; made := made w ++ [path]; saved := saved w;
        video := video w |});
  App.save := fun f path w =>
    (App.Sent tt,
     {| now := now w; made := made w;
        saved := saved w ++ [(path, App.body f)]; video := video w |});
  App.clock := now;
  App.lower := lower_ascii;
}.

Definition day_one : site :=
  {| now := 1700000000; made := []; saved := [];
     video := "static\videos\out.mp4" |}.

Definition post : App.request :=
  {| App.method := "POST"; App.form := ∅; App.files := ∅ |}.

Definition post_audio (name : string) : App.request :=
  {| App.method := "POST"; App.form := ∅;
     App.files := {[ "audio" := {| App.filename := name;
                                   App.body := "RIFF" |} ]} |}.

End AppSim.

(** * Properties *)

(** ** The matcher *)

Module ReFacts.
Import Re.

Lemma suffix_of_refl s : suffix_of s s.
Proof. by exists []. Qed.

Lemma suffix_of_cons c s1 s : suffix_of s1 s -> suffix_of s1 (c :: s).
Proof. intros [pre ->]. by exists (c :: pre). Qed.

Lemma suffix_of_trans s1 s2 s3 :
  suffix_of s1 s2 -> suffix_of s2 s3 -> suffix_of s1 s3.
Proof. intros [p ->] [q ->]. exists (q ++ p). by rewrite app_assoc. Qed.

(** A successful repetition hands some suffix to its continuation. *)
Lemma greedy_inv {A} cs (k : text -> option A) s r :
  greedy cs k s = Some r -> exists s1, suffix_of s1 s /\ k s1 = Some r.
Proof.
  induction s as [|c s IH]; simpl; intros Hg.
  - exists []. split; [apply suffix_of_refl | done].
  - destruct (cs c).
    + destruct (greedy cs k s) as [r'|] eqn:E.
      * injection Hg as ->. destruct (IH eq_refl) as (s1 & Hs & Hk).
        exists s1. split; [by apply suffix_of_cons | done].
      * exists (c :: s). split; [apply suffix_of_refl | done].
    + exists (c :: s). split; [apply suffix_of_refl | done].
Qed.

Lemma lazy_inv {A} cs (k : text -> option A) s r :
  lazy cs k s = Some r -> exists s1, suffix_of s1 s /\ k s1 = Some r.
Proof.
  induction s as [|c s IH]; simpl; intros Hl.
  - destruct (k []) eqn:E; [|done]. injection Hl as ->.
    exists []. split; [apply suffix_of_refl | done].
  - destruct (k (c :: s)) eqn:E.
    + injection Hl as ->. exists (c :: s). split; [apply suffix_of_refl | done].
    + destruct (cs c); [|done]. destruct (IH Hl) as (s1 & Hs & Hk).
      exists s1. split; [by apply suffix_of_cons | done].
Qed.

(** When the continuation cannot fail, a greedy repetition takes every
    character it can. *)
Lemma greedy_all {A} cs (f : text -> A) s :
  greedy cs (fun t => Some (f t)) s = Some (f (skip cs s)).
Proof.
  induction s as [|c s IH]; simpl; [done|].
  destruct (cs c); [by rewrite IH | done].
Qed.

Lemma skip_spec cs s :
  exists g, s = g ++ skip cs s /\ forallb cs g = true /\ stops cs (skip cs s).
Proof.
  induction s as [|c s (g & Hs & Hg & Hstop)]; simpl.
  - by exists [].
  - destruct (cs c) eqn:E.
    + exists (c :: g). simpl. rewrite E, Hg. split; [by f_equal | done].
    + exists []. simpl. by rewrite E.
Qed.

Lemma skip_app cs g post :
  forallb cs g = true -> stops cs post -> skip cs (g ++ post) = post.
Proof.
  induction g as [|c g IH]; simpl; intros Hg Hp.
  - destruct post as [|d post]; simpl in *; [done | by rewrite Hp].
  - apply andb_true_iff in Hg as [-> Hg]. by apply IH.
Qed.

Lemma take_app_length_diff (g post : text) :
  take (length (g ++ post) - length post) (g ++ post) = g.
Proof.
  rewrite length_app.
  replace (length g + length post - length post)%nat with (length g) by lia.
  by rewrite take_app_length.
Qed.

(** The group [([0-9.+-eE]+)]: a non-empty longest run of the set. *)
Lemma run_number m s m' :
  run number m s = Some m' ->
  exists g post,
    s = g ++ post /\ g <> [] /\ forallb numclass g = true
    /\ stops numclass post /\ group1 m' = Some g.
Proof.
  unfold number. simpl. destruct s as [|d s]; [done|].
  destruct (numclass d) eqn:Ed; [|done].
  rewrite (greedy_all numclass
             (fun t => {| at_open := Some (d :: s); at_close := Some t |})).
  intros [= <-]. destruct (skip_spec numclass s) as (g & Hs & Hg & Hstop).
  exists (d :: g), (skip numclass s). repeat split; try done.
  - simpl. by f_equal.
  - simpl. by rewrite Ed, Hg.
  - unfold group1. simpl at_open. simpl at_close. f_equal.
    rewrite Hs at 1 3. change (d :: g ++ skip numclass s) with ((d :: g) ++ skip numclass s).
    apply take_app_length_diff.
Qed.

Lemma run_number_app m g post :
  g <> [] -> forallb numclass g = true -> stops numclass post ->
  exists m', run number m (g ++ post) = Some m' /\ group1 m' = Some g.
Proof.
  intros Hne Hg Hstop. destruct g as [|d g]; [done|].
  simpl in Hg. apply andb_true_iff in Hg as [Hd Hg].
  unfold number. simpl. rewrite Hd.
  rewrite (greedy_all numclass
             (fun t => {| at_open := Some (d :: g ++ post); at_close := Some t |})).
  eexists. split; [done|]. unfold group1. simpl at_open. simpl at_close.
  rewrite skip_app by done. f_equal.
  change (d :: g ++ post) with ((d :: g) ++ post).
  apply take_app_length_diff.
Qed.

(** Before the group the marks do not change, and the group is matched on
    a suffix of the text. *)
Lemma run_prefix q p m s m' :
  forallb unmarked q = true ->
  run (q ++ p) m s = Some m' ->
  exists s1, suffix_of s1 s /\ run p m s1 = Some m'.
Proof.
  revert s. induction q as [|i q IH]; intros s Hq Hr.
  - exists s. split; [apply suffix_of_refl | done].
  - simpl in Hq. apply andb_true_iff in Hq as [Hi Hq].
    destruct i; try done; simpl in Hr.
    + destruct s as [|d s]; [done|]. destruct (c =? d)%N; [|done].
      destruct (IH _ Hq Hr) as (s1 & Hs & H1).
      exists s1. split; [by apply suffix_of_cons | done].
    + apply greedy_inv in Hr as (s0 & Hs0 & Hr).
      destruct (IH _ Hq Hr) as (s1 & Hs & H1).
      exists s1. split; [by eapply suffix_of_trans | done].
    + destruct s as [|d s]; [done|]. destruct (cs d); [|done].
      apply greedy_inv in Hr as (s0 & Hs0 & Hr).
      destruct (IH _ Hq Hr) as (s1 & Hs & H1).
      exists s1. split; [|done].
      apply suffix_of_cons. by eapply suffix_of_trans.
    + apply lazy_inv in Hr as (s0 & Hs0 & Hr).
      destruct (IH _ Hq Hr) as (s1 & Hs & H1).
      exists s1. split; [by eapply suffix_of_trans | done].
Qed.

(** A match begins with the literal the pattern begins with. *)
Lemma run_literal l p m s m' :
  run (List.map Chr l ++ p) m s = Some m' ->
  exists rest, s = l ++ rest /\ run p m rest = Some m'.
Proof.
  revert s. induction l as [|c l IH]; intros s Hr.
  - by exists s.
  - simpl in Hr. destruct s as [|d s]; [done|].
    destruct (N.eqb_spec c d) as [->|]; [|done].
    destruct (IH _ Hr) as (rest & -> & H1). by exists rest.
Qed.

Lemma search_inv p s g :
  search p s = Some g ->
  exists s0 m, suffix_of s0 s /\ run p no_marks s0 = Some m /\ group1 m = Some g.
Proof.
  induction s as [|c s IH]; simpl; intros Hs.
  - destruct (run p no_marks []) as [m|] eqn:E; [|done].
    exists [], m. split; [apply suffix_of_refl | done].
  - destruct (run p no_marks (c :: s)) as [m|] eqn:E.
    + exists (c :: s), m. split; [apply suffix_of_refl | done].
    + destruct (IH Hs) as (s0 & m & H0 & H1 & H2).
      exists s0, m. split; [by apply suffix_of_cons | done].
Qed.

(** The seven patterns are of that shape. *)
Lemma shaped_psnr : shaped (T "PSNR") psnr.
Proof. by exists [Star space; Chr (code "="); Star space]. Qed.
Lemma shaped_ssim : shaped (T "SSIM") ssim.
Proof. by exists [Star space; Chr (code "="); Star space]. Qed.
Lemma shaped_lpips : shaped (T "LPIPS") lpips.
Proof. by exists [Lazy dot; Chr (code "="); Star space]. Qed.
Lemma shaped_niqe : shaped (T "NIQE") niqe.
Proof.
  by exists ([Star space] ++ lit "(pyiqa)"
               ++ [Star space; Chr (code "="); Star space]).
Qed.
Lemma shaped_fid : shaped (T "FID") fid.
Proof. by exists [Lazy dot; Chr (code "="); Star space]. Qed.
Lemma shaped_lse_c : shaped (T "LSE-C") lse_c.
Proof. by exists [Lazy dot; Chr (code "="); Star space]. Qed.
Lemma shaped_lse_d : shaped (T "LSE-D") lse_d.
Proof. by exists [Lazy dot; Chr (code "="); Star space]. Qed.

(** What [search] finds: the literal occurs in the text, and the group is
    a non-empty longest run of the set somewhere after it. *)
Lemma search_shaped l p s g :
  shaped l p -> search p s = Some g ->
  contains l s
  /\ exists pre post,
       s = pre ++ g ++ post /\ g <> [] /\ forallb numclass g = true
       /\ stops numclass post.
Proof.
  intros (q & Hq & ->) Hs.
  apply search_inv in Hs as (s0 & m & [pre0 ->] & Hr & Hg).
  apply run_literal in Hr as (rest & -> & Hr).
  split; [by exists pre0, rest|].
  apply run_prefix in Hr as (s1 & [pre1 ->] & Hr); [|done].
  apply run_number in Hr as (g' & post & -> & Hne & Hcls & Hstop & Hg').
  rewrite Hg in Hg'. injection Hg' as <-.
  exists (pre0 ++ l ++ pre1), post. repeat split; try done.
  by rewrite <- !app_assoc.
Qed.

Lemma search_none l p s : shaped l p -> ~ contains l s -> search p s = None.
Proof.
  intros Hp Hn. destruct (search p s) as [g|] eqn:E; [|done].
  destruct (search_shaped _ _ _ _ Hp E) as [Hc _]. by destruct Hn.
Qed.

End ReFacts.

Module FidFacts.
Import Re ReFacts.

(** The line the FID script prints, up to the number. *)
Lemma fid_line rest m' :
  run number no_marks (49%N :: rest) = Some m' ->
  run fid no_marks (T "FID (clean-fid) = " ++ 49%N :: rest) = Some m'.
Proof.
  intros Hn. unfold fid, lit, number in *. cbn in *. by rewrite Hn.
Qed.

Lemma search_cons p c s :
  search p (c :: s)
  = match run p no_marks (c :: s) with
    | Some m => group1 m
    | None => search p s
    end.
Proof. done. Qed.

Lemma search_here p s m :
  run p no_marks s = Some m -> search p s = group1 m.
Proof. intros Hr. destruct s; simpl; by rewrite Hr. Qed.

Lemma fid_here post :
  stops numclass post ->
  search fid (T "FID (clean-fid) = 12.345" ++ post) = Some (T "12.345").
Proof.
  intros Hstop.
  destruct (run_number_app no_marks (T "12.345") post) as (m' & Hr & Hg);
    [done | done | done |].
  etrans; [|exact Hg]. apply search_here. exact (fid_line _ _ Hr).
Qed.

(** No match begins inside a text without [FID] that is followed by the
    line. *)
Lemma fid_not_before pre rest :
  ~ contains (T "FID") pre ->
  search fid (pre ++ T "FID" ++ 32%N :: rest) = search fid (T "FID" ++ 32%N :: rest).
Proof.
  induction pre as [|c pre IH]; intros Hn; [done|].
  assert (Hn' : ~ contains (T "FID") pre).
  { intros (a & b & ->). apply Hn. by exists (c :: a), b. }
  change ((c :: pre) ++ T "FID" ++ 32%N :: rest)
    with (c :: (pre ++ T "FID" ++ 32%N :: rest)).
  rewrite search_cons.
  destruct (run fid no_marks (c :: pre ++ T "FID" ++ 32%N :: rest)) as [m|] eqn:E;
    [|by apply IH].
  exfalso. apply (run_literal (T "FID")) in E as (r & Hr & _).
  destruct pre as [|c2 [|c3 pre]]; try done.
  apply Hn. injection Hr as -> -> ->. by exists [], pre.
Qed.

Lemma fid_found pre post :
  ~ contains (T "FID") pre -> stops numclass post ->
  search fid (pre ++ T "FID (clean-fid) = 12.345" ++ post) = Some (T "12.345").
Proof.
  intros Hn Hstop. rewrite <- (fid_here post Hstop).
  change (T "FID (clean-fid) = 12.345" ++ post)
    with (T "FID" ++ 32%N :: (T "(clean-fid) = 12.345" ++ post)).
  by apply fid_not_before.
Qed.

End FidFacts.

(** ** Running the script *)

Section RunFacts.

Context {W : Type} {HW : World W}.

Lemma bind_inv {A B} (c : M W A) (k : A -> M W B) s r s' :
  bind c k s = (r, s') ->
  (exists a s1, c s = (Ret a, s1) /\ k a s1 = (r, s'))
  \/ (exists e, c s = (Raise e, s') /\ r = Raise e).
Proof.
  unfold bind. destruct (c s) as [[a|e] s1]; intros Hb.
  - left. by exists a, s1.
  - right. injection Hb as <- <-. by exists e.
Qed.

Lemma bind_ret_inv {A B} (c : M W A) (k : A -> M W B) s b s' :
  bind c k s = (Ret b, s') ->
  exists a s1, c s = (Ret a, s1) /\ k a s1 = (Ret b, s').
Proof.
  intros Hb. apply bind_inv in Hb as [Hb | (e & _ & He)]; [done | discriminate].
Qed.

Lemma bind_ret {A B} (c : M W A) (k : A -> M W B) s a s1 :
  c s = (Ret a, s1) -> bind c k s = k a s1.
Proof. unfold bind. by intros ->. Qed.

Lemma bind_raise {A B} (c : M W A) (k : A -> M W B) s e s1 :
  c s = (Raise e, s1) -> bind c k s = (Raise e, s1).
Proof. unfold bind. by intros ->. Qed.

Lemma loud_ret {A} (a : A) : loud W (ret a).
Proof. intros s e s'. unfold ret. discriminate. Qed.

Lemma loud_raise {A} e : exit_status e <> 0 -> loud W (@raise W A e).
Proof. intros He s e' s'. unfold raise. by intros [= <- _]. Qed.

Lemma loud_bind {A B} (c : M W A) (k : A -> M W B) :
  loud W c -> (forall a, loud W (k a)) -> loud W (bind c k).
Proof.
  intros Hc Hk s e s' Hb.
  apply bind_inv in Hb as [(a & s1 & _ & Hb) | (e' & Hb & [= <-])].
  - by eapply Hk.
  - by eapply Hc.
Qed.

Lemma raised_status {A} (r : os_res A) e :
  raised r = Raise e -> exit_status e = 1.
Proof. destruct r; simpl; [discriminate | by intros [= <-]]. Qed.

Lemma loud_os {A} (f : W -> os_res A * W) : loud W (os f).
Proof.
  intros s e s'. unfold os. destruct (f (world s)) as [r w].
  intros [= Hr _]. by rewrite (raised_status _ _ Hr).
Qed.

Lemma loud_exists p : loud W (exists_ p).
Proof. intros s e s'. unfold exists_. discriminate. Qed.

Lemma loud_subprocess cmd cwd : loud W (subprocess cmd cwd).
Proof.
  intros s e s'. unfold subprocess. destruct (spawn cmd cwd (world s)) as [r w].
  intros [= Hr _]. by rewrite (raised_status _ _ Hr).
Qed.

Lemma loud_scan p s old : loud W (scan p s old).
Proof.
  unfold scan. destruct (Re.search p s); [|apply loud_ret].
  destruct (Float.py_float _); [apply loud_ret | by apply loud_raise].
Qed.

Lemma loud_metric_of p out : loud W (metric_of p out).
Proof.
  unfold metric_of. destruct (nonempty out); [apply loud_scan | apply loud_ret].
Qed.

Lemma mod_256_nonzero rc : -256 < rc < 256 -> rc <> 0 -> rc mod 256 <> 0.
Proof.
  intros Hr Hn. destruct (Z_lt_le_dec rc 0).
  - rewrite <- (Z.mod_add rc 1 256), Z.mod_small by lia. lia.
  - rewrite Z.mod_small by lia. lia.
Qed.

Section Laws.

Context {HL : WorldLaws W}.

Lemma subprocess_code cmd cwd s rc out s' :
  subprocess cmd cwd s = (Ret (rc, out), s') -> -256 < rc < 256.
Proof.
  unfold subprocess. destruct (spawn cmd cwd (world s)) as [[[rc' out']|] w] eqn:E;
    simpl; [|discriminate].
  intros [= -> _ _]. eapply spawn_code, E.
Qed.

Lemma loud__run cmd cwd allow_fail : loud W (_run cmd cwd allow_fail).
Proof.
  intros s e s' Hr. unfold _run in Hr.
  apply bind_inv in Hr as [([rc out] & s1 & Hs & Hr) | (e' & Hs & [= <-])].
  - simpl in Hr. destruct (rc =? 0) eqn:E0; simpl in Hr; [discriminate|].
    destruct allow_fail; simpl in Hr; [discriminate|].
    unfold raise in Hr. injection Hr as <- _. simpl.
    apply mod_256_nonzero; [by eapply subprocess_code | by apply Z.eqb_neq].
  - by eapply loud_subprocess.
Qed.

Lemma loud__run_with_output cmd allow_fail :
  loud W (_run_with_output cmd allow_fail).
Proof.
  intros s e s' Hr. unfold _run_with_output in Hr.
  apply bind_inv in Hr as [([rc out] & s1 & Hs & Hr) | (e' & Hs & [= <-])].
  - destruct (rc =? 0) eqn:E0; simpl in Hr; [discriminate|].
    destruct allow_fail; simpl in Hr; [discriminate|].
    unfold raise in Hr. injection Hr as <- _. simpl.
    apply mod_256_nonzero; [by eapply subprocess_code | by apply Z.eqb_neq].
  - by eapply loud_subprocess.
Qed.

Ltac loud_step :=
  first
    [ apply loud_ret
    | apply loud_os
    | apply loud_exists
    | apply loud_scan
    | apply loud_metric_of
    | apply loud__run
    | apply loud__run_with_output
    | by apply loud_raise
    | apply loud_bind; [|intros ?]
    | match goal with
      | |- loud _ (if ?b then _ else _) => destruct b
      | |- loud _ (match ?p with (_, _) => _ end) => destruct p
      end ].

Lemma loud_fresh_frames a video dir : loud W (fresh_frames a video dir).
Proof. unfold fresh_frames, _extract_frames. repeat loud_step. Qed.

Lemma loud_frame_step a b r : loud W (frame_step a b r).
Proof. unfold frame_step. repeat loud_step. Qed.

Lemma loud_pred_frames_step a b1 b2 : loud W (pred_frames_step a b1 b2).
Proof. unfold pred_frames_step. repeat loud_step. Qed.

Lemma loud_niqe_step a b d r : loud W (niqe_step a b d r).
Proof. unfold niqe_step. repeat loud_step. Qed.

Lemma loud_fid_step a b d r : loud W (fid_step a b d r).
Proof. unfold fid_step. repeat loud_step. Qed.

Lemma loud_lse_step a b r : loud W (lse_step a b r).
Proof. unfold lse_step, lse_setup, lse_scores. repeat loud_step. Qed.

Lemma loud_json_step a r : loud W (json_step a r).
Proof. unfold json_step, _ensure_dir. repeat loud_step. Qed.

(** Every way in which a run ends early gives a status other than 0. *)
Lemma loud_main a : loud W (main a).
Proof.
  unfold main. destruct (resolve a) as [[[f n] d] l]. unfold _ensure_dir.
  repeat first
    [ apply loud_frame_step | apply loud_pred_frames_step
    | apply loud_niqe_step | apply loud_fid_step | apply loud_lse_step
    | apply loud_json_step | loud_step ].
Qed.

End Laws.

End RunFacts.

(** ** The small world obeys the laws *)

Module SimFacts.
Import Sim.

Lemma append_cons x (a b : string) :
  (String x a ++ b)%string = String x (a ++ b)%string.
Proof. done. Qed.

Lemma prefix_app (a b : string) : String.prefix a (a ++ b)%string = true.
Proof.
  induction a as [|c a IH]; [by destruct b|].
  rewrite append_cons. simpl. destruct (ascii_dec c c); [done | congruence].
Qed.

Lemma append_assoc (a b c : string) :
  ((a ++ b) ++ c)%string = (a ++ (b ++ c))%string.
Proof.
  induction a as [|x a IH]; [done|]. rewrite !append_cons. by f_equal.
Qed.

Lemma append_empty (a : string) : (a ++ EmptyString)%string = a.
Proof.
  induction a as [|x a IH]; [done|]. rewrite append_cons. by f_equal.
Qed.

Lemma under_self d : under d d = true.
Proof. unfold under. by rewrite String.eqb_refl. Qed.

Lemma under_inside d p : inside d p -> under d p = true.
Proof.
  intros (rel & Hne & Hsep & ->). unfold under, Path.join. rewrite Hsep.
  simpl Path.starts_with_sep. cbv iota.
  destruct (Path.is_empty d || Path.ends_with_sep d).
  - rewrite append_empty, prefix_app. apply orb_true_r.
  - change (String Path.sep rel) with (String Path.sep EmptyString ++ rel)%string.
    rewrite <- append_assoc, prefix_app. apply orb_true_r.
Qed.

Lemma at_path_nonempty p w n : at_path p w = Some n -> p <> EmptyString.
Proof. by destruct p. Qed.

Lemma at_path_resolved p w :
  p <> EmptyString -> at_path p w = files w !! resolved home p.
Proof. by destruct p. Qed.

Lemma ends_with_sep_app (a b : string) :
  b <> EmptyString ->
  Path.ends_with_sep (a ++ b) = Path.ends_with_sep b.
Proof.
  intros Hb. induction a as [|x a IH]; [done|]. rewrite append_cons.
  simpl. rewrite IH. destruct (a ++ b)%string eqn:E; [|done].
  by destruct a, b.
Qed.

(** A relative path leads from the working directory of the script. *)
Lemma resolved_relative p :
  Path.starts_with_sep p = false ->
  resolved home p = (home ++ String Path.sep p)%string.
Proof. unfold resolved, Path.join. by intros ->. Qed.

Lemma resolved_absolute p :
  Path.starts_with_sep p = true -> resolved home p = p.
Proof. unfold resolved, Path.join. by intros ->. Qed.

(** What lies below a path lies below the place the path leads to. *)
Lemma resolved_join d rel :
  d <> EmptyString -> Path.starts_with_sep rel = false ->
  resolved home (Path.join d rel) = Path.join (resolved home d) rel.
Proof.
  intros Hd Hrel. destruct d as [|x d]; [done|].
  destruct (Path.starts_with_sep (String x d)) eqn:Es.
  - rewrite (resolved_absolute (String x d)) by done.
    apply resolved_absolute. unfold Path.join. rewrite Hrel.
    by destruct (_ || _).
  - rewrite (resolved_relative (String x d)) by done.
    rewrite resolved_relative.
    + unfold Path.join. rewrite Hrel.
      change (String Path.sep (String x d))
        with (String Path.sep EmptyString ++ String x d)%string.
      rewrite <- (append_assoc home).
      rewrite (ends_with_sep_app _ (String x d)) by done.
      change (Path.is_empty (String x d)) with false.
      assert (Path.is_empty
                ((home ++ String Path.sep EmptyString) ++ String x d)
              = false) as -> by done.
      destruct (Path.ends_with_sep (String x d)); cbn [orb].
      * by rewrite !append_assoc.
      * by rewrite !append_assoc.
    + unfold Path.join. rewrite Hrel. by destruct (_ || _).
Qed.

Lemma inside_resolved d p :
  d <> EmptyString -> inside d p -> inside (resolved home d) (resolved home p).
Proof.
  intros Hd (rel & Hne & Hsep & ->). exists rel.
  split; [done|]. split; [done|]. by apply resolved_join.
Qed.

Lemma rmtree_lookup d w w' q :
  sim_rmtree d w = (Done tt, w') ->
  under (resolved home d) q = true -> files w' !! q = None.
Proof.
  unfold sim_rmtree. destruct (at_path d w) as [[| | |]|]; try discriminate.
  intros [= <-] Hu. simpl. apply map_lookup_filter_None. right.
  intros x _. simpl. by rewrite Hu.
Qed.

Lemma rmtree_nonempty d w w' :
  sim_rmtree d w = (Done tt, w') -> d <> EmptyString.
Proof.
  unfold sim_rmtree. destruct (at_path d w) as [n|] eqn:E; [|discriminate].
  intros _. by eapply at_path_nonempty.
Qed.

#[global] Instance sim_laws : WorldLaws sim.
Proof.
  split.
  - intros c d w rc out w'. simpl. unfold sim_spawn.
    destruct (replies w) as [|r rs]; [discriminate|].
    destruct ((-256 <? Sim.rc r) && (Sim.rc r <? 256)) eqn:E; [|discriminate].
    intros [= <- _ _]. apply andb_true_iff in E as [E1 E2]. lia.
  - intros d w w' Hrm. simpl. unfold sim_exists.
    pose proof (rmtree_nonempty d w w' Hrm) as Hd. split.
    + rewrite at_path_resolved by done.
      by rewrite (rmtree_lookup d w w' _ Hrm (under_self _)).
    + intros p Hin. destruct (at_path p w') as [n|] eqn:E; [|done].
      rewrite at_path_resolved in E by by eapply at_path_nonempty.
      rewrite (rmtree_lookup d w w' _ Hrm) in E; [done|].
      by apply under_inside, inside_resolved.
  - intros d w w'. simpl. unfold sim_makedirs, sim_is_dir.
    destruct (at_path d w) as [[| | |]|] eqn:E; try discriminate.
    + intros [= <-]. by rewrite E.
    + destruct d as [|x d]; [discriminate|]. intros [= <-].
      unfold at_path. simpl files. by rewrite lookup_insert_eq.
  - intros p v w w'. simpl. unfold sim_write_json, sim_json_at, sim_is_dir.
    intros Hw.
    assert (Hp : p <> EmptyString
                 /\ files w !! resolved home p <> Some Dir
                 /\ files w' = <[resolved home p := JsonFile v]> (files w)).
    { destruct p as [|x p]; [by destruct (at_path _ w) as [[| | |]|]|].
      unfold at_path in Hw. simpl Path.is_empty in Hw. cbv iota in Hw.
      destruct (files w !! resolved home (String x p)) as [[| | |]|];
        try discriminate; injection Hw as <-; simpl;
        split; try done; split; congruence. }
    destruct Hp as (Hne & Hnd & Hf). rewrite !at_path_resolved by done.
    rewrite Hf. split; [by rewrite lookup_insert_eq|].
    intros d Hd. destruct (at_path d w) as [[| | |]|] eqn:E; try done.
    pose proof (at_path_nonempty _ _ _ E) as Hdne.
    rewrite at_path_resolved in E |- * by done.
    destruct (decide (resolved home p = resolved home d)) as [Heq|Hneq].
    + rewrite Heq in Hnd. by rewrite E in Hnd.
    + rewrite Hf, lookup_insert_ne by done. by rewrite E.
Qed.

#[global] Instance sim_places_laws : PlacesLaws sim.
Proof.
  split.
  - intros p w Hp. simpl. unfold sim_exists, sim_entry.
    by rewrite at_path_resolved.
  - intros d w w' Hrm. simpl. unfold sim_entry. split.
    + by rewrite (rmtree_lookup d w w' _ Hrm (under_self _)).
    + intros q Hin. by rewrite (rmtree_lookup d w w' _ Hrm (under_inside _ _ Hin)).
Qed.

End SimFacts.

(** ** The steps of a run that completes *)

Section StepFacts.

Context {W : Type} {HW : World W}.

Lemma ret_inv {A} (a b : A) (s s' : state W) :
  ret a s = (Ret b, s') -> b = a /\ s' = s.
Proof. unfold ret. by intros [= -> ->]. Qed.

Lemma scan_state p t old (s : state W) r s' :
  scan p t old s = (r, s') -> s' = s.
Proof.
  unfold scan, ret, raise.
  destruct (Re.search p t); [destruct (Float.py_float _)|]; by intros [= _ <-].
Qed.

Lemma metric_of_state p t (s : state W) r s' :
  metric_of p t s = (r, s') -> s' = s.
Proof.
  unfold metric_of. destruct (nonempty t); [apply scan_state|].
  unfold ret. by intros [= _ <-].
Qed.

Lemma frame_step_ret a b r s r' s' :
  frame_step a b r s = (Ret r', s') ->
  exists p q l,
    r' = upd b "frame" (frame_record a p q l) r
    /\ (lpips a = false -> l = None).
Proof.
  unfold frame_step. destruct b; simpl.
  2: { intros [-> _]%ret_inv. by exists None, None, None. }
  destruct (negb (truthy (pred_video a)) || negb (truthy (gt_video a)));
    [discriminate|].
  intros ([rc out] & s1 & _ & Hk)%bind_ret_inv.
  apply bind_ret_inv in Hk as ([[p q] l] & s2 & Hv & [-> _]%ret_inv).
  exists p, q, l. split; [done|]. intros Hl. simpl in Hv.
  destruct (nonempty out).
  - apply bind_ret_inv in Hv as (p' & s3 & _ & Hv).
    apply bind_ret_inv in Hv as (q' & s4 & _ & Hv).
    apply bind_ret_inv in Hv as (l' & s5 & Hlp & [[= _ _ ->] _]%ret_inv).
    rewrite Hl in Hlp. by apply ret_inv in Hlp as [-> _].
  - by apply ret_inv in Hv as [[= _ _ ->] _].
Qed.

Lemma niqe_step_ret a b d r s r' s' :
  niqe_step a b d r s = (Ret r', s') ->
  exists rc v, r' = upd b "niqe" (niqe_record d rc v) r.
Proof.
  unfold niqe_step. destruct b; simpl.
  2: { intros [-> _]%ret_inv. by exists 0, None. }
  intros ([rc out] & s1 & _ & Hk)%bind_ret_inv.
  apply bind_ret_inv in Hk as (v & s2 & _ & [-> _]%ret_inv).
  by exists rc, v.
Qed.

Lemma fid_step_ret a b d r s r' s' :
  fid_step a b d r s = (Ret r', s') ->
  exists g v, r' = upd b "fid" (fid_record a d g v) r.
Proof.
  unfold fid_step. destruct b; simpl.
  2: { intros [-> _]%ret_inv. by exists EmptyString, None. }
  destruct (negb (truthy (gt_video a))); [discriminate|].
  intros (? & s1 & _ & Hk)%bind_ret_inv.
  apply bind_ret_inv in Hk as (? & s2 & _ & Hk).
  apply bind_ret_inv in Hk as (v & s3 & _ & [-> _]%ret_inv).
  by eexists _, v.
Qed.

Lemma lse_step_ret a b r s r' s' :
  lse_step a b r s = (Ret r', s') ->
  exists c d, r' = upd b "lse" (lse_record a c d) r.
Proof.
  unfold lse_step. destruct b; simpl.
  2: { intros [-> _]%ret_inv. by exists None, None. }
  destruct (negb (truthy (gen_videos_dir a))); [discriminate|].
  intros (? & s1 & _ & Hk)%bind_ret_inv. unfold lse_scores in Hk.
  apply bind_ret_inv in Hk as (? & s2 & _ & Hk).
  apply bind_ret_inv in Hk as ([c0 d0] & s3 & _ & Hk).
  apply bind_ret_inv in Hk as (e & s4 & _ & Hk).
  apply bind_ret_inv in Hk as ([c d] & s5 & _ & [-> _]%ret_inv).
  by exists c, d.
Qed.

(** The summary of a run that completes, and the state in which the JSON
    step ran. *)
Lemma main_ret a s r s' :
  main a s = (Ret r, s') ->
  exists v1 v2 v3 v4 s4,
    let '(run_frame, run_niqe, run_fid, run_lse) := resolve a in
    r = upd run_lse "lse" v4
          (upd run_fid "fid" v3
             (upd run_niqe "niqe" v2 (upd run_frame "frame" v1 [])))
    /\ flat v1 = true /\ flat v2 = true /\ flat v3 = true /\ flat v4 = true
    /\ (lpips a = false ->
        exists d, v1 = VDict d /\ dict_get "LPIPS" d = Some VNone)
    /\ json_step a r s4 = (Ret tt, s').
Proof.
  unfold main. destruct (resolve a) as [[[rf rn] rd] rl].
  intros (u & s0 & _ & Hk)%bind_ret_inv.
  apply bind_ret_inv in Hk as (r1 & s1 & H1 & Hk).
  apply bind_ret_inv in Hk as (pfd & s2 & _ & Hk).
  apply bind_ret_inv in Hk as (r2 & s2' & H2 & Hk).
  apply bind_ret_inv in Hk as (r3 & s3 & H3 & Hk).
  apply bind_ret_inv in Hk as (r4 & s4 & H4 & Hk).
  apply bind_ret_inv in Hk as ([] & s5 & H5 & [-> ->]%ret_inv).
  apply frame_step_ret in H1 as (p & q & l & -> & Hl).
  apply niqe_step_ret in H2 as (rc & v & ->).
  apply fid_step_ret in H3 as (g & fv & ->).
  apply lse_step_ret in H4 as (c & d & ->).
  eexists _, _, _, _, s4. split; [done|].
  repeat split; try done.
  - unfold frame_record. by destruct (lpips a), p, q, l.
  - unfold niqe_record. by destruct pfd, v.
  - unfold fid_record. by destruct pfd, fv.
  - unfold lse_record. by destruct (gen_videos_dir a), c, d.
  - intros Hlp. eexists. split; [done|]. by rewrite (Hl Hlp).
Qed.

Lemma keys_upd4 b1 b2 b3 b4 v1 v2 v3 v4 :
  keys (upd b4 "lse" v4
          (upd b3 "fid" v3 (upd b2 "niqe" v2 (upd b1 "frame" v1 []))))
  = families (b1, b2, b3, b4).
Proof. by destruct b1, b2, b3, b4. Qed.

(** The keys of the summary of a completed run are the selected
    families. *)
Lemma main_keys a s r s' :
  main a s = (Ret r, s') -> keys r = families (resolve a).
Proof.
  intros (v1 & v2 & v3 & v4 & s4 & Hm)%main_ret.
  destruct (resolve a) as [[[rf rn] rd] rl]. destruct Hm as (-> & _).
  apply keys_upd4.
Qed.

End StepFacts.

(** ** The selection of families, and the summary *)

Section SummaryFacts.

Context {W : Type} {HW : World W}.

Lemma os_ret_inv {A} (f : W -> os_res A * W) s a s' :
  os f s = (Ret a, s') ->
  exists w', f (world s) = (Done a, w')
             /\ s' = {| world := w'; trace := trace s |}.
Proof.
  unfold os. destruct (f (world s)) as [[a'|what] w'] eqn:E; simpl;
    [|discriminate].
  intros [= -> <-]. by exists w'.
Qed.

Lemma resolve_inferred a :
  all a = true \/ frame a || niqe a || fid a || lse a = false ->
  resolve a
  = (given (pred_video a) && given (gt_video a), given (pred_video a),
     given (pred_video a) && given (gt_video a), given (gen_videos_dir a)).
Proof.
  unfold resolve. intros [-> | ->]; [done | by rewrite orb_true_r].
Qed.

Lemma resolve_explicit a :
  all a = false -> frame a || niqe a || fid a || lse a = true ->
  resolve a = (frame a, niqe a, fid a, lse a).
Proof. unfold resolve. by intros -> ->. Qed.

Lemma dict_get_set k v d : dict_get k (dict_set k v d) = Some v.
Proof.
  induction d as [|[k' v'] d IH]; simpl; [by rewrite String.eqb_refl|].
  destruct (String.eqb k k') eqn:E; simpl; [by rewrite String.eqb_refl|].
  by rewrite E.
Qed.

Lemma dict_get_frame b1 b2 b3 b4 v1 v2 v3 v4 :
  dict_get "frame"
    (upd b4 "lse" v4
       (upd b3 "fid" v3 (upd b2 "niqe" v2 (upd b1 "frame" v1 []))))
  = if b1 then Some v1 else None.
Proof. by destruct b1, b2, b3, b4. Qed.

(** JSON is written for a dictionary of flat dictionaries exactly when
    every float in it is finite. *)
Lemma json_valid_floats (r : pydict) :
  json_valid (VDict r) = true ->
  forall fam d k x,
    In (fam, VDict d) r -> In (k, VFloat x) d -> Float.is_finite x = true.
Proof.
  simpl. intros Hr fam d k x Hfam Hk.
  rewrite forallb_forall in Hr. specialize (Hr _ Hfam). simpl in Hr.
  rewrite forallb_forall in Hr. exact (Hr _ Hk).
Qed.

Lemma flat_json_valid v :
  flat v = true ->
  (forall d k x, v = VDict d -> In (k, VFloat x) d -> Float.is_finite x = true) ->
  json_valid v = true.
Proof.
  destruct v as [| | | |d]; try done. simpl. intros Hflat Hfin.
  apply forallb_forall. intros [k v] Hin.
  rewrite forallb_forall in Hflat. specialize (Hflat _ Hin).
  destruct v; try done. simpl. by eapply Hfin.
Qed.

Lemma floats_json_valid b1 b2 b3 b4 v1 v2 v3 v4 :
  flat v1 = true -> flat v2 = true -> flat v3 = true -> flat v4 = true ->
  let r := upd b4 "lse" v4
             (upd b3 "fid" v3 (upd b2 "niqe" v2 (upd b1 "frame" v1 []))) in
  (forall fam d k x,
      In (fam, VDict d) r -> In (k, VFloat x) d -> Float.is_finite x = true) ->
  json_valid (VDict r) = true.
Proof.
  intros F1 F2 F3 F4 r Hfin. simpl. apply forallb_forall. intros [fam v] Hin.
  simpl. assert (Hflat : flat v = true).
  { subst r. destruct b1, b2, b3, b4; simpl in Hin;
      repeat (destruct Hin as [[= <- <-] | Hin]; [done|]); done. }
  apply flat_json_valid; [done|]. intros d k x -> Hk. by eapply Hfin.
Qed.

Section Laws.

Context {HL : WorldLaws W}.

(** After the JSON step the file holds the summary, and its directory
    exists. *)
Lemma json_step_written a r s s' p :
  json_step a r s = (Ret tt, s') ->
  json_out a = Some p -> p <> EmptyString ->
  json_at p (world s') = Some (VDict r)
  /\ is_dir (json_parent p) (world s') = true.
Proof.
  unfold json_step. intros Hj Ho Hp. rewrite Ho in Hj.
  assert (Ht : truthy (Some p) = true) by by destruct p.
  rewrite Ht in Hj. simpl in Hj.
  apply bind_ret_inv in Hj as ([] & s1 & Hd & Hw).
  apply os_ret_inv in Hd as (w1 & Hd & ->).
  apply os_ret_inv in Hw as (w2 & Hw & ->). simpl in *.
  apply makedirs_dir in Hd. apply write_json_at in Hw as [Hat Hkeep].
  split; [done | by apply Hkeep].
Qed.

End Laws.

End SummaryFacts.

(** ** The claims about the selection and the summary *)

(** C9. Without [--lpips], the frame entry of the summary has the key
    [LPIPS] with the value [None], whatever the frame-metrics script
    printed: right after the frame step, and at the end of a run that
    completes. *)
Theorem frame_lpips_is_none {W : Type} {HW : World W} (a : Args) :
  lpips a = false ->
  (forall r0 (s : state W) r s',
      frame_step a true r0 s = (Ret r, s') ->
      exists d, dict_get "frame" r = Some (VDict d)
                /\ dict_get "LPIPS" d = Some VNone)
  /\ (forall (w : W) r s',
         main a (start w) = (Ret r, s') ->
         forall v, dict_get "frame" r = Some v ->
                   exists d, v = VDict d /\ dict_get "LPIPS" d = Some VNone).
Proof.
  intros Hl. split.
  - intros r0 s r s' (p & q & l & -> & Hn)%frame_step_ret.
    rewrite (Hn Hl). unfold upd, frame_record. rewrite dict_get_set.
    eexists. split; reflexivity.
  - intros w r s' (v1 & v2 & v3 & v4 & s4 & Hm)%main_ret v.
    destruct (resolve a) as [[[rf rn] rd] rl].
    destruct Hm as (-> & _ & _ & _ & _ & Hlp & _).
    rewrite dict_get_frame. destruct rf; [|discriminate].
    intros [= <-]. by apply Hlp.
Qed.

(** A frame-metrics script that prints an LPIPS value nobody asked for. *)
Lemma frame_lpips_is_none_witness :
  let a := with_flags true false false false false
             (with_videos (Some "pred.mp4") (Some "gt.mp4") no_args) in
  let w := Sim.empty_world
             [Sim.prints (T "PSNR = 31.2 SSIM = 0.91 LPIPS (alex) = 0.05")] in
  (exists r s', main a (start w) = (Ret r, s')
                /\ dict_get "frame" r
                   = Some (VDict [("lpips", VBool false);
                                  ("lpips_net", VStr "alex");
                                  ("PSNR", of_float (Float.py_float (T "31.2")));
                                  ("SSIM", of_float (Float.py_float (T "0.91")));
                                  ("LPIPS", VNone)]))
  /\ forall r s',
       main a (start w) = (Ret r, s') ->
       forall v, dict_get "frame" r = Some v ->
                 exists d, v = VDict d /\ dict_get "LPIPS" d = Some VNone.
Proof.
  split.
  - vm_compute. eexists _, _. split; reflexivity.
  - intros r s'.
    exact (proj2 (@frame_lpips_is_none Sim.sim Sim.sim_world
                    (with_flags true false false false false
                       (with_videos (Some "pred.mp4") (Some "gt.mp4") no_args))
                    eq_refl) _ r s').
Defined.

(** C6, as the spec states it, fails: a run completes with [--json-out], and
    the file written is not JSON. The frame-metrics script prints a number
    too large for a float; [float] gives infinity, which [json.dump] writes
    as [Infinity]. *)
Lemma json_out_counterexample :
  let a := with_json_out (Some "out/summary.json")
             (with_flags true false false false false
                (with_videos (Some "pred.mp4") (Some "gt.mp4") no_args)) in
  let w := Sim.empty_world [Sim.prints (T "PSNR = 1e999 SSIM = 0.91")] in
  exists r s' v,
    main a (start w) = (Ret r, s')
    /\ json_at "out/summary.json" (world s') = Some v
    /\ json_valid v = false.
Proof. vm_compute. eexists _, _, _. repeat split. Qed.

(** C6, amended. When a run completes and [--json-out] names a path that is
    not empty, the file at the path holds what [json.dump] writes for the
    summary; the keys of the summary are exactly the selected families, all
    of which the run attempted; the directory of the path exists; and the
    text written is JSON exactly when every metric value in the summary is
    finite. *)
Theorem json_out_holds_summary {W : Type} {HW : World W} {HL : WorldLaws W}
  (a : Args) (w : W) (r : pydict) (s' : state W) (p : string) :
  main a (start w) = (Ret r, s') ->
  json_out a = Some p -> p <> EmptyString ->
  json_at p (world s') = Some (VDict r)
  /\ keys r = families (resolve a)
  /\ is_dir (json_parent p) (world s') = true
  /\ (json_valid (VDict r) = true
      <-> forall fam d k x,
            In (fam, VDict d) r -> In (k, VFloat x) d ->
            Float.is_finite x = true).
Proof.
  intros Hm Ho Hp. pose proof (main_keys _ _ _ _ Hm) as Hk.
  apply main_ret in Hm as (v1 & v2 & v3 & v4 & s4 & Hm).
  destruct (resolve a) as [[[rf rn] rd] rl].
  destruct Hm as (-> & F1 & F2 & F3 & F4 & _ & Hj).
  destruct (json_step_written _ _ _ _ _ Hj Ho Hp) as [Hat Hdir].
  repeat split; try done.
  - apply json_valid_floats.
  - by apply floats_json_valid.
Qed.

(** A run of the frame metrics alone, with finite values. *)
Lemma json_out_holds_summary_witness :
  let a := with_json_out (Some "out/summary.json")
             (with_flags true false false false false
                (with_videos (Some "pred.mp4") (Some "gt.mp4") no_args)) in
  let w := Sim.empty_world [Sim.prints (T "PSNR = 31.2 SSIM = 0.91")] in
  let r := [("frame",
             VDict [("lpips", VBool false);
                    ("lpips_net", VStr "alex");
                    ("PSNR", of_float (Float.py_float (T "31.2")));
                    ("SSIM", of_float (Float.py_float (T "0.91")));
                    ("LPIPS", VNone)])] in
  let w' := snd (main a (start w)) in
  json_at "out/summary.json" (world w') = Some (VDict r)
  /\ keys r = families (resolve a)
  /\ is_dir (json_parent "out/summary.json") (world w') = true
  /\ (json_valid (VDict r) = true
      <-> forall fam d k x,
            In (fam, VDict d) r -> In (k, VFloat x) d ->
            Float.is_finite x = true).
Proof.
  intros a w r w'.
  refine (@json_out_holds_summary Sim.sim Sim.sim_world SimFacts.sim_laws
            a w r w' "out/summary.json" _ eq_refl _).
  - vm_compute. reflexivity.
  - discriminate.
Defined.

(** ** An explicit [--fid] without a ground-truth video *)

(** C1, as the spec states it, fails in two ways. With a predicted video the
    frames of that video are extracted by a subprocess before the script
    looks for the ground-truth video and exits. With [--all] the [--fid] flag
    is overridden by what the inputs allow, and the run completes. *)
Lemma fid_without_gt_counterexample :
  let a := with_flags false false true false false
             (with_videos (Some "pred.mp4") None no_args) in
  let w := Sim.empty_world [Sim.extracts []] in
  let b := with_flags false false true false true no_args in
  (fid a = true /\ gt_video a = None
   /\ exists s',
        main a (start w)
        = (Raise (SystemExit (Msg "--fid requires --gt-video")), s')
        /\ trace s'
           = [(Argv ["/usr/bin/python3"; "evaluation/extract_frames.py";
                     "pred.mp4";
                     "/repo/TalkingGaussian/evaluation/_work/pred_frames"],
               Some "/repo/TalkingGaussian")])
  /\ (fid b = true /\ gt_video b = None
      /\ exists s', main b (start (Sim.empty_world [])) = (Ret [], s')).
Proof. vm_compute. repeat split; eexists; repeat split. Qed.

(** C1, amended. When [--fid] is passed without [--all] and no ground-truth
    video is given, the process exits with a code other than 0; when
    moreover [--frame] is passed or no predicted video is given, no
    subprocess has been started before the exit. *)
Theorem fid_without_gt_exits {W : Type} {HW : World W} {HL : WorldLaws W}
  (a : Args) (w : W) :
  fid a = true -> all a = false -> gt_video a = None ->
  exists e s',
    main a (start w) = (Raise e, s')
    /\ exit_status e <> 0
    /\ (frame a = true \/ pred_video a = None -> trace s' = []).
Proof.
  intros Hfid Hall Hgt.
  assert (Hres : resolve a = (frame a, niqe a, true, lse a)).
  { rewrite resolve_explicit, Hfid; [done | done |].
    rewrite Hfid. by destruct (frame a), (niqe a). }
  destruct (main a (start w)) as [[r|e] s'] eqn:Hm.
  { exfalso. unfold main in Hm. rewrite Hres in Hm.
    apply bind_ret_inv in Hm as (u & s0 & _ & Hm).
    apply bind_ret_inv in Hm as (r1 & s1 & _ & Hm).
    apply bind_ret_inv in Hm as (pfd & s2 & _ & Hm).
    apply bind_ret_inv in Hm as (r2 & s3 & _ & Hm).
    apply bind_ret_inv in Hm as (r3 & s4 & H3 & _).
    unfold fid_step in H3. rewrite Hgt in H3. discriminate. }
  exists e, s'. split; [done|]. split; [by eapply loud_main|].
  intros Hquiet. unfold main in Hm. rewrite Hres in Hm.
  unfold bind at 1, _ensure_dir, os in Hm.
  destruct (makedirs (work_dir a) (world (start w))) as [[[]|what] w1];
    simpl in Hm; [|by injection Hm as _ <-].
  destruct Hquiet as [Hframe | Hpred].
  - rewrite Hframe in Hm. unfold bind at 1, frame_step in Hm.
    rewrite Hgt, orb_true_r in Hm. by injection Hm as _ <-.
  - unfold bind at 1, frame_step in Hm. rewrite Hpred in Hm.
    destruct (frame a); simpl in Hm; [by injection Hm as _ <-|].
    unfold bind at 1, pred_frames_step in Hm.
    rewrite Hpred, orb_true_r in Hm. by injection Hm as _ <-.
Qed.

(** [--fid] alone, with no video at all. *)
Lemma fid_without_gt_exits_witness :
  let a := with_flags false false true false false no_args in
  exists e s',
    main a (start (Sim.empty_world [])) = (Raise e, s')
    /\ exit_status e <> 0
    /\ (frame a = true \/ pred_video a = None -> trace s' = []).
Proof.
  exact (@fid_without_gt_exits Sim.sim Sim.sim_world SimFacts.sim_laws
           (with_flags false false true false false no_args)
           (Sim.empty_world []) eq_refl eq_refl eq_refl).
Defined.

(** ** The best-effort families *)

Section BestEffortFacts.

Context {W : Type} {HW : World W}.

Lemma run_with_output_allowed cmd (s : state W) rc out w' :
  spawn cmd None (world s) = (Done (rc, out), w') ->
  _run_with_output cmd true s = (Ret (rc, out), after s cmd None w').
Proof.
  intros Hs. unfold _run_with_output, bind, subprocess. rewrite Hs. simpl.
  by rewrite andb_false_r.
Qed.

Lemma scan_none p t old (s : state W) :
  Re.search p t = None -> scan p t old s = (Ret old, s).
Proof. unfold scan. by intros ->. Qed.

Lemma metric_of_none p t (s : state W) :
  Re.search p t = None -> metric_of p t s = (Ret None, s).
Proof.
  intros Hn. unfold metric_of. destruct (nonempty t); [by apply scan_none | done].
Qed.

(** The NIQE step after a subprocess whose output has no match. *)
Lemma niqe_step_no_match a d r (s : state W) rc out w' :
  spawn (niqe_command d) None (world s) = (Done (rc, out), w') ->
  Re.search Re.niqe out = None ->
  niqe_step a true d r s
  = (Ret (dict_set "niqe" (niqe_record d rc None) r),
     after s (niqe_command d) None w').
Proof.
  intros Hs Hn. unfold niqe_step.
  rewrite (bind_ret _ _ _ _ _ (run_with_output_allowed _ _ _ _ _ Hs)).
  by rewrite (bind_ret _ _ _ _ _ (metric_of_none _ _ _ Hn)).
Qed.

(** The LSE scores depend on the output of the script and on the world it
    leaves, not on its return code. *)
Lemma lse_scores_any_code a r (s1 s2 : state W) rc1 rc2 out w' :
  trace s1 = trace s2 ->
  spawn (lse_command a) None (world s1) = (Done (rc1, out), w') ->
  spawn (lse_command a) None (world s2) = (Done (rc2, out), w') ->
  lse_scores a r s1 = lse_scores a r s2.
Proof.
  intros Ht H1 H2. unfold lse_scores.
  rewrite (bind_ret _ _ _ _ _ (run_with_output_allowed _ _ _ _ _ H1)).
  rewrite (bind_ret _ _ _ _ _ (run_with_output_allowed _ _ _ _ _ H2)).
  unfold after. by rewrite Ht.
Qed.

(** The LSE scores when neither the output nor a file of scores has a
    value. *)
Lemma lse_scores_no_match a r (s : state W) rc out w' :
  spawn (lse_command a) None (world s) = (Done (rc, out), w') ->
  Re.search Re.lse_c out = None -> Re.search Re.lse_d out = None ->
  path_exists (Path.join (syncnet_dir a) "all_scores.txt") w' = false ->
  lse_scores a r s
  = (Ret (dict_set "lse" (lse_record a None None) r),
     after s (lse_command a) None w').
Proof.
  intros Hs Hc Hd He. unfold lse_scores.
  rewrite (bind_ret _ _ _ _ _ (run_with_output_allowed _ _ _ _ _ Hs)).
  simpl snd. unfold bind at 1.
  assert (Hout : (if nonempty out
                  then bind (scan Re.lse_c out None)
                         (fun c => bind (scan Re.lse_d out None)
                                     (fun d => ret (c, d)))
                  else ret (None, None)) (after s (lse_command a) None w')
                 = (Ret (None, None), after s (lse_command a) None w')).
  { destruct (nonempty out); [|done].
    rewrite (bind_ret _ _ _ _ _ (scan_none _ _ _ _ Hc)).
    by rewrite (bind_ret _ _ _ _ _ (scan_none _ _ _ _ Hd)). }
  rewrite Hout. simpl. unfold bind, exists_. simpl. by rewrite He.
Qed.

(** What the scans of the output give depends on the two searches
    alone. *)
Lemma scans_of_output (out1 out2 : text) (s : state W) :
  Re.search Re.lse_c out1 = Re.search Re.lse_c out2 ->
  Re.search Re.lse_d out1 = Re.search Re.lse_d out2 ->
  (if nonempty out1
   then bind (scan Re.lse_c out1 None)
          (fun c => bind (scan Re.lse_d out1 None) (fun d => ret (c, d)))
   else ret (None, None)) s
  = (if nonempty out2
     then bind (scan Re.lse_c out2 None)
            (fun c => bind (scan Re.lse_d out2 None) (fun d => ret (c, d)))
     else ret (None, None)) s.
Proof.
  intros Hc Hd.
  assert (Hempty : forall out : text,
             Re.search Re.lse_c out = None -> Re.search Re.lse_d out = None ->
             bind (scan Re.lse_c out None)
               (fun c => bind (scan Re.lse_d out None) (fun d => ret (c, d))) s
             = (Ret (None, None), s)).
  { intros out H1 H2. rewrite (bind_ret _ _ _ _ _ (scan_none _ _ _ _ H1)).
    by rewrite (bind_ret _ _ _ _ _ (scan_none _ _ _ _ H2)). }
  destruct out1 as [|c1 out1], out2 as [|c2 out2]; simpl nonempty; cbv iota.
  - done.
  - symmetry. apply Hempty; [by rewrite <- Hc | by rewrite <- Hd].
  - apply Hempty; [by rewrite Hc | by rewrite Hd].
  - unfold bind, scan. by rewrite Hc, Hd.
Qed.

(** The LSE scores depend on the two searches in the output of the script
    and on the world it leaves: not on its return code, nor on the rest of
    the output. *)
Lemma lse_scores_same_searches a r (s1 s2 : state W) rc1 rc2 out1 out2 w' :
  trace s1 = trace s2 ->
  spawn (lse_command a) None (world s1) = (Done (rc1, out1), w') ->
  spawn (lse_command a) None (world s2) = (Done (rc2, out2), w') ->
  Re.search Re.lse_c out1 = Re.search Re.lse_c out2 ->
  Re.search Re.lse_d out1 = Re.search Re.lse_d out2 ->
  lse_scores a r s1 = lse_scores a r s2.
Proof.
  intros Ht H1 H2 Hc Hd. unfold lse_scores.
  rewrite (bind_ret _ _ _ _ _ (run_with_output_allowed _ _ _ _ _ H1)).
  rewrite (bind_ret _ _ _ _ _ (run_with_output_allowed _ _ _ _ _ H2)).
  unfold after. rewrite Ht. simpl snd. unfold bind at 1 9.
  by rewrite (scans_of_output out1 out2 _ Hc Hd).
Qed.

(** The LSE scores when neither the output nor the file of scores has a
    value, be there a file or not. *)
Lemma lse_scores_no_score a r (s : state W) rc out w' :
  spawn (lse_command a) None (world s) = (Done (rc, out), w') ->
  Re.search Re.lse_c out = None -> Re.search Re.lse_d out = None ->
  no_score_in_file a w' ->
  fst (lse_scores a r s) = Ret (dict_set "lse" (lse_record a None None) r).
Proof.
  intros Hs Hc Hd [He | (txt & w2 & Hr & Hfc & Hfd)].
  { by rewrite (lse_scores_no_match _ _ _ _ _ _ Hs Hc Hd He). }
  unfold lse_scores.
  rewrite (bind_ret _ _ _ _ _ (run_with_output_allowed _ _ _ _ _ Hs)).
  simpl snd. unfold bind at 1.
  assert (Hout : (if nonempty out
                  then bind (scan Re.lse_c out None)
                         (fun c => bind (scan Re.lse_d out None)
                                     (fun d => ret (c, d)))
                  else ret (None, None)) (after s (lse_command a) None w')
                 = (Ret (None, None), after s (lse_command a) None w')).
  { destruct (nonempty out); [|done].
    rewrite (bind_ret _ _ _ _ _ (scan_none _ _ _ _ Hc)).
    by rewrite (bind_ret _ _ _ _ _ (scan_none _ _ _ _ Hd)). }
  rewrite Hout. simpl. unfold bind at 1, exists_. simpl.
  fold (scores_path a).
  destruct (path_exists (scores_path a) w'); [|done].
  unfold bind at 1. unfold bind at 1, os. simpl. rewrite Hr. simpl.
  rewrite (bind_ret _ _ _ _ _ (scan_none _ _ _ _ Hfc)).
  by rewrite (bind_ret _ _ _ _ _ (scan_none _ _ _ _ Hfd)).
Qed.

End BestEffortFacts.

(** C3, as the spec states it, fails: the output of the NIQE script is
    scanned whatever its return code, so a script that prints a value and
    then ends with a code other than 0 leaves that value in the summary. *)
Lemma niqe_failure_counterexample :
  let a := with_flags false true false false false
             (with_videos (Some "pred.mp4") None no_args) in
  let w := Sim.empty_world
             [Sim.extracts []; Sim.ends 1 (T "NIQE (pyiqa) = 5.3")] in
  exists x s',
    main a (start w)
    = (Ret [("niqe",
             VDict [("frames_dir",
                     VStr "/repo/TalkingGaussian/evaluation/_work/pred_frames");
                    ("ok", VBool false);
                    ("NIQE", VFloat x)])], s')
    /\ Float.py_float (T "5.3") = Some x.
Proof. vm_compute. eexists _, _. split; reflexivity. Qed.

(** C3, amended. When the NIQE subprocess ends with a code other than 0 and
    its output has no match of the NIQE pattern, the NIQE step raises
    nothing, stores an entry with [ok] false and [NIQE] [None], and the run
    goes on with whatever follows the step. *)
Theorem niqe_failure_is_recorded {W : Type} {HW : World W}
  (a : Args) (d : option string) (r : pydict) (s : state W)
  (rc : Z) (out : text) (w' : W) :
  spawn (niqe_command d) None (world s) = (Done (rc, out), w') ->
  rc <> 0 ->
  Re.search Re.niqe out = None ->
  let r' := dict_set "niqe"
              (VDict [("frames_dir", of_str d); ("ok", VBool false);
                      ("NIQE", VNone)]) r in
  let s' := after s (niqe_command d) None w' in
  niqe_step a true d r s = (Ret r', s')
  /\ forall B (k : pydict -> M W B),
       bind (niqe_step a true d r) k s = k r' s'.
Proof.
  intros Hs Hrc Hn r' s'.
  assert (Hstep : niqe_step a true d r s = (Ret r', s')).
  { rewrite (niqe_step_no_match _ _ _ _ _ _ _ Hs Hn). subst r'.
    unfold niqe_record. apply Z.eqb_neq in Hrc. by rewrite Hrc. }
  split; [done|]. intros B k. by apply bind_ret.
Qed.

(** The conda environment of NIQE is missing. *)
Lemma niqe_failure_is_recorded_witness :
  let a := with_flags false true false false false
             (with_videos (Some "pred.mp4") None no_args) in
  let d := Some "/repo/TalkingGaussian/evaluation/_work/pred_frames" in
  let out := T "EnvironmentLocationNotFound: Not a conda environment" in
  let s := start (Sim.empty_world [Sim.ends 1 out]) in
  let r' := [("niqe",
              VDict [("frames_dir", of_str d); ("ok", VBool false);
                     ("NIQE", VNone)])] in
  let s' := after s (niqe_command d) None (Sim.empty_world []) in
  niqe_step a true d [] s = (Ret r', s')
  /\ forall B (k : pydict -> M Sim.sim B),
       bind (niqe_step a true d []) k s = k r' s'.
Proof.
  intros a d out s r' s'.
  refine (@niqe_failure_is_recorded Sim.sim Sim.sim_world a d [] s 1 out
            (Sim.empty_world []) _ _ _).
  - reflexivity.
  - discriminate.
  - vm_compute. reflexivity.
Defined.

(** C8, as the spec states it, fails for NIQE: its record has the field
    [ok], which is true after a parse miss and false after a failure of the
    subprocess. The same output, once with return code 0 and once with 1. *)
Lemma parse_miss_counterexample :
  let a := with_flags false true false false false
             (with_videos (Some "pred.mp4") None no_args) in
  let d := Some "frames" in
  let miss := niqe_step a true d []
                (start (Sim.empty_world [Sim.ends 0 (T "no value")])) in
  let failure := niqe_step a true d []
                   (start (Sim.empty_world [Sim.ends 1 (T "no value")])) in
  fst miss
  = Ret [("niqe", VDict [("frames_dir", VStr "frames"); ("ok", VBool true);
                         ("NIQE", VNone)])]
  /\ fst failure
     = Ret [("niqe", VDict [("frames_dir", VStr "frames"); ("ok", VBool false);
                            ("NIQE", VNone)])]
  /\ fst miss <> fst failure.
Proof. vm_compute. repeat split. discriminate. Qed.

(** C8, amended. For LSE, a parse miss and a failure of the subprocess are
    not told apart: the step gives the same result whatever the return code,
    for outputs in which the two searches find the same; and when neither
    the output nor the file of scores has a value, be the file missing or
    without a match, both scores are [None]. For NIQE, the two records agree
    on [frames_dir] and on an absent [NIQE] and differ in [ok] alone. *)
Theorem parse_miss_like_failure {W : Type} {HW : World W}
  (a : Args) (d : option string) (r : pydict) (s1 s2 : state W)
  (rc : Z) (out1 out2 : text) (w1 w2 : W) :
  rc <> 0 ->
  (spawn (lse_command a) None (world s1) = (Done (0, out1), w1) ->
   spawn (lse_command a) None (world s2) = (Done (rc, out2), w2) ->
   (Re.search Re.lse_c out1 = Re.search Re.lse_c out2 ->
    Re.search Re.lse_d out1 = Re.search Re.lse_d out2 ->
    w1 = w2 -> trace s1 = trace s2 ->
    lse_scores a r s1 = lse_scores a r s2)
   /\ (Re.search Re.lse_c out1 = None -> Re.search Re.lse_d out1 = None ->
       Re.search Re.lse_c out2 = None -> Re.search Re.lse_d out2 = None ->
       no_score_in_file a w1 -> no_score_in_file a w2 ->
       fst (lse_scores a r s1)
       = Ret (dict_set "lse" (lse_record a None None) r)
       /\ fst (lse_scores a r s2) = fst (lse_scores a r s1)))
  /\ (spawn (niqe_command d) None (world s1) = (Done (0, out1), w1) ->
      spawn (niqe_command d) None (world s2) = (Done (rc, out2), w2) ->
      Re.search Re.niqe out1 = None -> Re.search Re.niqe out2 = None ->
      fst (niqe_step a true d r s1)
      = Ret (dict_set "niqe"
               (VDict [("frames_dir", of_str d); ("ok", VBool true);
                       ("NIQE", VNone)]) r)
      /\ fst (niqe_step a true d r s2)
         = Ret (dict_set "niqe"
                  (VDict [("frames_dir", of_str d); ("ok", VBool false);
                          ("NIQE", VNone)]) r)).
Proof.
  intros Hrc. split.
  - intros H1 H2. split.
    + intros Hc Hd -> Ht. by eapply lse_scores_same_searches.
    + intros Hc1 Hd1 Hc2 Hd2 He1 He2.
      rewrite (lse_scores_no_score _ _ _ _ _ _ H1 Hc1 Hd1 He1).
      by rewrite (lse_scores_no_score _ _ _ _ _ _ H2 Hc2 Hd2 He2).
  - intros H1 H2 Hn1 Hn2.
    rewrite (niqe_step_no_match _ _ _ _ _ _ _ H1 Hn1).
    rewrite (niqe_step_no_match _ _ _ _ _ _ _ H2 Hn2).
    unfold niqe_record. apply Z.eqb_neq in Hrc. by rewrite Hrc.
Qed.

(** The LSE script prints no score, once with return code 0 and once, with
    another output, with return code 1; the file of scores is there and has
    no score. *)
Lemma parse_miss_like_failure_witness :
  let a := with_flags false false false true false
             (with_gen_videos_dir (Some "videos") no_args) in
  let scores :=
    "/repo/TalkingGaussian/third_party/syncnet_python/all_scores.txt" in
  let disk := {[ scores := Sim.TextFile (T "no videos scored") ]} in
  let s1 := start {| Sim.files := disk;
                     Sim.replies := [Sim.ends 0 (T "no value")] |} in
  let s2 := start {| Sim.files := disk;
                     Sim.replies := [Sim.ends 1 (T "Traceback")] |} in
  scores_path a = scores
  /\ fst (lse_scores a [] s1) = Ret [("lse", lse_record a None None)]
  /\ fst (lse_scores a [] s2) = fst (lse_scores a [] s1).
Proof.
  intros a scores disk s1 s2. split; [reflexivity|].
  assert (Hfile : no_score_in_file a {| Sim.files := disk; Sim.replies := [] |}).
  { right. exists (T "no videos scored"), {| Sim.files := disk; Sim.replies := [] |}.
    vm_compute. repeat split. }
  refine (proj2 (proj1 (@parse_miss_like_failure Sim.sim Sim.sim_world a None []
                          s1 s2 1 (T "no value") (T "Traceback")
                          {| Sim.files := disk; Sim.replies := [] |}
                          {| Sim.files := disk; Sim.replies := [] |} _)
                   eq_refl eq_refl) _ _ _ _ Hfile Hfile);
    try (vm_compute; reflexivity).
  discriminate.
Defined.

(** ** The extraction of a metric value *)

Lemma patterns_shaped (p : Re.pattern) :
  In p [Re.psnr; Re.ssim; Re.lpips; Re.niqe; Re.fid; Re.lse_c; Re.lse_d] ->
  exists l, Re.shaped l p.
Proof.
  simpl. intros [<-|[<-|[<-|[<-|[<-|[<-|[<-|[]]]]]]]]; eexists.
  - apply ReFacts.shaped_psnr.
  - apply ReFacts.shaped_ssim.
  - apply ReFacts.shaped_lpips.
  - apply ReFacts.shaped_niqe.
  - apply ReFacts.shaped_fid.
  - apply ReFacts.shaped_lse_c.
  - apply ReFacts.shaped_lse_d.
Qed.

(** C2, as the spec states it, fails: nothing catches the [ValueError] of
    [float]. The frame-metrics script ends its line with a full stop; the
    group of the PSNR pattern is [31.2.], which is no float literal, and the
    run ends with the exception, where a text without a match gives
    [None]. *)
Lemma malformed_number_counterexample :
  let a := with_flags true false false false false
             (with_videos (Some "pred.mp4") (Some "gt.mp4") no_args) in
  let out := T "Done. PSNR = 31.2." in
  let w := Sim.empty_world [Sim.prints out] in
  Re.search Re.psnr out = Some (T "31.2.")
  /\ Float.py_float (T "31.2.") = None
  /\ scan Re.psnr out None (start w)
     = (Raise (ValueError (T "31.2.")), start w)
  /\ scan Re.psnr (T "Done.") None (start w) = (Ret None, start w)
  /\ exists s', main a (start w) = (Raise (ValueError (T "31.2.")), s').
Proof. vm_compute. repeat split. by eexists. Qed.

(** C2, amended. For each of the seven patterns and every text, the
    extraction leaves the value as it was when the pattern has no match;
    when it has one, the group is a piece of the text that is not empty and
    is not followed by a further character of the set of the pattern, and
    the extraction yields [float] of that whole group, or raises
    [ValueError] when the group is no float literal. *)
Theorem scan_float_or_nothing_or_error {W : Type} {HW : World W}
  (p : Re.pattern) (t : text) (old : option Float.pyfloat) (s : state W) :
  In p [Re.psnr; Re.ssim; Re.lpips; Re.niqe; Re.fid; Re.lse_c; Re.lse_d] ->
  match Re.search p t with
  | None => scan p t old s = (Ret old, s)
  | Some g =>
      (exists pre post,
          t = pre ++ g ++ post /\ g <> []
          /\ forallb Re.numclass g = true /\ Re.stops Re.numclass post)
      /\ match Float.py_float g with
         | Some x => scan p t old s = (Ret (Some x), s)
         | None => scan p t old s = (Raise (ValueError g), s)
         end
  end.
Proof.
  intros [l Hp]%patterns_shaped. unfold scan.
  destruct (Re.search p t) as [g|] eqn:E; [|done].
  split; [|by destruct (Float.py_float g)].
  by destruct (ReFacts.search_shaped _ _ _ _ Hp E) as [_ Hg].
Qed.

(** The PSNR pattern on a line that ends with a unit. *)
Lemma scan_float_or_nothing_or_error_witness :
  let t := T "PSNR = 31.2 dB" in
  let s := start (Sim.empty_world []) in
  (exists pre post,
      t = pre ++ T "31.2" ++ post /\ T "31.2" <> []
      /\ forallb Re.numclass (T "31.2") = true /\ Re.stops Re.numclass post)
  /\ scan Re.psnr t None s
     = (Ret (Some (Float.Finite false 8782019273372467 (-48))), s).
Proof.
  exact (@scan_float_or_nothing_or_error Sim.sim Sim.sim_world Re.psnr
           (T "PSNR = 31.2 dB") None (start (Sim.empty_world []))
           (or_introl eq_refl)).
Defined.

(** C5, as the spec states it, fails: an output can contain the line and
    give another value, or none. An earlier line with [FID] and [=] is
    scanned first; a full stop after the number becomes part of the
    group. *)
Lemma fid_value_counterexample :
  let line := T "FID (clean-fid) = 12.345" in
  let out1 := T "FID = 7" ++ [10%N] ++ line in
  let out2 := line ++ T "." in
  let s := start (Sim.empty_world []) in
  (Re.contains line out1
   /\ metric_of Re.fid out1 s = (Ret (Float.py_float (T "7")), s)
   /\ Float.py_float (T "7") <> Float.py_float (T "12.345"))
  /\ (Re.contains line out2
      /\ metric_of Re.fid out2 s = (Raise (ValueError (T "12.345.")), s)).
Proof.
  intros line out1 out2 s. repeat split.
  - by exists (T "FID = 7" ++ [10%N]), [].
  - vm_compute. discriminate.
  - by exists [], (T ".").
Qed.

(** C5, amended. When the output has the line [FID (clean-fid) = 12.345]
    with no [FID] before it and no further character of the set of the
    pattern right after it, the extracted value is the float 12.345; when
    the output has no [FID] at all, the extracted value is [None]; nothing is
    raised in either case. *)
Theorem fid_value_extracted {W : Type} {HW : World W} (s : state W) :
  (forall pre post,
      ~ Re.contains (T "FID") pre -> Re.stops Re.numclass post ->
      metric_of Re.fid (pre ++ T "FID (clean-fid) = 12.345" ++ post) s
      = (Ret (Float.py_float (T "12.345")), s))
  /\ Float.py_float (T "12.345")
     = Some (Float.Finite false 6949617174986097 (-49))
  /\ (forall out,
         ~ Re.contains (T "FID") out -> metric_of Re.fid out s = (Ret None, s)).
Proof.
  split; [|split; [by vm_compute|]].
  - intros pre post Hpre Hpost. unfold metric_of.
    assert (Hne : nonempty (pre ++ T "FID (clean-fid) = 12.345" ++ post) = true)
      by by destruct pre.
    rewrite Hne. unfold scan. by rewrite FidFacts.fid_found.
  - intros out Hout. apply metric_of_none.
    by apply (ReFacts.search_none (T "FID")); [apply ReFacts.shaped_fid|].
Qed.

(** The line between other words, and an output without [FID]. *)
Lemma fid_value_extracted_witness :
  let s := start (Sim.empty_world []) in
  metric_of Re.fid
    (T "frames: 300 " ++ T "FID (clean-fid) = 12.345" ++ T " (lower is better)") s
  = (Ret (Float.py_float (T "12.345")), s)
  /\ metric_of Re.fid (T "Traceback (most recent call last)") s = (Ret None, s).
Proof.
  intros s. split.
  - refine (proj1 (@fid_value_extracted Sim.sim Sim.sim_world s) _ _ _ _).
    + intros (a & b & Hab). vm_compute in Hab.
      repeat (destruct a as [|? a]; [discriminate|injection Hab as <- Hab]).
      by destruct a.
    + reflexivity.
  - refine (proj2 (proj2 (@fid_value_extracted Sim.sim Sim.sim_world s)) _ _).
    intros (a & b & Hab). vm_compute in Hab.
    repeat (destruct a as [|? a]; [discriminate|injection Hab as <- Hab]).
    by destruct a.
Defined.
(** ** Frame extraction *)

Section FramesFacts.

Context {W : Type} {HW : World W}.

(** Extraction started in the world [w], after the trace of [s]. *)
Lemma extract_frames_state py video dir f (s : state W) r s' :
  _extract_frames py video dir f s = (r, s') ->
  s' = after s (extract_command py video dir f) (Some _project_root)
         (snd (spawn (extract_command py video dir f) (Some _project_root)
                 (world s))).
Proof.
  unfold _extract_frames, _run, bind, subprocess, after.
  destruct (spawn _ _ (world s)) as [[[rc out]|what] w']; simpl.
  - destruct (negb (rc =? 0) && true); simpl; by intros [= _ <-].
  - by intros [= _ <-].
Qed.

(** An absolute path leads to the same place from everywhere. *)
Lemma resolved_absolute_path cwd p :
  Path.starts_with_sep p = true -> resolved cwd p = p.
Proof. unfold resolved, Path.join. by intros ->. Qed.

Context {HP : Places W}.

Lemma same_place dir :
  Path.starts_with_sep dir = true \/ getcwd = _project_root ->
  resolved getcwd dir = resolved _project_root dir.
Proof.
  intros [Ha | ->]; [|done]. by rewrite !resolved_absolute_path.
Qed.

End FramesFacts.

(** C7. The script does not start from a clean directory when the working
    directory of the frames is a relative path and the script is not started
    in the project root. The script looks for the directory of frames, and
    would delete it, from its own working directory (lines 208 and 209); the
    extractor is started in the project root (line 54) and fills the
    directory that the same path names from there. Two runs of
    [--niqe --pred-video pred.mp4 --work-dir work] in a row, started in
    [/home/user]: the second run finds nothing to delete, and the second
    frame of the first run is still in the directory of frames after the
    second run, whose video has one frame. *)
Lemma relative_work_dir_keeps_stale_frames :
  let a := with_work_dir "work"
             (with_flags false true false false false
                (with_videos (Some "pred.mp4") None no_args)) in
  let first := [("work/pred_frames", Sim.Dir);
                ("work/pred_frames/0001.png", Sim.Image);
                ("work/pred_frames/0002.png", Sim.Image)] in
  let second := [("work/pred_frames", Sim.Dir);
                 ("work/pred_frames/0001.png", Sim.Image)] in
  let w0 := Sim.empty_world
              [Sim.extracts first; Sim.prints (T "NIQE (pyiqa) = 5.3");
               Sim.extracts second; Sim.prints (T "NIQE (pyiqa) = 5.1")] in
  let run1 := main a (start w0) in
  let w1 := world (snd run1) in
  let run2 := main a (start w1) in
  let w2 := world (snd run2) in
  let cmd := Argv ["/usr/bin/python3"; "evaluation/extract_frames.py";
                   "pred.mp4"; "work/pred_frames"] in
  (exists r, fst run1 = Ret r) /\ (exists r, fst run2 = Ret r)
  /\ trace (snd run2)
     = [(cmd, Some "/repo/TalkingGaussian");
        (niqe_command (Some "work/pred_frames"), None)]
  /\ path_exists "work/pred_frames" w1 = false
  /\ entry "/repo/TalkingGaussian/work/pred_frames/0002.png" w1 = true
  /\ entry "/repo/TalkingGaussian/work/pred_frames/0001.png" w2 = true
  /\ entry "/repo/TalkingGaussian/work/pred_frames/0002.png" w2 = true.
Proof. vm_compute. repeat split; by eexists. Qed.

(** X17. When the directory of the frames is an absolute path, as the
    default working directory is, or the script runs in the project root,
    every extraction of frames by the script, in particular one that
    follows an earlier extraction into the same directory, either fails to
    delete that directory and then extracts nothing, or starts the
    extraction subprocess in a world in which the directory does not exist,
    nor, if it existed before, anything below it. Whatever the directory
    holds afterwards was not there when this subprocess started: this
    subprocess put it there. *)
Theorem fresh_frames_start_clean {W : Type} {HW : World W} {HP : Places W}
  {HPL : PlacesLaws W}
  (a : Args) (video dir : string) (s1 s2 : state W) (r2 : res unit) :
  dir <> EmptyString ->
  Path.starts_with_sep dir = true \/ getcwd = _project_root ->
  fresh_frames a video dir s1 = (r2, s2) ->
  let cmd := extract_command executable video dir (fps a) in
  let place := resolved _project_root dir in
  (exists what,
      entry place (world s1) = true
      /\ fst (rmtree dir (world s1)) = Failed what
      /\ r2 = Raise (OSError what) /\ trace s2 = trace s1)
  \/ (exists w_mid,
         entry place w_mid = false
         /\ (entry place (world s1) = true ->
             forall q, inside place q -> entry q w_mid = false)
         /\ s2 = after s1 cmd (Some _project_root)
                   (snd (spawn cmd (Some _project_root) w_mid))
         /\ (entry place (world s1) = true ->
             forall q,
               inside place q -> entry q (world s2) = true ->
               entry q w_mid = false
               /\ entry q (snd (spawn cmd (Some _project_root) w_mid)) = true)).
Proof.
  intros Hne Hsame H2 cmd place.
  pose proof (same_place dir Hsame) as Hres. fold place in Hres.
  unfold fresh_frames in H2. unfold bind at 1, exists_ in H2.
  rewrite (exists_resolved dir (world s1) Hne), Hres in H2.
  destruct (entry place (world s1)) eqn:Ee.
  - unfold bind at 1, os in H2.
    destruct (rmtree dir (world s1)) as [[[]|what] w1] eqn:Er; simpl in H2.
    + right. exists w1. destruct (rmtree_resolved _ _ _ Er) as [Hd Hin].
      rewrite Hres in Hd, Hin. apply extract_frames_state in H2.
      split; [done|]. split; [done|]. split; [done|].
      intros _ q Hq Hq2. split; [by apply Hin|]. by rewrite H2 in Hq2.
    + left. exists what. by injection H2 as <- <-.
  - right. exists (world s1). split; [done|]. split; [done|].
    unfold bind at 1 in H2. simpl in H2. apply extract_frames_state in H2.
    split; [done|]. done.
Qed.

(** Two extractions into the default directory of frames, an absolute path:
    the second video is shorter, and the second frame of the first
    extraction is gone afterwards. *)
Lemma fresh_frames_start_clean_witness :
  let a := with_videos (Some "pred.mp4") None no_args in
  let dir := "/repo/TalkingGaussian/evaluation/_work/pred_frames" in
  let one := "/repo/TalkingGaussian/evaluation/_work/pred_frames/0001.png" in
  let two := "/repo/TalkingGaussian/evaluation/_work/pred_frames/0002.png" in
  let first := [(dir, Sim.Dir); (one, Sim.Image); (two, Sim.Image)] in
  let second := [(dir, Sim.Dir); (one, Sim.Image)] in
  let s := start (Sim.empty_world [Sim.extracts first; Sim.extracts second]) in
  let s1 := snd (fresh_frames a "pred.mp4" dir s) in
  let s2 := snd (fresh_frames a "pred.mp4" dir s1) in
  let cmd := extract_command executable "pred.mp4" dir (fps a) in
  let place := resolved _project_root dir in
  ((exists what,
       entry place (world s1) = true
       /\ fst (rmtree dir (world s1)) = Failed what
       /\ fst (fresh_frames a "pred.mp4" dir s1) = Raise (OSError what)
       /\ trace s2 = trace s1)
   \/ (exists w_mid,
          entry place w_mid = false
          /\ (entry place (world s1) = true ->
              forall q, inside place q -> entry q w_mid = false)
          /\ s2 = after s1 cmd (Some _project_root)
                    (snd (spawn cmd (Some _project_root) w_mid))
          /\ (entry place (world s1) = true ->
              forall q,
                inside place q -> entry q (world s2) = true ->
                entry q w_mid = false
                /\ entry q (snd (spawn cmd (Some _project_root) w_mid))
                   = true)))
  /\ pred_frames a = dir
  /\ entry two (world s1) = true
  /\ entry one (world s2) = true
  /\ entry two (world s2) = false.
Proof.
  intros a dir one two first second s s1 s2 cmd place. split.
  - refine (@fresh_frames_start_clean Sim.sim Sim.sim_world Sim.sim_places
              SimFacts.sim_places_laws a "pred.mp4" dir s1 s2
              (fst (fresh_frames a "pred.mp4" dir s1)) _ _ _).
    + discriminate.
    + left. reflexivity.
    + subst s2. by destruct (fresh_frames a "pred.mp4" dir s1).
  - vm_compute. repeat split.
Defined.

(** ** The LLM service *)

Section LlmFacts.

Import Llm.

Variable getenv : string -> option string.
Variables k1 k2 k3 : string.

Lemma api_config_zhipu :
  API_CONFIG getenv k1 k2 k3 !! "Zhipu AI" = Some (zhipu getenv k2).
Proof. unfold API_CONFIG. by rewrite lookup_insert_ne, lookup_insert_eq. Qed.

Lemma select_returns api_choice :
  exists c, select getenv k1 k2 k3 api_choice = Returns c.
Proof.
  unfold select. rewrite api_config_zhipu.
  destruct (API_CONFIG getenv k1 k2 k3 !! api_choice); by eexists.
Qed.

End LlmFacts.

(** C10. [query_llm] never raises: it returns a reply for every text and every
    choice of API. A choice that is no key of [API_CONFIG] selects the
    configuration of Zhipu AI. When the call of the client raises, or the
    response has no choice, the fixed fallback sentence is returned. *)
Theorem query_llm_never_raises (getenv : string -> option string)
  (k1 k2 k3 : string)
  (create : string -> string -> Llm.request -> Llm.sdk_result)
  (text api_choice : string) :
  let config := Llm.API_CONFIG getenv k1 k2 k3 in
  let query := Llm.query_llm getenv k1 k2 k3 create in
  (exists reply, query text api_choice = Llm.Returns reply)
  /\ (config !! api_choice = None ->
      Llm.select getenv k1 k2 k3 api_choice
      = Llm.Returns (Llm.zhipu getenv k2)
      /\ config !! "Zhipu AI" = Some (Llm.zhipu getenv k2))
  /\ (forall c,
         Llm.select getenv k1 k2 k3 api_choice = Llm.Returns c ->
         (exists what,
             create (Llm.api_key c) (Llm.base_url c) (Llm.request_of c text)
             = Llm.SdkRaises what)
         \/ create (Llm.api_key c) (Llm.base_url c) (Llm.request_of c text)
            = Llm.Response [] ->
         query text api_choice = Llm.Returns (Some Llm.fallback_reply)).
Proof.
  intros config query. subst config query. unfold Llm.query_llm.
  split; [|split].
  - destruct (select_returns getenv k1 k2 k3 api_choice) as [c ->].
    destruct (Llm.ask create c text); by eexists.
  - intros Hn. unfold Llm.select. by rewrite Hn, api_config_zhipu.
  - intros c -> Hc. unfold Llm.ask.
    destruct Hc as [[what ->] | ->]; done.
Qed.

(** ** The subprocesses of a run *)

Section TraceFacts.

Context {W : Type} {HW : World W}.

Lemma emits_ret {A} (Q : A -> Prop) (v : A) : Q v -> emits [] Q (@ret W A v).
Proof.
  intros Hq s r s' [= <- <-]. exists []. by rewrite app_nil_r.
Qed.

Lemma emits_raise {A} cmds (Q : A -> Prop) e : emits cmds Q (@raise W A e).
Proof.
  intros s r s' [= <- <-]. exists []. rewrite app_nil_r. split; [done|].
  apply prefix_nil.
Qed.

Lemma emits_bind {A B} l1 l2 (Q : A -> Prop) (R : B -> Prop)
  (c : M W A) (k : A -> M W B) :
  emits l1 Q c -> (forall v, Q v -> emits l2 R (k v)) ->
  emits (l1 ++ l2) R (bind c k).
Proof.
  intros Hc Hk s r s' Hb.
  apply bind_inv in Hb as [(v & s1 & Hv & Hb) | (e & He & ->)].
  - destruct (Hc _ _ _ Hv) as (m1 & Ht1 & -> & Hq).
    destruct (Hk v Hq _ _ _ Hb) as (m2 & Ht2 & Hr).
    exists (l1 ++ m2). rewrite Ht2, Ht1, app_assoc. split; [done|].
    destruct r as [b|e]; [by destruct Hr as [-> ?] | by apply prefix_app].
  - destruct (Hc _ _ _ He) as (m1 & Ht1 & Hp). exists m1. split; [done|].
    by apply prefix_app_r.
Qed.

Lemma emits_weaken {A} cmds (Q R : A -> Prop) (c : M W A) :
  emits cmds Q c -> (forall v, Q v -> R v) -> emits cmds R c.
Proof.
  intros Hc Hqr s r s' Hs. destruct (Hc _ _ _ Hs) as (l & Ht & Hr).
  exists l. split; [done|]. destruct r; [|done]. destruct Hr. auto.
Qed.

Lemma emits_os {A} (f : W -> os_res A * W) : emits [] (fun _ => True) (os f).
Proof.
  intros s r s'. unfold os. destruct (f (world s)) as [x w].
  intros [= <- <-]. exists []. simpl. rewrite app_nil_r. split; [done|].
  destruct x; simpl; [done | apply prefix_nil].
Qed.

Lemma emits_exists p : emits [] (fun _ => True) (@exists_ W HW p).
Proof. intros s r s' [= <- <-]. exists []. by rewrite app_nil_r. Qed.

Lemma emits_scan p t old : emits [] (fun _ => True) (@scan W p t old).
Proof.
  intros s r s' Hs. pose proof (scan_state _ _ _ _ _ _ Hs) as ->.
  exists []. rewrite app_nil_r. split; [done|].
  destruct r; [done | apply prefix_nil].
Qed.

Lemma emits_metric_of p t : emits [] (fun _ => True) (@metric_of W p t).
Proof.
  unfold metric_of. destruct (nonempty t); [apply emits_scan|].
  by apply emits_ret.
Qed.

Lemma emits_subprocess cmd cwd :
  emits [(cmd, cwd)] (fun _ => True) (subprocess cmd cwd).
Proof.
  intros s r s'. unfold subprocess.
  destruct (spawn cmd cwd (world s)) as [x w]. intros [= <- <-].
  exists [(cmd, cwd)]. split; [done|]. destruct x; simpl; [done | reflexivity].
Qed.

Lemma emits__run cmd cwd allow_fail :
  emits [(cmd, cwd)] (fun _ => True) (_run cmd cwd allow_fail).
Proof.
  unfold _run. rewrite <- (app_nil_r [(cmd, cwd)]).
  eapply emits_bind; [apply emits_subprocess|]. intros [rc out] _. simpl.
  destruct (negb (rc =? 0) && negb allow_fail);
    [apply emits_raise | by apply emits_ret].
Qed.

Lemma emits__run_with_output cmd allow_fail :
  emits [(cmd, None)] (fun _ => True) (_run_with_output cmd allow_fail).
Proof.
  unfold _run_with_output. rewrite <- (app_nil_r [(cmd, None)]).
  eapply emits_bind; [apply emits_subprocess|]. intros [rc out] _.
  destruct (negb (rc =? 0) && negb allow_fail);
    [apply emits_raise | by apply emits_ret].
Qed.

(** A step that starts nothing, then the rest. *)
Lemma emits_then {A B} l (R : B -> Prop) (c : M W A) (k : A -> M W B) :
  emits [] (fun _ => True) c -> (forall v, emits l R (k v)) ->
  emits l R (bind c k).
Proof.
  intros Hc Hk. change l with ([] ++ l). eapply emits_bind; [done|].
  intros v _. apply Hk.
Qed.

(** A step that starts one subprocess, then a rest that starts nothing. *)
Lemma emits_last {A B} l (R : B -> Prop) (c : M W A) (k : A -> M W B) :
  emits l (fun _ => True) c -> (forall v, emits [] R (k v)) ->
  emits l R (bind c k).
Proof.
  intros Hc Hk. rewrite <- (app_nil_r l). eapply emits_bind; [done|].
  intros v _. apply Hk.
Qed.

Ltac quiet_step :=
  first
    [ apply emits_raise
    | by apply emits_ret
    | apply emits_os
    | apply emits_exists
    | apply emits_scan
    | apply emits_metric_of
    | apply emits_then; [|intros ?]
    | match goal with
      | |- emits _ _ (if ?b then _ else _) => destruct b
      | |- emits _ _ (match ?p with (_, _) => _ end) => destruct p
      end ].

Lemma emits_fresh_frames a video dir :
  emits [(extract_command executable video dir (fps a), Some _project_root)]
    (fun _ => True) (fresh_frames a video dir).
Proof.
  unfold fresh_frames. apply emits_then; [apply emits_exists|]. intros e.
  apply emits_then; [destruct e; [apply emits_os | by apply emits_ret]|].
  intros _. unfold _extract_frames.
  apply emits_last; [apply emits__run|]. intros _. by apply emits_ret.
Qed.

Lemma emits_frame_step a (b : bool) r :
  emits (if b then [(frame_command a, @None string)] else []) (fun _ => True)
    (frame_step a b r).
Proof.
  unfold frame_step. destruct b; [|by apply emits_ret].
  destruct (negb (truthy (pred_video a)) || negb (truthy (gt_video a)));
    [apply emits_raise|].
  apply emits_last; [apply emits__run_with_output|]. intros p.
  repeat quiet_step.
Qed.

Lemma emits_pred_frames_step a (b1 b2 : bool) :
  emits (if b1 || b2
         then [(extract_command executable
                  (default EmptyString (pred_video a)) (pred_frames a) (fps a),
                Some _project_root)]
         else [])
    (fun d => d = if b1 || b2 then Some (pred_frames a) else None)
    (pred_frames_step a b1 b2).
Proof.
  unfold pred_frames_step. destruct (b1 || b2); [|by apply emits_ret].
  destruct (negb (truthy (pred_video a))); [apply emits_raise|].
  apply emits_last; [apply emits_fresh_frames|]. intros _. by apply emits_ret.
Qed.

Lemma emits_niqe_step a (b : bool) d r :
  emits (if b then [(niqe_command d, @None string)] else []) (fun _ => True)
    (niqe_step a b d r).
Proof.
  unfold niqe_step. destruct b; [|by apply emits_ret].
  apply emits_last; [apply emits__run_with_output|]. intros p.
  repeat quiet_step.
Qed.

Lemma emits_fid_step a (b : bool) d r :
  emits (if b
         then [(extract_command executable
                  (default EmptyString (gt_video a)) (gt_frames a) (fps a),
                Some _project_root);
               (fid_command a d (gt_frames a), @None string)]
         else [])
    (fun _ => True) (fid_step a b d r).
Proof.
  unfold fid_step. destruct b; [|by apply emits_ret].
  destruct (negb (truthy (gt_video a))); [apply emits_raise|].
  eapply (emits_bind [_] [_]); [apply emits_fresh_frames|]. intros _ _.
  apply emits_last; [apply emits__run_with_output|]. intros p.
  repeat quiet_step.
Qed.

Lemma emits_lse_scores a r :
  emits [(lse_command a, @None string)] (fun _ => True) (lse_scores a r).
Proof.
  unfold lse_scores.
  apply emits_last; [apply emits__run_with_output|]. intros p.
  repeat quiet_step.
Qed.

Lemma emits_lse_step a (b : bool) r :
  emits (if b
         then (if setup_lse a then [(setup_command, Some _project_root)]
               else [])
                ++ [(lse_command a, @None string)]
         else [])
    (fun _ => True) (lse_step a b r).
Proof.
  unfold lse_step. destruct b; [|by apply emits_ret].
  destruct (negb (truthy (gen_videos_dir a))); [apply emits_raise|].
  eapply (emits_bind _ _ (fun _ => True));
    [|intros _ _; apply emits_lse_scores].
  unfold lse_setup. destruct (setup_lse a); [|by apply emits_ret].
  apply emits_last; [apply emits__run|]. intros _. by apply emits_ret.
Qed.

Lemma emits_json_step a r : emits [] (fun _ => True) (json_step a r).
Proof. unfold json_step, _ensure_dir. repeat quiet_step. Qed.

Lemma emits_main a : emits (planned a) (fun _ => True) (main a).
Proof.
  unfold main, planned. destruct (resolve a) as [[[rf rn] rd] rl].
  apply emits_then; [apply emits_os|]. intros _.
  eapply emits_bind; [apply emits_frame_step|]. intros r1 _.
  eapply emits_bind; [apply emits_pred_frames_step|]. intros d ->.
  eapply emits_bind.
  { pose proof (emits_niqe_step a rn
                  (if rn || rd then Some (pred_frames a) else None) r1) as Hn.
    by destruct rn. }
  intros r2 _. eapply emits_bind.
  { pose proof (emits_fid_step a rd
                  (if rn || rd then Some (pred_frames a) else None) r2) as Hf.
    by destruct rn, rd. }
  intros r3 _. apply emits_last; [apply emits_lse_step|].
  intros r4. apply emits_then; [apply emits_json_step|]. intros _.
  by apply emits_ret.
Qed.

End TraceFacts.

(** ** Exit codes *)

Section ExitFacts.

Context {W : Type} {HW : World W}.

Lemma coded_ret {A} (v : A) : coded (@ret W A v).
Proof. intros s n s'. unfold ret. discriminate. Qed.

Lemma coded_raise {A} e :
  (forall n, e <> SystemExit (Code n)) -> coded (@raise W A e).
Proof. intros He s n s' [= -> _]. by destruct (He n). Qed.

Lemma coded_bind {A B} (c : M W A) (k : A -> M W B) :
  coded c -> (forall v, coded (k v)) -> coded (bind c k).
Proof.
  intros Hc Hk s n s' Hb.
  apply bind_inv in Hb as [(v & s1 & _ & Hb) | (e & Hb & [= <-])].
  - by eapply Hk.
  - by eapply Hc.
Qed.

Lemma raised_not_exit {A} (r : os_res A) a : raised r <> Raise (SystemExit a).
Proof. by destruct r. Qed.

Lemma coded_os {A} (f : W -> os_res A * W) : coded (os f).
Proof.
  intros s n s'. unfold os. destruct (f (world s)) as [r w].
  intros [= Hr _]. by destruct (raised_not_exit r (Code n)).
Qed.

Lemma coded_exists p : coded (@exists_ W HW p).
Proof. intros s n s'. unfold exists_. discriminate. Qed.

Lemma coded_scan p t old : coded (@scan W p t old).
Proof.
  intros s n s'. unfold scan, ret, raise.
  destruct (Re.search p t); [destruct (Float.py_float _)|]; discriminate.
Qed.

Lemma coded_metric_of p t : coded (@metric_of W p t).
Proof.
  unfold metric_of. destruct (nonempty t); [apply coded_scan | apply coded_ret].
Qed.

(** The state in which [_run] and [_run_with_output] raise. *)
Lemma subprocess_exit cmd cwd (s : state W) rc out s1 :
  subprocess cmd cwd s = (Ret (rc, out), s1) ->
  (rc =? 0) = false ->
  rc <> 0
  /\ exists cmd' cwd' w0 out',
       spawn cmd' cwd' w0 = (Done (rc, out'), world s1)
       /\ last (trace s1) = Some (cmd', cwd').
Proof.
  unfold subprocess.
  destruct (spawn cmd cwd (world s)) as [[[rc' out']|what] w1] eqn:E;
    [|discriminate].
  intros [= -> -> <-] Hrc. split; [by apply Z.eqb_neq|].
  exists cmd, cwd, (world s), out. split; [done|]. simpl. apply last_snoc.
Qed.

Lemma coded__run cmd cwd allow_fail : coded (_run cmd cwd allow_fail).
Proof.
  intros s n s' Hr. unfold _run in Hr.
  apply bind_inv in Hr as [([rc out] & s1 & Hs & Hr) | (e & Hs & [= <-])].
  - simpl in Hr. destruct (rc =? 0) eqn:E0; simpl in Hr; [discriminate|].
    destruct allow_fail; simpl in Hr; [discriminate|].
    injection Hr as <- <-. by eapply subprocess_exit.
  - unfold subprocess in Hs. destruct (spawn cmd cwd (world s)) as [r w].
    injection Hs as Hr _. by destruct (raised_not_exit r (Code n)).
Qed.

Lemma coded__run_with_output cmd allow_fail :
  coded (_run_with_output cmd allow_fail).
Proof.
  intros s n s' Hr. unfold _run_with_output in Hr.
  apply bind_inv in Hr as [([rc out] & s1 & Hs & Hr) | (e & Hs & [= <-])].
  - destruct (rc =? 0) eqn:E0; simpl in Hr; [discriminate|].
    destruct allow_fail; simpl in Hr; [discriminate|].
    injection Hr as <- <-. by eapply subprocess_exit.
  - unfold subprocess in Hs. destruct (spawn cmd None (world s)) as [r w].
    injection Hs as Hr _. by destruct (raised_not_exit r (Code n)).
Qed.

Ltac coded_step :=
  first
    [ apply coded_ret
    | apply coded_os
    | apply coded_exists
    | apply coded_scan
    | apply coded_metric_of
    | apply coded__run
    | apply coded__run_with_output
    | by apply coded_raise
    | apply coded_bind; [|intros ?]
    | match goal with
      | |- coded (if ?b then _ else _) => destruct b
      | |- coded (match ?p with (_, _) => _ end) => destruct p
      end ].

Lemma coded_main a : coded (main a).
Proof.
  unfold main. destruct (resolve a) as [[[f n] d] l].
  unfold _ensure_dir, frame_step, pred_frames_step, niqe_step, fid_step,
    lse_step, lse_setup, lse_scores, json_step, fresh_frames,
    _extract_frames, _ensure_dir.
  repeat coded_step.
Qed.

Lemma stays_ret {A} (v : A) : stays (@ret W A v).
Proof. intros s a s'. unfold ret. discriminate. Qed.

Lemma stays_raise {A} e :
  (forall a, e <> SystemExit a) -> stays (@raise W A e).
Proof. intros He s a s' [= -> _]. by destruct (He a). Qed.

Lemma stays_bind {A B} (c : M W A) (k : A -> M W B) :
  stays c -> (forall v, stays (k v)) -> stays (bind c k).
Proof.
  intros Hc Hk s a s' Hb.
  apply bind_inv in Hb as [(v & s1 & _ & Hb) | (e & Hb & [= <-])].
  - by eapply Hk.
  - by eapply Hc.
Qed.

Lemma stays_os {A} (f : W -> os_res A * W) : stays (os f).
Proof.
  intros s a s'. unfold os. destruct (f (world s)) as [r w].
  intros [= Hr _]. by destruct (raised_not_exit r a).
Qed.

Lemma stays_exists p : stays (@exists_ W HW p).
Proof. intros s a s'. unfold exists_. discriminate. Qed.

Lemma stays_scan p t old : stays (@scan W p t old).
Proof.
  intros s a s'. unfold scan, ret, raise.
  destruct (Re.search p t); [destruct (Float.py_float _)|]; discriminate.
Qed.

Lemma stays_metric_of p t : stays (@metric_of W p t).
Proof.
  unfold metric_of. destruct (nonempty t); [apply stays_scan | apply stays_ret].
Qed.

(** With [allow_fail=True] no return code ends the run. *)
Lemma stays__run_with_output cmd : stays (_run_with_output cmd true).
Proof.
  intros s a s' Hr. unfold _run_with_output in Hr.
  apply bind_inv in Hr as [([rc out] & s1 & Hs & Hr) | (e & Hs & [= <-])].
  - rewrite andb_false_r in Hr. discriminate.
  - unfold subprocess in Hs. destruct (spawn cmd None (world s)) as [r w].
    injection Hs as Hr _. by destruct (raised_not_exit r a).
Qed.

Ltac stays_step :=
  first
    [ apply stays_ret
    | apply stays_os
    | apply stays_exists
    | apply stays_scan
    | apply stays_metric_of
    | apply stays__run_with_output
    | by apply stays_raise
    | apply stays_bind; [|intros ?]
    | match goal with
      | |- stays (if ?b then _ else _) => destruct b
      | |- stays (match ?p with (_, _) => _ end) => destruct p
      end ].

Lemma stays_niqe_step a b d r : stays (niqe_step a b d r).
Proof. unfold niqe_step. repeat stays_step. Qed.

Lemma stays_lse_scores a r : stays (lse_scores a r).
Proof. unfold lse_scores. repeat stays_step. Qed.

End ExitFacts.

(** X1. The subprocesses a run has started are always the first of those
    planned for the selected families, in the order of the plan; a run that
    completes has started all of them and nothing else. *)
Theorem run_follows_plan {W : Type} {HW : World W}
  (a : Args) (w : W) (res : res pydict) (s' : state W) :
  main a (start w) = (res, s') ->
  trace s' `prefix_of` planned a
  /\ (forall r, res = Ret r -> trace s' = planned a).
Proof.
  intros Hm. destruct (emits_main a _ _ _ Hm) as (l & Ht & Hl).
  simpl in Ht. subst l. split.
  - destruct res; [by destruct Hl as [-> _] | done].
  - intros r ->. by destruct Hl.
Qed.

(** A run of NIQE alone whose extraction of frames fails. *)
Lemma run_follows_plan_witness :
  let a := with_flags false true false false false
             (with_videos (Some "pred.mp4") None no_args) in
  let s' := snd (main a (start (Sim.empty_world [Sim.ends 2 []]))) in
  planned a
  = [(Argv ["/usr/bin/python3"; "evaluation/extract_frames.py"; "pred.mp4";
            "/repo/TalkingGaussian/evaluation/_work/pred_frames"],
      Some "/repo/TalkingGaussian");
     (niqe_command
        (Some "/repo/TalkingGaussian/evaluation/_work/pred_frames"), None)]
  /\ trace s' `prefix_of` planned a
  /\ (forall r,
         fst (main a (start (Sim.empty_world [Sim.ends 2 []]))) = Ret r ->
         trace s' = planned a).
Proof.
  intros a s'. split; [reflexivity|].
  refine (@run_follows_plan Sim.sim Sim.sim_world a
            (Sim.empty_world [Sim.ends 2 []])
            (fst (main a (start (Sim.empty_world [Sim.ends 2 []])))) s' _).
  subst s'. by destruct (main a (start (Sim.empty_world [Sim.ends 2 []]))).
Defined.

(** X2. When a run ends with [SystemExit] and a code, the code is not 0 and
    is the return code of the subprocess started last, and nothing has
    touched the world since that subprocess ended. *)
Theorem exit_code_is_return_code {W : Type} {HW : World W}
  (a : Args) (w : W) (n : Z) (s' : state W) :
  main a (start w) = (Raise (SystemExit (Code n)), s') ->
  n <> 0
  /\ exists cmd cwd w0 out,
       spawn cmd cwd w0 = (Done (n, out), world s')
       /\ last (trace s') = Some (cmd, cwd).
Proof. apply coded_main. Qed.

(** The frame-metrics script ends with return code 3. *)
Lemma exit_code_is_return_code_witness :
  let a := with_flags true false false false false
             (with_videos (Some "pred.mp4") (Some "gt.mp4") no_args) in
  let s' := snd (main a (start (Sim.empty_world [Sim.ends 3 []]))) in
  3 <> 0
  /\ exists cmd cwd w0 out,
       spawn cmd cwd w0 = (Done (3, out), world s')
       /\ last (trace s') = Some (cmd, cwd).
Proof.
  intros a s'.
  refine (@exit_code_is_return_code Sim.sim Sim.sim_world a
            (Sim.empty_world [Sim.ends 3 []]) 3 s' _).
  vm_compute. reflexivity.
Defined.

(** X3. The two best-effort steps never end the run with [SystemExit],
    whatever their subprocess returns: the NIQE step, and the LSE script with
    the reading of its scores. *)
Theorem best_effort_never_exits {W : Type} {HW : World W}
  (a : Args) (b : bool) (d : option string) (r : pydict) (s s' : state W)
  (x : exit_arg) :
  niqe_step a b d r s <> (Raise (SystemExit x), s')
  /\ lse_scores a r s <> (Raise (SystemExit x), s').
Proof. split; [apply stays_niqe_step | apply stays_lse_scores]. Qed.

(** ** Missing inputs and fatal failures *)

Section FatalFacts.

Context {W : Type} {HW : World W}.

(** A run that completes had every input its families need. *)
Lemma main_ret_inputs a (s : state W) r s' :
  main a s = (Ret r, s') -> lacks_input a = false.
Proof.
  unfold main, lacks_input. destruct (resolve a) as [[[rf rn] rd] rl].
  intros (u & s0 & _ & Hk)%bind_ret_inv.
  apply bind_ret_inv in Hk as (r1 & s1 & H1 & Hk).
  apply bind_ret_inv in Hk as (pfd & s2 & H2 & Hk).
  apply bind_ret_inv in Hk as (r2 & s3 & _ & Hk).
  apply bind_ret_inv in Hk as (r3 & s4 & H3 & Hk).
  apply bind_ret_inv in Hk as (r4 & s5 & H4 & _).
  unfold frame_step in H1. unfold pred_frames_step in H2.
  unfold fid_step in H3. unfold lse_step in H4.
  destruct (truthy (pred_video a)), (truthy (gt_video a)),
    (truthy (gen_videos_dir a)), rf, rn, rd, rl;
    simpl in *; try done.
Qed.

End FatalFacts.

(** X4. When a selected family lacks an input it needs, be the family
    selected by its flag or by what [--all] infers from a path that is given
    but empty, the run never completes: it ends with an exit status other
    than 0. *)
Theorem missing_input_is_fatal {W : Type} {HW : World W} {HL : WorldLaws W}
  (a : Args) (s : state W) (res : res pydict) (s' : state W) :
  lacks_input a = true ->
  main a s = (res, s') ->
  exists e, res = Raise e /\ exit_status e <> 0.
Proof.
  intros Hl Hm. destruct res as [r|e].
  - apply main_ret_inputs in Hm. congruence.
  - exists e. split; [done|]. by eapply loud_main.
Qed.

(** [--all] with a predicted video whose path is empty: NIQE is selected and
    cannot run. *)
Lemma missing_input_is_fatal_witness :
  let a := with_flags false false false false true
             (with_videos (Some EmptyString) None no_args) in
  let s := start (Sim.empty_world []) in
  resolve a = (false, true, false, false)
  /\ exists e, fst (main a s) = Raise e /\ exit_status e <> 0.
Proof.
  intros a s. split; [reflexivity|].
  refine (@missing_input_is_fatal Sim.sim Sim.sim_world SimFacts.sim_laws
            a s (fst (main a s)) (snd (main a s)) eq_refl _).
  by destruct (main a s).
Defined.

(** X5. The first test of inputs comes before every subprocess. When the
    frame metrics are selected and a video is missing, and when they are not
    selected, NIQE or FID is, and the predicted video is missing, the run
    ends with the message of that test, or with the failure of creating the
    working directory, and has started no subprocess. *)
Theorem first_input_test_starts_nothing {W : Type} {HW : World W}
  (a : Args) (w : W) (res : res pydict) (s' : state W) :
  main a (start w) = (res, s') ->
  let '(run_frame, run_niqe, run_fid, _) := resolve a in
  (run_frame = true ->
   truthy (pred_video a) && truthy (gt_video a) = false ->
   trace s' = []
   /\ (res = Raise (SystemExit
                      (Msg "--frame requires --pred-video and --gt-video"))
       \/ exists what, res = Raise (OSError what)))
  /\ (run_frame = false -> run_niqe || run_fid = true ->
      truthy (pred_video a) = false ->
      trace s' = []
      /\ (res = Raise (SystemExit (Msg "--niqe/--fid require --pred-video"))
          \/ exists what, res = Raise (OSError what))).
Proof.
  intros Hm. unfold main in Hm. destruct (resolve a) as [[[rf rn] rd] rl].
  unfold bind at 1, _ensure_dir, os in Hm.
  destruct (makedirs (work_dir a) (world (start w))) as [[[]|what] w1];
    simpl in Hm.
  2: { injection Hm as <- <-. split; intros; (split; [done | right; by eexists]). }
  split.
  - intros -> Hv. unfold bind at 1, frame_step in Hm.
    assert (Hg : negb (truthy (pred_video a)) || negb (truthy (gt_video a))
                 = true)
      by by destruct (truthy (pred_video a)), (truthy (gt_video a)).
    rewrite Hg in Hm. injection Hm as <- <-. split; [done | by left].
  - intros -> Hsel Hv. unfold bind at 1, frame_step in Hm. simpl in Hm.
    unfold bind at 1, pred_frames_step in Hm. rewrite Hsel, Hv in Hm.
    injection Hm as <- <-. split; [done | by left].
Qed.

(** [--niqe] without any video. *)
Lemma first_input_test_starts_nothing_witness :
  let a := with_flags false true false false false no_args in
  let res := fst (main a (start (Sim.empty_world []))) in
  let s' := snd (main a (start (Sim.empty_world []))) in
  trace s' = []
  /\ (res = Raise (SystemExit (Msg "--niqe/--fid require --pred-video"))
      \/ exists what, res = Raise (OSError what)).
Proof.
  intros a res s'.
  refine (proj2 (@first_input_test_starts_nothing Sim.sim Sim.sim_world a
                   (Sim.empty_world []) res s' _) eq_refl eq_refl eq_refl).
  subst res s'. by destruct (main a (start (Sim.empty_world []))).
Defined.

(** X6. A failure of the frame-metrics script is fatal: when it ends with a
    return code other than 0, the run ends with [SystemExit] and that code,
    nothing is added to the summary, and no other subprocess is started. *)
Theorem frame_failure_is_fatal {W : Type} {HW : World W}
  (a : Args) (w w1 w2 : W) (rc : Z) (out : text) :
  fst (fst (fst (resolve a))) = true ->
  truthy (pred_video a) = true -> truthy (gt_video a) = true ->
  makedirs (work_dir a) w = (Done tt, w1) ->
  spawn (frame_command a) None w1 = (Done (rc, out), w2) ->
  rc <> 0 ->
  main a (start w)
  = (Raise (SystemExit (Code rc)),
     {| world := w2; trace := [(frame_command a, None)] |}).
Proof.
  intros Hf Hp Hg Hmk Hsp Hrc. unfold main.
  destruct (resolve a) as [[[rf rn] rd] rl]. simpl in Hf. subst rf.
  unfold bind at 1, _ensure_dir, os. simpl. rewrite Hmk. simpl.
  unfold bind at 1, frame_step. rewrite Hp, Hg. simpl.
  unfold bind at 1, _run_with_output, bind, subprocess. simpl. rewrite Hsp.
  simpl. apply Z.eqb_neq in Hrc. by rewrite Hrc.
Qed.

(** The frame-metrics script ends with return code 3. *)
Lemma frame_failure_is_fatal_witness :
  let a := with_flags true true false false false
             (with_videos (Some "pred.mp4") (Some "gt.mp4") no_args) in
  let w := Sim.empty_world [Sim.ends 3 (T "PSNR = 31.2")] in
  exists w2,
    main a (start w)
    = (Raise (SystemExit (Code 3)),
       {| world := w2; trace := [(frame_command a, None)] |}).
Proof.
  intros a w. eexists.
  refine (@frame_failure_is_fatal Sim.sim Sim.sim_world a w _ _ 3
            (T "PSNR = 31.2") eq_refl eq_refl eq_refl _ _ _).
  - reflexivity.
  - reflexivity.
  - discriminate.
Defined.

(** ** The families inferred from the inputs *)

Section MuteFacts.

Context {W : Type} {HW : World W}.

Lemma mute_ret {A} (v : A) : mute (@ret W A v).
Proof. intros s m s'. unfold ret. discriminate. Qed.

Lemma mute_raise {A} e :
  (forall m, e <> SystemExit (Msg m)) -> mute (@raise W A e).
Proof. intros He s m s' [= -> _]. by destruct (He m). Qed.

Lemma mute_bind {A B} (c : M W A) (k : A -> M W B) :
  mute c -> (forall v, mute (k v)) -> mute (bind c k).
Proof.
  intros Hc Hk s m s' Hb.
  apply bind_inv in Hb as [(v & s1 & _ & Hb) | (e & Hb & [= <-])].
  - by eapply Hk.
  - by eapply Hc.
Qed.

Lemma mute_os {A} (f : W -> os_res A * W) : mute (os f).
Proof.
  intros s m s'. unfold os. destruct (f (world s)) as [r w].
  intros [= Hr _]. by destruct (raised_not_exit r (Msg m)).
Qed.

Lemma mute_exists p : mute (@exists_ W HW p).
Proof. intros s m s'. unfold exists_. discriminate. Qed.

Lemma mute_scan p t old : mute (@scan W p t old).
Proof.
  intros s m s'. unfold scan, ret, raise.
  destruct (Re.search p t); [destruct (Float.py_float _)|]; discriminate.
Qed.

Lemma mute_metric_of p t : mute (@metric_of W p t).
Proof.
  unfold metric_of. destruct (nonempty t); [apply mute_scan | apply mute_ret].
Qed.

Lemma mute_subprocess cmd cwd : mute (subprocess cmd cwd).
Proof.
  intros s m s'. unfold subprocess.
  destruct (spawn cmd cwd (world s)) as [r w].
  intros [= Hr _]. by destruct (raised_not_exit r (Msg m)).
Qed.

(** A subprocess that fails ends the run with its return code, not with a
    message. *)
Lemma mute__run cmd cwd allow_fail : mute (_run cmd cwd allow_fail).
Proof.
  unfold _run. apply mute_bind; [apply mute_subprocess|]. intros [rc out].
  destruct (negb _ && negb _); [by apply mute_raise | apply mute_ret].
Qed.

Lemma mute__run_with_output cmd allow_fail :
  mute (_run_with_output cmd allow_fail).
Proof.
  unfold _run_with_output. apply mute_bind; [apply mute_subprocess|].
  intros [rc out].
  destruct (negb _ && negb _); [by apply mute_raise | apply mute_ret].
Qed.

Ltac mute_step :=
  first
    [ apply mute_ret
    | apply mute_os
    | apply mute_exists
    | apply mute_scan
    | apply mute_metric_of
    | apply mute__run
    | apply mute__run_with_output
    | apply mute_bind; [|intros ?]
    | match goal with
      | |- mute (if ?b then _ else _) => destruct b
      | |- mute (match ?p with (_, _) => _ end) => destruct p
      end ].

(** The four tests of inputs are the only places that end the run with a
    message: a run whose selected families have their inputs never does. *)
Lemma mute_main a : lacks_input a = false -> mute (main a).
Proof.
  unfold main, lacks_input. destruct (resolve a) as [[[rf rn] rd] rl].
  intros Hl.
  assert (Hf : rf = true -> truthy (pred_video a) = true
                            /\ truthy (gt_video a) = true).
  { intros ->. by destruct (truthy (pred_video a)), (truthy (gt_video a)). }
  assert (Hp : rn || rd = true -> truthy (pred_video a) = true).
  { intros Hn. rewrite Hn in Hl.
    by destruct rf, (truthy (pred_video a)), (truthy (gt_video a)). }
  assert (Hg : rd = true -> truthy (gt_video a) = true).
  { intros ->.
    by destruct rf, rn, (truthy (pred_video a)), (truthy (gt_video a)). }
  assert (Hd : rl = true -> truthy (gen_videos_dir a) = true).
  { intros ->.
    destruct (truthy (gen_videos_dir a)); [done|].
    rewrite !orb_true_r in Hl. discriminate. }
  clear Hl.
  apply mute_bind; [apply mute_os|]. intros _.
  apply mute_bind.
  { unfold frame_step. destruct rf; [|apply mute_ret].
    destruct (Hf eq_refl) as [-> ->]. simpl. repeat mute_step. }
  intros r1. apply mute_bind.
  { unfold pred_frames_step. destruct (rn || rd); [|apply mute_ret].
    rewrite (Hp eq_refl). simpl.
    unfold fresh_frames, _extract_frames. repeat mute_step. }
  intros pfd. apply mute_bind.
  { unfold niqe_step. repeat mute_step. }
  intros r2. apply mute_bind.
  { unfold fid_step. destruct rd; [|apply mute_ret].
    rewrite (Hg eq_refl). simpl.
    unfold fresh_frames, _extract_frames. repeat mute_step. }
  intros r3. apply mute_bind.
  { unfold lse_step. destruct rl; [|apply mute_ret].
    rewrite (Hd eq_refl). simpl. unfold lse_setup, lse_scores.
    repeat mute_step. }
  intros r4. unfold json_step, _ensure_dir. repeat mute_step.
Qed.

(** The plan of a run whose families are inferred, by the inputs. *)
Lemma planned_inferred a :
  all a = true \/ frame a || niqe a || fid a || lse a = false ->
  planned a
  = (if given (pred_video a) && given (gt_video a)
     then [(frame_command a, None)] else [])
      ++ (if given (pred_video a)
          then [(extract_command executable
                   (default EmptyString (pred_video a)) (pred_frames a)
                   (fps a), Some _project_root);
                (niqe_command (Some (pred_frames a)), None)]
          else [])
      ++ (if given (pred_video a) && given (gt_video a)
          then [(extract_command executable
                   (default EmptyString (gt_video a)) (gt_frames a) (fps a),
                 Some _project_root);
                (fid_command a (Some (pred_frames a)) (gt_frames a), None)]
          else [])
      ++ (if given (gen_videos_dir a)
          then (if setup_lse a then [(setup_command, Some _project_root)]
                else [])
                 ++ [(lse_command a, None)]
          else []).
Proof.
  intros Hsel. unfold planned. rewrite (resolve_inferred a Hsel).
  by destruct (given (pred_video a)), (given (gt_video a)).
Qed.

(** With inferred families, an input is lacking only when a path is given
    as the empty string. *)
Lemma lacks_input_inferred a :
  all a = true \/ frame a || niqe a || fid a || lse a = false ->
  lacks_input a = true ->
  pred_video a = Some EmptyString \/ gt_video a = Some EmptyString
  \/ gen_videos_dir a = Some EmptyString.
Proof.
  intros Hsel. unfold lacks_input. rewrite (resolve_inferred a Hsel).
  destruct (pred_video a) as [[|x p]|], (gt_video a) as [[|y g]|],
    (gen_videos_dir a) as [[|z v]|]; simpl; intros Hl; try discriminate;
    auto.
Qed.

End MuteFacts.

(** C4, as the spec states it, fails for the families executed. A path
    given as the empty string counts as given when the families are
    inferred (line 155) and as missing when the family is about to run
    (line 205): NIQE is inferred and the run ends with the message of the
    test before any subprocess, so that LSE, whose directory is given, is
    never run. And the run ends at the first fatal failure: when the
    frame-metrics script fails, NIQE and FID are not run although both
    videos are given. *)
Lemma inferred_families_counterexample :
  let a := with_gen_videos_dir (Some "videos")
             (with_videos (Some EmptyString) None no_args) in
  let b := with_videos (Some "pred.mp4") (Some "gt.mp4") no_args in
  let end_a := main a (start (Sim.empty_world [])) in
  let end_b := main b (start (Sim.empty_world [Sim.ends 1 []])) in
  (resolve a = (false, true, false, true)
   /\ fst end_a = Raise (SystemExit (Msg "--niqe/--fid require --pred-video"))
   /\ trace (snd end_a) = [])
  /\ (resolve b = (true, true, true, false)
      /\ fst end_b = Raise (SystemExit (Code 1))
      /\ trace (snd end_b) = [(frame_command b, None)]).
Proof. vm_compute. repeat split. Qed.

(** C4, amended. When no selector flag is set, or [--all] is set, the
    families selected are those the inputs allow: frame and FID when both
    videos are given, NIQE when the predicted video is given, LSE when the
    directory of generated videos is given, where a path is given when it is
    not [None]. A run that completes has started the subprocesses of
    exactly these families, in the order frame, NIQE, FID, LSE, and its
    summary has exactly their keys. A run that ends early has started the
    first of these subprocesses and no other; it ends with a message about
    a missing input only when a path is given as the empty string. *)
Theorem inferred_families_run {W : Type} {HW : World W}
  (a : Args) (w : W) (res : res pydict) (s' : state W) :
  all a = true \/ frame a || niqe a || fid a || lse a = false ->
  main a (start w) = (res, s') ->
  let both := given (pred_video a) && given (gt_video a) in
  let inferred :=
    (both, given (pred_video a), both, given (gen_videos_dir a)) in
  let plan :=
    (if both then [(frame_command a, None)] else [])
      ++ (if given (pred_video a)
          then [(extract_command executable
                   (default EmptyString (pred_video a)) (pred_frames a)
                   (fps a), Some _project_root);
                (niqe_command (Some (pred_frames a)), None)]
          else [])
      ++ (if both
          then [(extract_command executable
                   (default EmptyString (gt_video a)) (gt_frames a) (fps a),
                 Some _project_root);
                (fid_command a (Some (pred_frames a)) (gt_frames a), None)]
          else [])
      ++ (if given (gen_videos_dir a)
          then (if setup_lse a then [(setup_command, Some _project_root)]
                else [])
                 ++ [(lse_command a, None)]
          else []) in
  resolve a = inferred
  /\ trace s' `prefix_of` plan
  /\ (forall r, res = Ret r -> trace s' = plan /\ keys r = families inferred)
  /\ (forall m,
         res = Raise (SystemExit (Msg m)) ->
         pred_video a = Some EmptyString \/ gt_video a = Some EmptyString
         \/ gen_videos_dir a = Some EmptyString).
Proof.
  intros Hsel Hm both inferred plan.
  pose proof (resolve_inferred a Hsel) as Hres.
  pose proof (planned_inferred a Hsel) as Hplan. fold both plan in Hplan.
  destruct (emits_main a _ _ _ Hm) as (l & Ht & Hl). simpl in Ht. subst l.
  rewrite Hplan in Hl. split; [done|]. split; [|split].
  - destruct res; [by destruct Hl as [-> _] | done].
  - intros r ->. destruct Hl as [Hl _]. split; [done|].
    rewrite (main_keys _ _ _ _ Hm). by rewrite Hres.
  - intros m ->. apply (lacks_input_inferred a Hsel).
    destruct (lacks_input a) eqn:El; [done|].
    by destruct (mute_main a El _ _ _ Hm).
Qed.

(** Both videos and no flag: frame, NIQE and FID run, and every script
    succeeds. *)
Lemma inferred_families_run_witness :
  let a := with_videos (Some "pred.mp4") (Some "gt.mp4") no_args in
  let w := Sim.empty_world
             [Sim.prints (T "PSNR = 31.2"); Sim.extracts [];
              Sim.prints (T "NIQE (pyiqa) = 5.3"); Sim.extracts [];
              Sim.prints (T "FID (clean-fid) = 12.345")] in
  let s' := snd (main a (start w)) in
  let frames := "/repo/TalkingGaussian/evaluation/_work/pred_frames" in
  let gt := "/repo/TalkingGaussian/evaluation/_work/gt_frames" in
  let plan :=
    [(frame_command a, None);
     (extract_command executable "pred.mp4" frames None, Some _project_root);
     (niqe_command (Some frames), None);
     (extract_command executable "gt.mp4" gt None, Some _project_root);
     (fid_command a (Some frames) gt, None)] in
  resolve a = (true, true, true, false)
  /\ trace s' `prefix_of` plan
  /\ (forall r,
         fst (main a (start w)) = Ret r ->
         trace s' = plan /\ keys r = ["frame"; "niqe"; "fid"])
  /\ (forall m,
         fst (main a (start w)) = Raise (SystemExit (Msg m)) ->
         pred_video a = Some EmptyString \/ gt_video a = Some EmptyString
         \/ gen_videos_dir a = Some EmptyString).
Proof.
  intros a w s' frames gt plan.
  refine (@inferred_families_run Sim.sim Sim.sim_world a w
            (fst (main a (start w))) s' (or_intror eq_refl) _).
  subst s'. by destruct (main a (start w)).
Defined.

(** ** What the summary holds *)

Section RecordFacts.

Context {W : Type} {HW : World W}.

Lemma scan_ret_inv p t old (s : state W) v s' :
  scan p t old s = (Ret v, s') ->
  s' = s
  /\ ((Re.search p t = None /\ v = old)
      \/ exists g x,
           Re.search p t = Some g /\ Float.py_float g = Some x /\ v = Some x).
Proof.
  unfold scan. destruct (Re.search p t) as [g|].
  - destruct (Float.py_float g) as [x|] eqn:E; [|discriminate].
    intros [-> ->]%ret_inv. split; [done|]. right. by exists g, x.
  - intros [-> ->]%ret_inv. split; [done|]. by left.
Qed.

Lemma run_with_output_ret cmd allow_fail (s : state W) rc out s' :
  _run_with_output cmd allow_fail s = (Ret (rc, out), s') ->
  exists w',
    spawn cmd None (world s) = (Done (rc, out), w')
    /\ s' = after s cmd None w'.
Proof.
  unfold _run_with_output.
  intros ([rc' out'] & s1 & Hs & Hk)%bind_ret_inv.
  destruct (negb (rc' =? 0) && negb allow_fail); [discriminate|].
  apply ret_inv in Hk as [[= -> ->] ->].
  unfold subprocess in Hs.
  destruct (spawn cmd None (world s)) as [[[rc1 out1]|what] w'];
    [|discriminate].
  injection Hs as -> -> <-. by exists w'.
Qed.

Lemma pred_frames_step_ret a (b1 b2 : bool) (s : state W) d s' :
  pred_frames_step a b1 b2 s = (Ret d, s') ->
  d = if b1 || b2 then Some (pred_frames a) else None.
Proof.
  intros Hp. destruct (emits_pred_frames_step a b1 b2 _ _ _ Hp) as (l & _ & Hl).
  by destruct Hl.
Qed.

Lemma fid_step_ret_dirs a (b : bool) d r (s : state W) r' s' :
  fid_step a b d r s = (Ret r', s') ->
  exists v, r' = upd b "fid" (fid_record a d (gt_frames a) v) r.
Proof.
  unfold fid_step. destruct b; simpl.
  2: { intros [-> _]%ret_inv. by exists None. }
  destruct (negb (truthy (gt_video a))); [discriminate|].
  intros (u & s1 & _ & Hk)%bind_ret_inv.
  apply bind_ret_inv in Hk as (p & s2 & _ & Hk).
  apply bind_ret_inv in Hk as (v & s3 & _ & [-> _]%ret_inv).
  by exists v.
Qed.

End RecordFacts.

(** X7. The summary of a run that completes holds, for each selected family
    and in the order frame, niqe, fid, lse, the record of that family with
    its fixed fields, and nothing else. The options are recorded as they were
    chosen; [frames_dir] of niqe and [gen_frames] of fid are the directory
    [pred_frames] of the working directory, and [gt_frames] of fid is its
    directory [gt_frames]. *)
Theorem summary_has_the_records {W : Type} {HW : World W}
  (a : Args) (w : W) (r : pydict) (s' : state W) :
  main a (start w) = (Ret r, s') ->
  exists psnr_val ssim_val lpips_val ret_ niqe_val fid_val lse_c lse_d,
    r = upd (snd (resolve a)) "lse" (lse_record a lse_c lse_d)
          (upd (snd (fst (resolve a))) "fid"
             (fid_record a (Some (pred_frames a)) (gt_frames a) fid_val)
             (upd (snd (fst (fst (resolve a)))) "niqe"
                (niqe_record (Some (pred_frames a)) ret_ niqe_val)
                (upd (fst (fst (fst (resolve a)))) "frame"
                   (frame_record a psnr_val ssim_val lpips_val) []))).
Proof.
  unfold main. destruct (resolve a) as [[[rf rn] rd] rl]. simpl.
  intros (u & s0 & _ & Hk)%bind_ret_inv.
  apply bind_ret_inv in Hk as (r1 & s1 & H1 & Hk).
  apply bind_ret_inv in Hk as (pfd & s2 & H2 & Hk).
  apply bind_ret_inv in Hk as (r2 & s3 & H3 & Hk).
  apply bind_ret_inv in Hk as (r3 & s4 & H4 & Hk).
  apply bind_ret_inv in Hk as (r4 & s5 & H5 & Hk).
  apply bind_ret_inv in Hk as ([] & s6 & _ & [-> _]%ret_inv).
  apply frame_step_ret in H1 as (p & q & l & -> & _).
  apply pred_frames_step_ret in H2 as ->.
  apply niqe_step_ret in H3 as (rc & v & ->).
  apply fid_step_ret_dirs in H4 as (x & ->).
  apply lse_step_ret in H5 as (c & d & ->).
  exists p, q, l, rc, v, x, c, d. by destruct rn, rd.
Qed.

(** Both videos, no flag, every script succeeds. *)
Lemma summary_has_the_records_witness :
  let a := with_videos (Some "pred.mp4") (Some "gt.mp4") no_args in
  let w := Sim.empty_world
             [Sim.prints (T "PSNR = 31.2"); Sim.extracts [];
              Sim.prints (T "NIQE (pyiqa) = 5.3"); Sim.extracts [];
              Sim.prints (T "FID (clean-fid) = 12.345")] in
  let r := default [] (match fst (main a (start w)) with
                       | Ret r => Some r
                       | Raise _ => None
                       end) in
  keys r = ["frame"; "niqe"; "fid"]
  /\ exists psnr_val ssim_val lpips_val ret_ niqe_val fid_val lse_c lse_d,
       r = upd (snd (resolve a)) "lse" (lse_record a lse_c lse_d)
             (upd (snd (fst (resolve a))) "fid"
                (fid_record a (Some (pred_frames a)) (gt_frames a) fid_val)
                (upd (snd (fst (fst (resolve a)))) "niqe"
                   (niqe_record (Some (pred_frames a)) ret_ niqe_val)
                   (upd (fst (fst (fst (resolve a)))) "frame"
                      (frame_record a psnr_val ssim_val lpips_val) []))).
Proof.
  intros a w r. split; [by vm_compute|].
  refine (@summary_has_the_records Sim.sim Sim.sim_world a w r
            (snd (main a (start w))) _).
  vm_compute. reflexivity.
Defined.

(** X8. A NIQE step that returns has run its script once; the record it
    stores has [frames_dir] as passed to the script, [ok] true exactly when
    the return code is 0, and as [NIQE] the float of the first match in the
    output, or [None] when there is no match. *)
Theorem niqe_step_records_the_run {W : Type} {HW : World W}
  (a : Args) (d : option string) (r : pydict) (s : state W)
  (r' : pydict) (s' : state W) :
  niqe_step a true d r s = (Ret r', s') ->
  exists rc out w',
    spawn (niqe_command d) None (world s) = (Done (rc, out), w')
    /\ s' = after s (niqe_command d) None w'
    /\ r' = dict_set "niqe"
              (VDict [("frames_dir", of_str d);
                      ("ok", VBool (rc =? 0));
                      ("NIQE",
                       of_float (Re.search Re.niqe out ≫= Float.py_float))])
              r.
Proof.
  unfold niqe_step.
  intros ([rc out] & s1 & Hs & Hk)%bind_ret_inv.
  apply run_with_output_ret in Hs as (w' & Hs & ->).
  apply bind_ret_inv in Hk as (v & s2 & Hv & [-> ->]%ret_inv).
  exists rc, out, w'. split; [done|].
  assert (Hval : s2 = after s (niqe_command d) None w'
                 /\ v = Re.search Re.niqe out ≫= Float.py_float).
  { unfold metric_of in Hv. destruct out as [|c out]; simpl nonempty in Hv.
    - by apply ret_inv in Hv as [-> ->].
    - apply scan_ret_inv in Hv as [-> [[-> ->] | (g & x & -> & Hx & ->)]];
        by rewrite ?Hx. }
  destruct Hval as [-> ->]. done.
Qed.

(** The script prints a value and ends with return code 1. *)
Lemma niqe_step_records_the_run_witness :
  let a := with_flags false true false false false
             (with_videos (Some "pred.mp4") None no_args) in
  let s := start (Sim.empty_world [Sim.ends 1 (T "NIQE (pyiqa) = 5.3")]) in
  let r' := [("niqe", VDict [("frames_dir", VStr "frames");
                             ("ok", VBool false);
                             ("NIQE", of_float (Float.py_float (T "5.3")))])] in
  exists rc out w',
    spawn (niqe_command (Some "frames")) None (world s) = (Done (rc, out), w')
    /\ snd (niqe_step a true (Some "frames") [] s)
       = after s (niqe_command (Some "frames")) None w'
    /\ r' = dict_set "niqe"
              (VDict [("frames_dir", of_str (Some "frames"));
                      ("ok", VBool (rc =? 0));
                      ("NIQE",
                       of_float (Re.search Re.niqe out ≫= Float.py_float))])
              [].
Proof.
  intros a s r'.
  refine (@niqe_step_records_the_run Sim.sim Sim.sim_world a (Some "frames")
            [] s r' (snd (niqe_step a true (Some "frames") [] s)) _).
  vm_compute. reflexivity.
Defined.

(** ** The LSE scores: output first, then the file *)

Section LseFacts.

Context {W : Type} {HW : World W}.

Lemma scan_found p t old (s : state W) g x :
  Re.search p t = Some g -> Float.py_float g = Some x ->
  scan p t old s = (Ret (Some x), s).
Proof. unfold scan. by intros -> ->. Qed.

Lemma lse_scores_ret_inv a r (s : state W) rc out w' r' s' :
  spawn (lse_command a) None (world s) = (Done (rc, out), w') ->
  lse_scores a r s = (Ret r', s') ->
  exists c0 d0 c d,
    found Re.lse_c out c0 /\ found Re.lse_d out d0
    /\ (c0 <> None -> c = c0) /\ (d0 <> None -> d = d0)
    /\ r' = dict_set "lse" (lse_record a c d) r.
Proof.
  intros Hs Hl. unfold lse_scores in Hl.
  rewrite (bind_ret _ _ _ _ _ (run_with_output_allowed _ _ _ _ _ Hs)) in Hl.
  simpl snd in Hl.
  apply bind_ret_inv in Hl as ([c0 d0] & s1 & H0 & Hl).
  apply bind_ret_inv in Hl as (e & s2 & _ & Hl).
  apply bind_ret_inv in Hl as ([c d] & s3 & Hv & [-> _]%ret_inv).
  exists c0, d0, c, d.
  assert (Hf : found Re.lse_c out c0 /\ found Re.lse_d out d0).
  { destruct out as [|ch out]; simpl nonempty in H0.
    - apply ret_inv in H0 as [[= -> ->] _]. split; by left.
    - apply bind_ret_inv in H0 as (x & t1 & Hc & H0).
      apply bind_ret_inv in H0 as (y & t2 & Hd & [[= -> ->] _]%ret_inv).
      apply scan_ret_inv in Hc as [_ Hc]. apply scan_ret_inv in Hd as [_ Hd].
      done. }
  destruct Hf as [Hc Hd]. repeat split; try done.
  - intros Hne. destruct e.
    + apply bind_ret_inv in Hv as (txt & t1 & _ & Hv).
      apply bind_ret_inv in Hv as (x & t2 & Hx & Hv).
      apply bind_ret_inv in Hv as (y & t3 & _ & [[= -> ->] _]%ret_inv).
      destruct c0; [|done]. by apply ret_inv in Hx as [-> _].
    + by apply ret_inv in Hv as [[= -> ->] _].
  - intros Hne. destruct e.
    + apply bind_ret_inv in Hv as (txt & t1 & _ & Hv).
      apply bind_ret_inv in Hv as (x & t2 & _ & Hv).
      apply bind_ret_inv in Hv as (y & t3 & Hy & [[= -> ->] _]%ret_inv).
      destruct d0; [|done]. by apply ret_inv in Hy as [-> _].
    + by apply ret_inv in Hv as [[= -> ->] _].
Qed.

End LseFacts.

(** X9. A score found in the output of the LSE script is never replaced by
    the file of scores: when the reading of the scores returns and the output
    has a match for LSE-C, the record holds the float of that match, whatever
    the file holds; and the same for LSE-D. *)
Theorem lse_output_comes_first {W : Type} {HW : World W}
  (a : Args) (r : pydict) (s : state W) (rc : Z) (out : text) (w' : W)
  (r' : pydict) (s' : state W) :
  spawn (lse_command a) None (world s) = (Done (rc, out), w') ->
  lse_scores a r s = (Ret r', s') ->
  (forall g, Re.search Re.lse_c out = Some g ->
             exists x d, Float.py_float g = Some x
                         /\ r' = dict_set "lse" (lse_record a (Some x) d) r)
  /\ (forall g, Re.search Re.lse_d out = Some g ->
                exists x c, Float.py_float g = Some x
                            /\ r' = dict_set "lse" (lse_record a c (Some x)) r).
Proof.
  intros Hs Hl.
  destruct (lse_scores_ret_inv _ _ _ _ _ _ _ _ Hs Hl)
    as (c0 & d0 & c & d & Hc & Hd & Hkc & Hkd & ->).
  split; intros g Hg.
  - destruct Hc as [[Hn _] | (g' & x & Hg' & Hx & ->)]; [congruence|].
    rewrite Hg in Hg'. injection Hg' as <-. exists x, d. split; [done|].
    by rewrite Hkc.
  - destruct Hd as [[Hn _] | (g' & x & Hg' & Hx & ->)]; [congruence|].
    rewrite Hg in Hg'. injection Hg' as <-. exists x, c. split; [done|].
    by rewrite Hkd.
Qed.

(** The output has LSE-C, the file has other values for both scores. *)
Lemma lse_output_comes_first_witness :
  let a := with_flags false false false true false
             (with_gen_videos_dir (Some "videos") no_args) in
  let scores :=
    "/repo/TalkingGaussian/third_party/syncnet_python/all_scores.txt" in
  let w := {| Sim.files :=
                {[ scores := Sim.TextFile (T "LSE-C = 1.5 LSE-D = 9.25") ]};
              Sim.replies := [Sim.prints (T "LSE-C = 7.5")] |} in
  fst (lse_scores a [] (start w))
  = Ret [("lse", lse_record a (Float.py_float (T "7.5"))
                   (Float.py_float (T "9.25")))]
  /\ exists x d, Float.py_float (T "7.5") = Some x
                 /\ [("lse", lse_record a (Float.py_float (T "7.5"))
                               (Float.py_float (T "9.25")))]
                    = dict_set "lse" (lse_record a (Some x) d) [].
Proof.
  intros a scores w. split; [by vm_compute|].
  refine (proj1 (@lse_output_comes_first Sim.sim Sim.sim_world a [] (start w)
                   0 (T "LSE-C = 7.5")
                   {| Sim.files := Sim.files w; Sim.replies := [] |}
                   _ (snd (lse_scores a [] (start w))) _ _) (T "7.5") _).
  - vm_compute. reflexivity.
  - vm_compute. reflexivity.
  - vm_compute. reflexivity.
Defined.

(** X10. When the output of the LSE script has both scores, the file of
    scores is not looked at: the step returns both floats and leaves the
    world as the script left it, whether or not the file exists or can be
    read. *)
Theorem lse_complete_output_skips_file {W : Type} {HW : World W}
  (a : Args) (r : pydict) (s : state W) (rc : Z) (out : text) (w' : W)
  (gc gd : text) (x y : Float.pyfloat) :
  spawn (lse_command a) None (world s) = (Done (rc, out), w') ->
  Re.search Re.lse_c out = Some gc -> Float.py_float gc = Some x ->
  Re.search Re.lse_d out = Some gd -> Float.py_float gd = Some y ->
  lse_scores a r s
  = (Ret (dict_set "lse" (lse_record a (Some x) (Some y)) r),
     after s (lse_command a) None w').
Proof.
  intros Hs Hc Hx Hd Hy. unfold lse_scores.
  rewrite (bind_ret _ _ _ _ _ (run_with_output_allowed _ _ _ _ _ Hs)).
  simpl snd. unfold bind at 1.
  assert (Hout : (if nonempty out
                  then bind (scan Re.lse_c out None)
                         (fun c => bind (scan Re.lse_d out None)
                                     (fun d => ret (c, d)))
                  else ret (None, None)) (after s (lse_command a) None w')
                 = (Ret (Some x, Some y), after s (lse_command a) None w')).
  { assert (nonempty out = true) as -> by (by destruct out).
    rewrite (bind_ret _ _ _ _ _ (scan_found _ _ _ _ _ _ Hc Hx)).
    by rewrite (bind_ret _ _ _ _ _ (scan_found _ _ _ _ _ _ Hd Hy)). }
  by rewrite Hout.
Qed.

(** Both scores in the output, and a directory where the file would be. *)
Lemma lse_complete_output_skips_file_witness :
  let a := with_flags false false false true false
             (with_gen_videos_dir (Some "videos") no_args) in
  let scores :=
    "/repo/TalkingGaussian/third_party/syncnet_python/all_scores.txt" in
  let w := {| Sim.files := {[ scores := Sim.Dir ]};
              Sim.replies := [Sim.ends 1 (T "LSE-C = 7.5 LSE-D = 6.25")] |} in
  exists x y,
    lse_scores a [] (start w)
    = (Ret (dict_set "lse" (lse_record a (Some x) (Some y)) []),
       after (start w) (lse_command a) None
         {| Sim.files := Sim.files w; Sim.replies := [] |}).
Proof.
  intros a scores w. eexists _, _.
  refine (@lse_complete_output_skips_file Sim.sim Sim.sim_world a [] (start w)
            1 (T "LSE-C = 7.5 LSE-D = 6.25")
            {| Sim.files := Sim.files w; Sim.replies := [] |}
            (T "7.5") (T "6.25") _ _ _ _ _ _ _).
  - vm_compute. reflexivity.
  - vm_compute. reflexivity.
  - vm_compute. reflexivity.
  - vm_compute. reflexivity.
  - vm_compute. reflexivity.
Defined.

(** X11. When the output of the LSE script has neither score and the file of
    scores exists, the file is read and both scores are scanned in its text,
    LSE-C first: the step returns what these two scans give, raises what they
    raise, and fails when the file cannot be read. *)
Theorem lse_falls_back_on_file {W : Type} {HW : World W}
  (a : Args) (r : pydict) (s : state W) (rc : Z) (out : text) (w' : W) :
  let scores := Path.join (syncnet_dir a) "all_scores.txt" in
  spawn (lse_command a) None (world s) = (Done (rc, out), w') ->
  Re.search Re.lse_c out = None -> Re.search Re.lse_d out = None ->
  path_exists scores w' = true ->
  lse_scores a r s
  = bind (os (read_text scores))
      (fun txt =>
         bind (scan Re.lse_c txt None)
           (fun c =>
              bind (scan Re.lse_d txt None)
                (fun d => ret (dict_set "lse" (lse_record a c d) r))))
      (after s (lse_command a) None w').
Proof.
  intros scores Hs Hc Hd He. unfold lse_scores.
  rewrite (bind_ret _ _ _ _ _ (run_with_output_allowed _ _ _ _ _ Hs)).
  simpl snd. unfold bind at 1.
  assert (Hout : (if nonempty out
                  then bind (scan Re.lse_c out None)
                         (fun c => bind (scan Re.lse_d out None)
                                     (fun d => ret (c, d)))
                  else ret (None, None)) (after s (lse_command a) None w')
                 = (Ret (None, None), after s (lse_command a) None w')).
  { destruct (nonempty out); [|done].
    rewrite (bind_ret _ _ _ _ _ (scan_none _ _ _ _ Hc)).
    by rewrite (bind_ret _ _ _ _ _ (scan_none _ _ _ _ Hd)). }
  rewrite Hout. simpl is_none. simpl orb. cbv iota.
  unfold bind at 1, exists_. simpl world. fold scores. rewrite He.
  unfold bind. destruct (os (read_text scores) _) as [[txt|e] s1]; [|done].
  destruct (scan Re.lse_c txt None s1) as [[c|e] s2]; [|done].
  by destruct (scan Re.lse_d txt None s2) as [[d|e] s3].
Qed.

(** No output, and a file with both scores. *)
Lemma lse_falls_back_on_file_witness :
  let a := with_flags false false false true false
             (with_gen_videos_dir (Some "videos") no_args) in
  let scores :=
    "/repo/TalkingGaussian/third_party/syncnet_python/all_scores.txt" in
  let w := {| Sim.files :=
                {[ scores := Sim.TextFile (T "LSE-C = 7.5 LSE-D = 6.25") ]};
              Sim.replies := [Sim.ends 0 []] |} in
  fst (lse_scores a [] (start w))
  = Ret [("lse", lse_record a (Float.py_float (T "7.5"))
                   (Float.py_float (T "6.25")))].
Proof.
  intros a scores w.
  rewrite (@lse_falls_back_on_file Sim.sim Sim.sim_world a [] (start w) 0 []
             {| Sim.files := Sim.files w; Sim.replies := [] |}
             eq_refl eq_refl eq_refl eq_refl).
  by vm_compute.
Defined.

(** ** The patterns of the frame metrics *)

Module FrameFacts.
Import Re ReFacts.

Lemma numclass_range_iff c : numclass c = true <-> (43 <= c <= 101)%N.
Proof.
  unfold numclass, in_range.
  rewrite !orb_true_iff, !andb_true_iff, !N.leb_le, !N.eqb_eq. lia.
Qed.

Lemma numclass_not_space c : numclass c = true -> space c = false.
Proof.
  intros Hc%numclass_range_iff. unfold space, in_range.
  rewrite !orb_false_iff, !andb_false_iff, !N.leb_gt, !N.eqb_neq. lia.
Qed.

(** A greedy repetition over a run of the set that ends before [rest]
    hands [rest] to its continuation first. *)
Lemma greedy_run {A} cs (k : text -> option A) ws rest r :
  forallb cs ws = true -> stops cs rest -> k rest = Some r ->
  greedy cs k (ws ++ rest) = Some r.
Proof.
  intros Hws Hrest Hk. induction ws as [|c ws IH]; simpl.
  - destruct rest as [|d rest]; simpl in *; [done | by rewrite Hrest].
  - simpl in Hws. apply andb_true_iff in Hws as [-> Hws]. by rewrite IH.
Qed.

Lemma stops_space_number g post :
  g <> [] -> forallb numclass g = true -> stops space (g ++ post).
Proof.
  destruct g as [|d g]; [done|]. simpl. intros _ [Hd _]%andb_true_iff.
  by apply numclass_not_space.
Qed.

(** The part [\s*=\s*([0-9.+-eE]+)] on spaces, [=], spaces, a number. *)
Lemma run_equals_number ws1 ws2 g post :
  forallb space ws1 = true -> forallb space ws2 = true ->
  g <> [] -> forallb numclass g = true -> stops numclass post ->
  exists m,
    run ([Star space; Chr (code "=")] ++ [Star space] ++ number) no_marks
      (ws1 ++ [code "="] ++ ws2 ++ g ++ post) = Some m
    /\ group1 m = Some g.
Proof.
  intros H1 H2 Hne Hg Hpost.
  destruct (run_number_app no_marks g post Hne Hg Hpost) as (m & Hm & Hgr).
  exists m. split; [|done]. simpl run.
  apply greedy_run; [done | done |]. simpl.
  apply greedy_run; [done | by apply stops_space_number | done].
Qed.

Lemma search_after_literal l q pre rest :
  (forall c1 c2 c3 tail,
      ~ (exists r, [c1] ++ l ++ tail = l ++ r)
      /\ ~ (exists r, [c1; c2] ++ l ++ tail = l ++ r)
      /\ ~ (exists r, [c1; c2; c3] ++ l ++ tail = l ++ r)) ->
  length l = 4%nat ->
  ~ contains l pre ->
  search (List.map Chr l ++ q) (pre ++ l ++ rest)
  = search (List.map Chr l ++ q) (l ++ rest).
Proof.
  intros Hborder Hlen. induction pre as [|c pre IH]; intros Hn; [done|].
  assert (Hn' : ~ contains l pre).
  { intros (a & b & ->). apply Hn. by exists (c :: a), b. }
  change ((c :: pre) ++ l ++ rest) with (c :: (pre ++ l ++ rest)).
  rewrite FidFacts.search_cons.
  destruct (run (List.map Chr l ++ q) no_marks (c :: pre ++ l ++ rest))
    as [m|] eqn:E; [|by apply IH].
  exfalso. apply run_literal in E as (r & Hr & _).
  destruct (Hborder c c c rest) as (B1 & _ & _).
  destruct pre as [|c2 [|c3 [|c4 pre]]].
  - apply B1. by exists r.
  - destruct (Hborder c c2 c rest) as (_ & B2 & _). apply B2. by exists r.
  - destruct (Hborder c c2 c3 rest) as (_ & _ & B3). apply B3. by exists r.
  - apply Hn. destruct l as [|l1 [|l2 [|l3 [|l4 [|l5 l]]]]]; try done.
    injection Hr as -> -> -> -> _. by exists [], pre.
Qed.

Lemma border_psnr c1 c2 c3 tail :
  ~ (exists r, [c1] ++ T "PSNR" ++ tail = T "PSNR" ++ r)
  /\ ~ (exists r, [c1; c2] ++ T "PSNR" ++ tail = T "PSNR" ++ r)
  /\ ~ (exists r, [c1; c2; c3] ++ T "PSNR" ++ tail = T "PSNR" ++ r).
Proof. repeat split; intros [r Hr]; discriminate. Qed.

Lemma border_ssim c1 c2 c3 tail :
  ~ (exists r, [c1] ++ T "SSIM" ++ tail = T "SSIM" ++ r)
  /\ ~ (exists r, [c1; c2] ++ T "SSIM" ++ tail = T "SSIM" ++ r)
  /\ ~ (exists r, [c1; c2; c3] ++ T "SSIM" ++ tail = T "SSIM" ++ r).
Proof. repeat split; intros [r Hr]; discriminate. Qed.

Lemma search_metric_line l pre ws1 ws2 g post :
  (forall c1 c2 c3 tail,
      ~ (exists r, [c1] ++ l ++ tail = l ++ r)
      /\ ~ (exists r, [c1; c2] ++ l ++ tail = l ++ r)
      /\ ~ (exists r, [c1; c2; c3] ++ l ++ tail = l ++ r)) ->
  length l = 4%nat ->
  ~ contains l pre ->
  forallb space ws1 = true -> forallb space ws2 = true ->
  g <> [] -> forallb numclass g = true -> stops numclass post ->
  search (List.map Chr l ++ [Star space; Chr (code "=")]
            ++ [Star space] ++ number)
    (pre ++ l ++ ws1 ++ [code "="] ++ ws2 ++ g ++ post)
  = Some g.
Proof.
  intros Hb Hlen Hpre H1 H2 Hne Hg Hpost.
  rewrite search_after_literal by done.
  destruct (run_equals_number ws1 ws2 g post H1 H2 Hne Hg Hpost)
    as (m & Hm & Hgr).
  etrans; [|exact Hgr]. apply FidFacts.search_here.
  remember (ws1 ++ [code "="] ++ ws2 ++ g ++ post) as rest.
  remember ([Star space; Chr (code "=")] ++ [Star space] ++ number) as q.
  clear -Hm. induction l as [|c l IH]; simpl; [done|].
  by rewrite N.eqb_refl.
Qed.

End FrameFacts.

(** X12. Read as [re] reads a set, the text [0-9.+-eE] of the set of the
    seven patterns has four members: the range [0-9], the point, the range
    from [+] to [e], which the hyphen between them builds, and [E]. So the
    set of the patterns holds exactly the code points 43 to 101: with the
    digits, the point, the signs and the two letters of an exponent also
    the comma, the slash, the colon, the capital letters and the letters
    [a] to [d]. *)
Theorem numclass_is_a_range (c : char) :
  Re.set_of (T "0-9.+-eE]")
  = Some ([(48, 57); (46, 46); (43, 101); (69, 69)]%N, [])
  /\ Re.member [(48, 57); (46, 46); (43, 101); (69, 69)]%N c = Re.numclass c
  /\ (Re.numclass c = true <-> (43 <= c <= 101)%N).
Proof.
  split; [reflexivity|]. split; [|apply FrameFacts.numclass_range_iff].
  apply eq_true_iff_eq. unfold Re.member, Re.numclass, in_range. simpl.
  rewrite !orb_true_iff, !andb_true_iff, !N.leb_le, !N.eqb_eq. lia.
Qed.

(** X13. The PSNR and SSIM patterns find the first line of their metric:
    when the name occurs for the first time followed by spaces (or none), an
    equals sign, spaces (or none) and a non-empty run of characters of the
    set that ends with the text or before a character outside the set,
    [re.search] gives that whole run as the group, and the extraction gives
    [float] of it. *)
Theorem frame_patterns_find_first_line {W : Type} {HW : World W}
  (pre ws1 ws2 g post : text) (s : state W) :
  forallb Re.space ws1 = true -> forallb Re.space ws2 = true ->
  g <> [] -> forallb Re.numclass g = true -> Re.stops Re.numclass post ->
  (~ Re.contains (T "PSNR") pre ->
   let t := pre ++ T "PSNR" ++ ws1 ++ [code "="] ++ ws2 ++ g ++ post in
   Re.search Re.psnr t = Some g
   /\ scan Re.psnr t None s
      = (match Float.py_float g with
         | Some x => Ret (Some x)
         | None => Raise (ValueError g)
         end, s))
  /\ (~ Re.contains (T "SSIM") pre ->
      let t := pre ++ T "SSIM" ++ ws1 ++ [code "="] ++ ws2 ++ g ++ post in
      Re.search Re.ssim t = Some g
      /\ scan Re.ssim t None s
         = (match Float.py_float g with
            | Some x => Ret (Some x)
            | None => Raise (ValueError g)
            end, s)).
Proof.
  intros H1 H2 Hne Hg Hpost. split; intros Hpre t.
  - assert (Hs : Re.search Re.psnr t = Some g).
    { apply (FrameFacts.search_metric_line (T "PSNR"));
        [apply FrameFacts.border_psnr | done..]. }
    split; [done|]. unfold scan. rewrite Hs. by destruct (Float.py_float g).
  - assert (Hs : Re.search Re.ssim t = Some g).
    { apply (FrameFacts.search_metric_line (T "SSIM"));
        [apply FrameFacts.border_ssim | done..]. }
    split; [done|]. unfold scan. rewrite Hs. by destruct (Float.py_float g).
Qed.

(** A line of a log, with a tab after the name and no space after the
    sign. *)
Lemma frame_patterns_find_first_line_witness :
  let s := start (Sim.empty_world []) in
  let t := T "frames: 300 " ++ T "PSNR" ++ [9%N] ++ [code "="] ++ []
             ++ T "31.2" ++ T " dB" in
  Re.search Re.psnr t = Some (T "31.2")
  /\ scan Re.psnr t None s
     = (match Float.py_float (T "31.2") with
        | Some x => Ret (Some x)
        | None => Raise (ValueError (T "31.2"))
        end, s).
Proof.
  intros s t.
  refine (proj1 (@frame_patterns_find_first_line Sim.sim Sim.sim_world
                   (T "frames: 300 ") [9%N] [] (T "31.2") (T " dB") s
                   eq_refl eq_refl _ eq_refl eq_refl) _).
  - discriminate.
  - intros (a & b & Hab). vm_compute in Hab.
    repeat (destruct a as [|? a]; [discriminate|injection Hab as <- Hab]).
    by destruct a.
Defined.

(** ** The web application *)

Module AppFacts.
Import App.

Lemma chars_append (a b : string) :
  list_ascii_of_string (a ++ b) = list_ascii_of_string a ++ list_ascii_of_string b.
Proof.
  induction a as [|c a IH]; [done|].
  change (String c a ++ b)%string with (String c (a ++ b)%string).
  simpl. by rewrite IH.
Qed.

Lemma slashes_chars s c :
  In c (list_ascii_of_string (slashes s)) -> c <> backslash.
Proof.
  induction s as [|d s IH]; simpl; [done|]. intros [<- | Hin]; [|by apply IH].
  destruct (Ascii.eqb_spec d backslash) as [->|Hne]; [discriminate | done].
Qed.

Lemma slashes_fixed s :
  (forall c, In c (list_ascii_of_string s) -> c <> backslash) ->
  slashes s = s.
Proof.
  induction s as [|d s IH]; simpl; [done|]. intros Hs.
  destruct (Ascii.eqb_spec d backslash) as [->|Hne].
  - by destruct (Hs backslash (or_introl eq_refl)).
  - f_equal. apply IH. intros c Hc. apply Hs. by right.
Qed.

Lemma span_ascii_spec f s :
  let '(a, b) := span_ascii f s in
  s = a ++ b /\ forallb f a = true.
Proof.
  induction s as [|c s IH]; simpl; [done|].
  destruct (f c) eqn:E; [|done].
  destruct (span_ascii f s) as [a b]. destruct IH as [-> Ha].
  simpl. by rewrite E, Ha.
Qed.

(** The extension holds no separator. *)
Lemma splitext_ext_chars p c :
  In c (list_ascii_of_string (splitext_ext p)) -> is_sep c = false.
Proof.
  unfold splitext_ext.
  pose proof (span_ascii_spec (fun c => negb (is_dot c || is_sep c))
                (rev (list_ascii_of_string p))) as Hsp.
  destruct (span_ascii _ (rev (list_ascii_of_string p))) as [tail rest].
  destruct Hsp as [_ Htail]. destruct rest as [|d before]; [done|].
  destruct (is_dot d) eqn:Ed; [|done].
  destruct (span_ascii _ before) as [stem rest'].
  destruct (forallb is_dot stem); [done|].
  rewrite list_ascii_of_string_of_list_ascii, <- in_rev, in_app_iff.
  intros [Hin | [<- | []]].
  - rewrite forallb_forall in Htail. specialize (Htail _ Hin).
    apply negb_true_iff, orb_false_iff in Htail. tauto.
  - unfold is_dot in Ed. apply Ascii.eqb_eq in Ed as ->. done.
Qed.

Lemma uint_chars d c :
  In c (list_ascii_of_string (DecimalString.NilEmpty.string_of_uint d)) ->
  is_sep c = false.
Proof.
  induction d; simpl; try done; intros [<- | Hin]; auto.
Qed.

Lemma str_int_chars n c :
  In c (list_ascii_of_string (str_int n)) -> is_sep c = false.
Proof.
  unfold str_int, DecimalString.NilZero.string_of_int,
    DecimalString.NilZero.string_of_uint.
  destruct (Z.to_int n) as [d|d].
  - destruct d; try apply uint_chars. simpl. by intros [<- | []].
  - simpl. intros [<- | Hin]; [done|].
    destruct d; try (by eapply uint_chars). simpl in Hin.
    by destruct Hin as [<- | []].
Qed.

(** The name under which an upload is saved holds no separator. *)
Lemma custom_voice_name_chars ts name c :
  In c (list_ascii_of_string (custom_voice_name ts name)) -> is_sep c = false.
Proof.
  unfold custom_voice_name. rewrite !chars_append, !in_app_iff.
  intros [Hin | [Hin | Hin]].
  - simpl in Hin. repeat (destruct Hin as [<- | Hin]; [done|]). done.
  - by eapply str_int_chars.
  - by eapply splitext_ext_chars.
Qed.

Lemma drop_name_file l r :
  forallb (fun c => negb (is_sep c)) l = true ->
  Path.drop_name (l ++ Path.sep :: r) = Path.sep :: r.
Proof.
  induction l as [|c l IH]; simpl.
  - done.
  - intros [Hc Hl]%andb_true_iff. unfold is_sep in Hc.
    apply negb_true_iff in Hc. rewrite Hc. by apply IH.
Qed.

Lemma join_custom_voice name :
  Path.starts_with_sep name = false ->
  Path.join custom_voice_dir name
  = (custom_voice_dir ++ String Path.sep name)%string.
Proof. unfold Path.join. by intros ->. Qed.

(** A file directly in the directory of custom voices. *)
Lemma dirname_custom_voice name :
  (forall c, In c (list_ascii_of_string name) -> is_sep c = false) ->
  Path.dirname (custom_voice_dir ++ String Path.sep name)%string
  = custom_voice_dir.
Proof.
  intros Hname. unfold Path.dirname.
  rewrite chars_append. simpl list_ascii_of_string at 2.
  rewrite rev_app_distr. simpl rev at 1. rewrite <- app_assoc. simpl app at 2.
  rewrite drop_name_file.
  - by vm_compute.
  - apply forallb_forall. intros c Hc%in_rev. by rewrite Hname.
Qed.

End AppFacts.

(** X14. What [model_training] and [chat_system] answer to a POST is the
    path the back end returned, after a slash and with every backslash
    turned into a slash: the [video_path] they send begins with a slash and
    holds no backslash, and it is the path of the back end after a slash
    when that path has no backslash. To any other request they answer with
    their page and call nothing. *)
Theorem video_path_is_a_url {W : Type} {HS : App.Site W}
  (req : App.request) (w : W) (resp : App.response) (w' : W) :
  App.model_training req w = (App.Sent resp, w')
  \/ App.chat_system req w = (App.Sent resp, w') ->
  (App.is_post req = false /\ w' = w
   /\ (resp = App.Template "model_training.html"
       \/ resp = App.Template "chat_system.html"))
  \/ (App.is_post req = true
      /\ exists data p,
           (App.train_model data w = (App.Sent p, w')
            \/ App.chat_response data w = (App.Sent p, w'))
           /\ resp = App.success (String Path.sep (App.slashes p))
           /\ (forall c,
                  In c (list_ascii_of_string (String Path.sep (App.slashes p))) ->
                  c <> App.backslash)
           /\ ((forall c, In c (list_ascii_of_string p) -> c <> App.backslash) ->
               App.slashes p = p)).
Proof.
  assert (Hurl : forall p c,
             In c (list_ascii_of_string (String Path.sep (App.slashes p))) ->
             c <> App.backslash).
  { intros p c [<- | Hin]; [discriminate | by eapply AppFacts.slashes_chars]. }
  unfold App.model_training, App.chat_system, App.and_then, App.send.
  destruct (App.is_post req); intros [Hh | Hh].
  - right. split; [done|]. eexists.
    destruct (App.train_model _ w) as [[p|what] w1] eqn:E; [|discriminate].
    injection Hh as <- <-. exists p. split; [by left|].
    split; [done|]. split; [apply Hurl | apply AppFacts.slashes_fixed].
  - right. split; [done|]. eexists.
    destruct (App.chat_response _ w) as [[p|what] w1] eqn:E; [|discriminate].
    injection Hh as <- <-. exists p. split; [by right|].
    split; [done|]. split; [apply Hurl | apply AppFacts.slashes_fixed].
  - left. injection Hh as <- <-. split; [done|]. split; [done | by left].
  - left. injection Hh as <- <-. split; [done|]. split; [done | by right].
Qed.

(** A POST to [model_training]; the back end answers with a Windows path. *)
Lemma video_path_is_a_url_witness :
  App.model_training AppSim.post AppSim.day_one
  = (App.Sent (App.success "/static/videos/out.mp4"), AppSim.day_one)
  /\ ((App.is_post AppSim.post = false /\ AppSim.day_one = AppSim.day_one
       /\ (App.success "/static/videos/out.mp4"
           = App.Template "model_training.html"
           \/ App.success "/static/videos/out.mp4"
              = App.Template "chat_system.html"))
      \/ (App.is_post AppSim.post = true
          /\ exists data p,
               (App.train_model data AppSim.day_one
                = (App.Sent p, AppSim.day_one)
                \/ App.chat_response data AppSim.day_one
                   = (App.Sent p, AppSim.day_one))
               /\ App.success "/static/videos/out.mp4"
                  = App.success (String Path.sep (App.slashes p))
               /\ (forall c,
                      In c (list_ascii_of_string
                              (String Path.sep (App.slashes p))) ->
                      c <> App.backslash)
               /\ ((forall c,
                       In c (list_ascii_of_string p) -> c <> App.backslash) ->
                   App.slashes p = p))).
Proof.
  split; [by vm_compute|].
  refine (@video_path_is_a_url AppSim.site AppSim.sim_site AppSim.post
            AppSim.day_one (App.success "/static/videos/out.mp4")
            AppSim.day_one _).
  left. by vm_compute.
Defined.

(** X15. An upload that [upload_voice_clone] answers is either refused with
    one of its three messages, and then nothing was done, or it was saved:
    the directory of custom voices was made, the clock read, and the file
    saved once, under a name made of the time and the extension of the
    client's file name. That name holds no slash, so the file is saved
    directly in the directory of custom voices whatever the client's file
    name is. *)
Theorem upload_stays_in_custom_voice {W : Type} {HS : App.Site W}
  (req : App.request) (w : W) (resp : App.response) (w' : W) :
  App.upload_voice_clone req w = (App.Sent resp, w') ->
  (w' = w
   /\ (resp = App.error App.no_audio
       \/ resp = App.error App.no_file_chosen
       \/ resp = App.error App.bad_format))
  \/ exists audio_file w1 name path,
       App.files req !! "audio" = Some audio_file
       /\ App.site_makedirs App.custom_voice_dir w = (App.Sent tt, w1)
       /\ name = App.custom_voice_name (App.clock w1)
                   (App.filename audio_file)
       /\ path = (App.custom_voice_dir ++ String Path.sep name)%string
       /\ App.save audio_file path w1 = (App.Sent tt, w')
       /\ (forall c, In c (list_ascii_of_string name) -> c <> Path.sep)
       /\ Path.dirname path = App.custom_voice_dir
       /\ resp = App.Json [("status", "success");
                           ("message", "音频上传成功");
                           ("filename", name);
                           ("filepath", App.slashes path)].
Proof.
  unfold App.upload_voice_clone, App.and_then, App.send.
  destruct (App.files req !! "audio") as [audio_file|]; cycle 1.
  { intros [= <- <-]. left. tauto. }
  destruct (Path.is_empty (App.filename audio_file)).
  { intros [= <- <-]. left. tauto. }
  destruct (negb _).
  { intros [= <- <-]. left. tauto. }
  destruct (App.site_makedirs _ w) as [[[]|what] w1] eqn:Em; [|discriminate].
  set (name := App.custom_voice_name (App.clock w1) (App.filename audio_file)).
  rewrite (AppFacts.join_custom_voice name) by done.
  destruct (App.save _ _ w1) as [[[]|what] w2] eqn:Es; [|discriminate].
  intros [= <- <-]. right. exists audio_file, w1, name. eexists.
  repeat split; try done.
  - intros c Hc ->. by apply AppFacts.custom_voice_name_chars in Hc.
  - apply AppFacts.dirname_custom_voice, AppFacts.custom_voice_name_chars.
Qed.

(** A client's file name that points out of the directory. *)
Lemma upload_stays_in_custom_voice_witness :
  let req := AppSim.post_audio "../../app.py/Voice.WAV" in
  let w' := snd (App.upload_voice_clone req AppSim.day_one) in
  AppSim.saved w'
  = [("./static/audios/custom_voice/custom_voice_1700000000.WAV", "RIFF")]
  /\ exists audio_file w1 name path,
       App.files req !! "audio" = Some audio_file
       /\ App.site_makedirs App.custom_voice_dir AppSim.day_one
          = (App.Sent tt, w1)
       /\ name = App.custom_voice_name (App.clock w1)
                   (App.filename audio_file)
       /\ path = (App.custom_voice_dir ++ String Path.sep name)%string
       /\ App.save audio_file path w1 = (App.Sent tt, w')
       /\ (forall c, In c (list_ascii_of_string name) -> c <> Path.sep)
       /\ Path.dirname path = App.custom_voice_dir
       /\ App.Json [("status", "success");
                    ("message", "音频上传成功");
                    ("filename", "custom_voice_1700000000.WAV");
                    ("filepath",
                     "./static/audios/custom_voice/custom_voice_1700000000.WAV")]
          = App.Json [("status", "success");
                      ("message", "音频上传成功");
                      ("filename", name);
                      ("filepath", App.slashes path)].
Proof.
  intros req w'. split; [by vm_compute|].
  destruct (@upload_stays_in_custom_voice AppSim.site AppSim.sim_site req
              AppSim.day_one
              (App.Json
                 [("status", "success");
                  ("message", "音频上传成功");
                  ("filename", "custom_voice_1700000000.WAV");
                  ("filepath",
                   "./static/audios/custom_voice/custom_voice_1700000000.WAV")])
              w') as [[_ [H | [H | H]]] | H];
    [by vm_compute | discriminate H .. | exact H].
Defined.

(** X16. When the three environment variables of the keys are set, the
    default keys written in the source play no part: [query_llm] gives the
    same result whatever they are. *)
Theorem environment_keys_replace_defaults (getenv : string -> option string)
  (create : string -> string -> Llm.request -> Llm.sdk_result)
  (k1 k2 k3 k1' k2' k3' : string) (text api_choice : string) :
  is_Some (getenv "OPENAI_API_KEY") ->
  is_Some (getenv "ZHIPU_API_KEY") ->
  is_Some (getenv "DEEPSEEK_API_KEY") ->
  Llm.query_llm getenv k1 k2 k3 create text api_choice
  = Llm.query_llm getenv k1' k2' k3' create text api_choice.
Proof.
  intros [a Ha] [b Hb] [c Hc].
  unfold Llm.query_llm, Llm.select, Llm.API_CONFIG, Llm.zhipu.
  by rewrite Ha, Hb, Hc.
Qed.

Lemma environment_keys_replace_defaults_witness :
  let getenv := fun name : string => Some ("key of " ++ name)%string in
  let create := fun (key url : string) (_ : Llm.request) =>
                  Llm.Response [Some (key ++ " at " ++ url)%string] in
  Llm.query_llm getenv "a" "b" "c" create "hello" "DeepSeek"
  = Llm.query_llm getenv "d" "e" "f" create "hello" "DeepSeek".
Proof.
  intros getenv create.
  apply (environment_keys_replace_defaults getenv create); by eexists.
Defined.

(** ** What [float] never reads *)

Module FloatFacts.
Import Float.

Lemma span_spec f s :
  s = (span f s).1 ++ (span f s).2 /\ forallb f (span f s).1 = true.
Proof.
  induction s as [|c s [IH1 IH2]]; simpl; [done|].
  destruct (f c) eqn:E; [|done].
  destruct (span f s) as [a b]. simpl in *. by rewrite E, IH2, <- IH1.
Qed.

(** What [span] leaves holds every character that fails the test. *)
Lemma span_keeps f s c : In c s -> f c = false -> In c (span f s).2.
Proof.
  intros Hin Hc. destruct (span_spec f s) as [Hs Ha].
  rewrite Hs in Hin. apply in_app_iff in Hin as [Hin | Hin]; [|done].
  rewrite forallb_forall in Ha. specialize (Ha _ Hin). congruence.
Qed.

Lemma lstrip_keeps s c : In c s -> ascii_space c = false -> In c (lstrip s).
Proof.
  intros Hin Hc. induction s as [|d s IH]; simpl; [done|].
  destruct (ascii_space d) eqn:E; [|done].
  destruct Hin as [-> | Hin]; [congruence | by apply IH].
Qed.

Lemma strip_keeps s c : In c s -> ascii_space c = false -> In c (strip s).
Proof.
  intros Hin Hc. unfold strip. apply in_rev. rewrite rev_involutive.
  apply lstrip_keeps; [|done]. apply in_rev. rewrite rev_involutive.
  by apply lstrip_keeps.
Qed.

Lemma drop_underscores_keeps s c :
  In c s -> is_underscore c = false ->
  forall prev s0, drop_underscores prev s = Some s0 -> In c s0.
Proof.
  intros Hin Hc. induction s as [|d s IH]; [done|]. intros prev s0. simpl.
  destruct (is_underscore d) eqn:Ed.
  - destruct Hin as [-> | Hin]; [congruence|].
    destruct prev as [p|]; [|discriminate].
    destruct (is_digit p); [by apply IH | discriminate].
  - assert (Hk : cons d <$> drop_underscores (Some d) s = Some s0 -> In c s0).
    { destruct (drop_underscores (Some d) s) as [s1|] eqn:E; [|discriminate].
      intros [= <-]. destruct Hin as [-> | Hin]; [by left|].
      right. by eapply IH. }
    destruct prev as [p|]; [|done].
    destruct (is_underscore p && negb (is_digit d)); [discriminate | done].
Qed.

Lemma sign_keeps s c :
  In c s -> (c =? 45)%N = false -> (c =? 43)%N = false -> In c (sign s).2.
Proof.
  intros Hin H1 H2. destruct s as [|d s]; [done|]. simpl.
  destruct (d =? 45)%N eqn:E1; [|destruct (d =? 43)%N eqn:E2]; simpl; try done.
  - destruct Hin as [-> | Hin]; [congruence | done].
  - destruct Hin as [-> | Hin]; [congruence | done].
Qed.

(** What a character outside [literal_char] is not. *)
Lemma literal_char_false c :
  literal_char c = false ->
  is_digit c = false /\ ascii_space c = false /\ is_underscore c = false
  /\ (c =? 45)%N = false /\ (c =? 43)%N = false /\ (c =? 46)%N = false
  /\ (c =? 101)%N = false /\ (c =? 69)%N = false
  /\ forall l, In l [T "inf"; T "infinity"; T "nan"] -> ~ In (lower c) l.
Proof.
  unfold literal_char. intros H.
  apply orb_false_iff in H as [H Hl]. apply orb_false_iff in H as [Hd Hs].
  assert (Hnot : forall x, In x (T "+-._einftya") -> lower c <> x).
  { intros x Hx E. rewrite <- not_true_iff_false in Hl. apply Hl.
    apply existsb_exists. exists x. split; [done|]. by apply N.eqb_eq. }
  assert (Hlow : forall x, (x <? 65)%N = true \/ (90 <? x)%N = true ->
                           c = x -> lower c = x).
  { intros x Hx ->. unfold lower, in_range.
    destruct Hx as [Hx | Hx]; apply N.ltb_lt in Hx.
    - by rewrite (proj2 (N.leb_gt 65 x)).
    - rewrite (proj2 (N.leb_gt x 90)) by done. by rewrite andb_false_r. }
  repeat split; try done.
  - unfold is_underscore. apply N.eqb_neq. intros E.
    apply (Hnot 95%N); [vm_compute; tauto|]. by apply Hlow; [right|].
  - apply N.eqb_neq. intros E.
    apply (Hnot 45%N); [vm_compute; tauto|]. by apply Hlow; [left|].
  - apply N.eqb_neq. intros E.
    apply (Hnot 43%N); [vm_compute; tauto|]. by apply Hlow; [left|].
  - apply N.eqb_neq. intros E.
    apply (Hnot 46%N); [vm_compute; tauto|]. by apply Hlow; [left|].
  - apply N.eqb_neq. intros E.
    apply (Hnot 101%N); [vm_compute; tauto|]. by apply Hlow; [right|].
  - apply N.eqb_neq. intros ->. apply (Hnot 101%N); [vm_compute; tauto | done].
  - intros l Hl' Hin. apply (Hnot (lower c)); [|done].
    vm_compute in Hl'. destruct Hl' as [<- | [<- | [<- | []]]];
      vm_compute in Hin; vm_compute; tauto.
Qed.

Lemma exponent_junk s c :
  In c s -> is_digit c = false ->
  (c =? 45)%N = false -> (c =? 43)%N = false ->
  (c =? 101)%N = false -> (c =? 69)%N = false ->
  exponent s = None.
Proof.
  intros Hin Hd H45 H43 He HE. destruct s as [|x s]; [done|]. simpl.
  destruct ((x =? 101)%N || (x =? 69)%N) eqn:Ex; [|done].
  assert (Hs : In c s).
  { destruct Hin as [-> | Hin]; [|done].
    rewrite He, HE in Ex. discriminate. }
  pose proof (sign_keeps s c Hs H45 H43) as Hds.
  destruct (sign s) as [ng ds]. simpl in Hds.
  pose proof (span_keeps is_digit ds c Hds Hd) as Hrest.
  destruct (span is_digit ds) as [es rest]. simpl in Hrest.
  destruct es as [|e es]; [done|]. by destruct rest.
Qed.

Lemma number_junk neg s c :
  In c s -> literal_char c = false -> number neg s = None.
Proof.
  intros Hin Hc.
  destruct (literal_char_false c Hc)
    as (Hd & _ & _ & H45 & H43 & H46 & He & HE & _).
  unfold number.
  pose proof (span_keeps is_digit s c Hin Hd) as Hr1.
  destruct (span is_digit s) as [ip r1]. simpl in Hr1.
  assert (Hr2 : forall fp r2,
             match r1 with
             | x :: r => if (x =? 46)%N then span is_digit r else ([], r1)
             | [] => ([], r1)
             end = (fp, r2) -> In c r2).
  { intros fp r2. destruct r1 as [|x r]; [done|].
    destruct (x =? 46)%N eqn:Ex.
    - assert (Hr : In c r).
      { destruct Hr1 as [-> | Hr]; [congruence | done]. }
      intros E. pose proof (span_keeps is_digit r c Hr Hd) as Hk.
      by rewrite E in Hk.
    - by intros [= _ <-]. }
  destruct (match r1 with
            | x :: r => if (x =? 46)%N then span is_digit r else ([], r1)
            | [] => ([], r1)
            end) as [fp r2].
  specialize (Hr2 fp r2 eq_refl).
  rewrite (exponent_junk r2 c Hr2 Hd H45 H43 He HE).
  by destruct (ip ++ fp).
Qed.

(** [float] raises on every string with a character that no literal
    has. *)
Lemma py_float_junk s c :
  In c s -> literal_char c = false -> py_float s = None.
Proof.
  intros Hin Hc.
  destruct (literal_char_false c Hc)
    as (Hd & Hsp & Hu & H45 & H43 & _ & _ & _ & Hnames).
  unfold py_float.
  destruct (drop_underscores None (strip s)) as [s0|] eqn:E0; [|done].
  simpl.
  pose proof (drop_underscores_keeps _ c (strip_keeps s c Hin Hsp) Hu _ _ E0)
    as H0.
  pose proof (sign_keeps s0 c H0 H45 H43) as H1.
  destruct (sign s0) as [neg s1]. simpl in H1.
  assert (Hl : In (lower c) (List.map lower s1)) by by apply in_map.
  assert (Hne : forall l, In l [T "inf"; T "infinity"; T "nan"] ->
                          text_eqb (List.map lower s1) l = false).
  { intros l Hl'. unfold text_eqb. apply bool_decide_eq_false. intros E.
    apply (Hnames l Hl'). by rewrite <- E. }
  rewrite !Hne by (simpl; tauto). simpl.
  by eapply number_junk.
Qed.

End FloatFacts.

Section JunkFacts.

Context {W : Type} {HW : World W}.

Lemma run_with_output_zero cmd allow_fail (s : state W) out w' :
  spawn cmd None (world s) = (Done (0, out), w') ->
  _run_with_output cmd allow_fail s = (Ret (0, out), after s cmd None w').
Proof.
  intros Hs. unfold _run_with_output, bind, subprocess. by rewrite Hs.
Qed.

End JunkFacts.

(** X18. A value printed with a character right after it that is in the set
    of the pattern and in no float literal ends the run: when the first
    PSNR line of the frame-metrics script has, after the equals sign, a run
    of characters of the set with such a character in it, as the comma in
    [PSNR = 31.2, SSIM = 0.91], the frame step raises [ValueError] on that
    run and records nothing, though the script has succeeded. *)
Theorem junk_after_value_is_fatal {W : Type} {HW : World W}
  (a : Args) (r : pydict) (s : state W) (w' : W)
  (pre ws1 ws2 g post : text) (c : char) :
  truthy (pred_video a) = true -> truthy (gt_video a) = true ->
  ~ Re.contains (T "PSNR") pre ->
  forallb Re.space ws1 = true -> forallb Re.space ws2 = true ->
  forallb Re.numclass g = true -> Re.stops Re.numclass post ->
  In c g -> Float.literal_char c = false ->
  let t := pre ++ T "PSNR" ++ ws1 ++ [code "="] ++ ws2 ++ g ++ post in
  spawn (frame_command a) None (world s) = (Done (0, t), w') ->
  frame_step a true r s
  = (Raise (ValueError g), after s (frame_command a) None w').
Proof.
  intros Hp Hg Hpre H1 H2 Hnum Hpost Hin Hc t Hs.
  assert (Hne : g <> []) by by destruct g.
  assert (Hsearch : Re.search Re.psnr t = Some g).
  { apply (FrameFacts.search_metric_line (T "PSNR"));
      [apply FrameFacts.border_psnr | done..]. }
  unfold frame_step. rewrite Hp, Hg. simpl.
  rewrite (bind_ret _ _ _ _ _ (run_with_output_zero _ _ _ _ _ Hs)). simpl snd.
  assert (Hout : nonempty t = true).
  { subst t. destruct pre; [|done]. by vm_compute. }
  rewrite Hout. apply bind_raise. apply bind_raise.
  unfold scan. rewrite Hsearch.
  by rewrite (FloatFacts.py_float_junk g c Hin Hc).
Qed.

(** The two metrics on one line, with a comma between them. *)
Lemma junk_after_value_is_fatal_witness :
  let a := with_flags true false false false false
             (with_videos (Some "pred.mp4") (Some "gt.mp4") no_args) in
  let t := T "PSNR = 31.2, SSIM = 0.91" in
  let s := start (Sim.empty_world [Sim.prints t]) in
  frame_step a true [] s
  = (Raise (ValueError (T "31.2,")),
     after s (frame_command a) None (Sim.empty_world [])).
Proof.
  intros a t s.
  refine (@junk_after_value_is_fatal Sim.sim Sim.sim_world a [] s
            (Sim.empty_world []) [] (T " ") (T " ") (T "31.2,")
            (T " SSIM = 0.91") (code ",") eq_refl eq_refl _ eq_refl eq_refl
            eq_refl eq_refl _ eq_refl eq_refl).
  - intros (x & y & Hxy). by destruct x.
  - vm_compute. tauto.
Defined.
